(** * obsidian-gemini-transcriber: segmentation, retry envelope, ledger

    A shallow embedding of the parts of the transcriber that carry its
    behavioural contract, followed by the properties checked against
    them.  The first half holds the definitions, one module per source
    file:

    - [VAD]: [VADProcessor._group_segments], [_create_audio_segments]
      and [split_audio] (src/audio/vad.py);
    - [Retry]: [is_retryable_error], [execute_with_timeout] and
      [retry_with_backoff] (src/api/retry.py);
    - [Service]: [TranscriptionService.transcribe_file],
      [_transcribe_direct] and [_transcribe_with_vad]
      (src/transcription/service.py);
    - [Database]: [ProcessedFilesDatabase] (src/obsidian/database.py).

    The second half holds the lemmas and theorems.

    Python floats are IEEE binary64 numbers and are modelled by Rocq's
    primitive floats.  The grouping loop only subtracts and compares,
    so it is written once over any carrier with these two operations
    and run at binary64.  Python ints are [Z], [str] values byte
    strings, dicts used as maps [gmap]s. *)

From Stdlib Require Import ZArith List String Ascii Floats Lia DecimalString.
From stdpp Require Import gmap strings list.
Import ListNotations.

Local Open Scope Z_scope.
Set Warnings "-register-all".

(** ** Exceptions and results, shared by all modules *)

(** The exception classes the code distinguishes in its [except] clauses;
    every other class behaves like a plain [Exception]. *)
Inductive ExnClass :=
| TimeoutError_       (* concurrent.futures.TimeoutError *)
| RetryableError_     (* src.api.retry.RetryableError *)
| Exception_.         (* any other subclass of Exception *)

(** An exception object: its class and the text [str(e)] yields. *)
Record Exn := mkExn { exn_class : ExnClass; exn_str : string }.

(** The outcome of a call that may raise. *)
Inductive Result (A : Type) :=
| Return (a : A)
| Raise (e : Exn).
Arguments Return {A} a.
Arguments Raise {A} e.

(** ** Python strings

    [str] values are modelled as byte strings (UTF-8).  [lower] folds
    the ASCII letters only, which is all the keyword test relies on. *)

Module Py.

(** [str(n)] for an [int]. *)
Definition str_int (n : Z) : string := NilZero.string_of_int (Z.to_int n).

Definition lower_char (c : ascii) : ascii :=
  let n := nat_of_ascii c in
  if ((65 <=? n) && (n <=? 90))%nat then ascii_of_nat (n + 32) else c.

(** [s.lower()]. *)
Fixpoint lower (s : string) : string :=
  match s with
  | EmptyString => EmptyString
  | String c s' => String (lower_char c) (lower s')
  end.

(** [sub in s]. *)
Definition contains (sub s : string) : bool :=
  match String.index 0 sub s with
  | Some _ => true
  | None => false
  end.

(** [s.endswith(suffix)]. *)
Definition endswith (s suffix : string) : bool :=
  let n := String.length s in
  let m := String.length suffix in
  if (m <=? n)%nat then String.eqb (String.substring (n - m) m s) suffix
  else false.

(** [sep.join(parts)]. *)
Definition join (sep : string) (parts : list string) : string :=
  String.concat sep parts.

(** The line feed character and the blank-line separator ["\n\n"]. *)
Definition LF : string := String "010" EmptyString.
Definition blank_line : string := LF ++ LF.

(** [int(x)] for a float: truncation toward zero; it raises on an
    infinity ([OverflowError]) or a NaN ([ValueError]). *)
Definition int_of_float (x : float) : Result Z :=
  match Prim2SF x with
  | S754_zero _ => Return 0
  | S754_finite s m e =>
      let magnitude :=
        if 0 <=? e then Z.pos m * 2 ^ e else Z.pos m / 2 ^ (- e) in
      Return (if s then - magnitude else magnitude)
  | S754_infinity _ =>
      Raise (mkExn Exception_ "cannot convert float infinity to integer")
  | S754_nan =>
      Raise (mkExn Exception_ "cannot convert float NaN to integer")
  end.

End Py.

(** ** The file system and the effects of the code

    The file system is the finite map from the paths that exist to
    their contents.  Temporary files get their names from the
    collaborator [tmp_name], indexed by the number of temporary files
    created so far.  [vad_model] records whether the processor has
    loaded its detector model ([self.model is not None]). *)

Record World := mkWorld {
  fs : gmap string string;
  tmp_count : nat;
  vad_model : bool
}.

Definition set_fs (f : gmap string string -> gmap string string) (w : World)
  : World :=
  mkWorld (f (fs w)) (tmp_count w) (vad_model w).

(** A computation that reads and writes the world and may raise. *)
Definition M (A : Type) : Type := World -> Result A * World.

Definition ret {A} (a : A) : M A := fun w => (Return a, w).

Definition raise {A} (e : Exn) : M A := fun w => (Raise e, w).

Definition lift {A} (r : Result A) : M A := fun w => (r, w).

Definition bind {A B} (m : M A) (k : A -> M B) : M B :=
  fun w =>
    match m w with
    | (Return a, w') => k a w'
    | (Raise e, w') => (Raise e, w')
    end.

Notation "x <- m ;; k" := (bind m (fun x => k))
  (at level 100, m at next level, right associativity).
Notation "m ;;; k" := (bind m (fun _ => k))
  (at level 100, right associativity).

(** [try: m  except Exception as e: handler(e)]. *)
Definition try_except {A} (m : M A) (handler : Exn -> M A) : M A :=
  fun w =>
    match m w with
    | (Return a, w') => (Return a, w')
    | (Raise e, w') => handler e w'
    end.

(** [try: m  finally: cleanup]: the cleanup runs on both exits; when it
    raises, its exception replaces the outcome of [m]. *)
Definition try_finally {A} (m : M A) (cleanup : M unit) : M A :=
  fun w =>
    let '(r, w') := m w in
    match cleanup w' with
    | (Return _, w'') => (r, w'')
    | (Raise e, w'') => (Raise e, w'')
    end.

(** [path.exists()] / [os.path.exists(path)]. *)
Definition path_exists (p : string) : M bool :=
  fun w => (Return (bool_decide (is_Some (fs w !! p))), w).

(** [os.remove(path)]: removing a file that exists succeeds. *)
Definition os_remove (p : string) : M unit :=
  fun w =>
    match fs w !! p with
    | Some _ => (Return tt, set_fs (delete p) w)
    | None => (Raise (mkExn Exception_ "No such file or directory"), w)
    end.

(** Writing [content] to [p], creating or replacing the file. *)
Definition write_file (p content : string) : M unit :=
  fun w => (Return tt, set_fs (insert p content) w).

(** A speech timestamp, the dict [{"start": s, "end": e}] that
    [get_speech_timestamps] returns. *)
Record timestamp (T : Type) := mkTimestamp { ts_start : T; ts_end : T }.
Arguments mkTimestamp {T} _ _.
Arguments ts_start {T} _.
Arguments ts_end {T} _.

(** The collaborators of the pipeline: the audio libraries, the voice
    activity detector and the remote transcription client.  Each is
    given by the answer it returns for its arguments. *)
Record Env := mkEnv {
  (* soundfile.info(path).duration *)
  sf_duration : string -> Result float;
  (* AudioSegment.from_file(path): the decoded audio *)
  from_file : string -> Result string;
  (* audio.duration_seconds *)
  audio_duration_seconds : string -> float;
  (* audio[start_ms:end_ms] *)
  slice : string -> Z -> Z -> string;
  (* the bytes audio.export(..., format="wav") writes, or its error *)
  export_wav : string -> Result string;
  (* load_silero_vad() *)
  load_silero_vad : Result unit;
  (* read_audio(wav_path, sampling_rate=VAD_SAMPLING_RATE) *)
  read_audio : string -> Result string;
  (* get_speech_timestamps(wav, model, ..., return_seconds=True) *)
  get_speech_timestamps : string -> Result (list (timestamp float));
  (* the name tempfile gives its n-th file with this suffix *)
  tmp_name : nat -> string -> string;
  (* GeminiClient.transcribe_audio(path, segment_info) *)
  transcribe_audio : string -> option (float * float) -> Result string
}.

(** [tempfile.NamedTemporaryFile(suffix=suffix, delete=False).name]:
    an empty file is created under a new name. *)
Definition NamedTemporaryFile (env : Env) (suffix : string) : M string :=
  fun w =>
    let name := tmp_name env (tmp_count w) suffix in
    (Return name,
     mkWorld (<[name := EmptyString]> (fs w)) (S (tmp_count w)) (vad_model w)).

(** [get_audio_duration] (src/audio/utils.py): soundfile first, pydub
    as the fallback; the fallback's error propagates. *)
Definition get_audio_duration (env : Env) (audio_path : string)
  : Result float :=
  match sf_duration env audio_path with
  | Return duration => Return duration
  | Raise _ =>
      match from_file env audio_path with
      | Return audio => Return (audio_duration_seconds env audio)
      | Raise e => Raise e
      end
  end.

(** ** Binary64 values

    The values of the floats the program computes with, for reasoning
    about their order.  A finite binary64 number is a multiple of
    [2 ^ emin]; [units] gives that multiple, and puts the infinities
    beyond every finite value.  [round_units] is the rounding to
    nearest, ties to even, of a non-negative multiple to the format,
    [far] standing for an overflow to infinity. *)

Module FloatOrder.

Definition emin : Z := -1074.
Definition far : Z := 2 ^ 2100.
Definition overflow_bound : Z := 2 ^ 2098.

Definition units (x : spec_float) : Z :=
  match x with
  | S754_zero _ => 0
  | S754_finite s m e => cond_Zopp s (Z.pos m * 2 ^ (e - emin))
  | S754_infinity s => cond_Zopp s far
  | S754_nan => 0
  end.

(** [V / 2 ^ n] rounded to the nearest integer, ties to even. *)
Definition rne (V n : Z) : Z :=
  let q := V / 2 ^ n in
  match 2 * (V mod 2 ^ n) ?= 2 ^ n with
  | Lt => q
  | Eq => if Z.even q then q else q + 1
  | Gt => q + 1
  end.

(** [V] rounded to 53 significant binary digits. *)
Definition scaled (V : Z) : Z :=
  rne V (Z.max (Zdigits2 V - 53) 0) * 2 ^ Z.max (Zdigits2 V - 53) 0.

Definition round_units (V : Z) : Z :=
  let n := Z.max (Zdigits2 V - 53) 0 in
  let F := rne V n * 2 ^ n in
  if overflow_bound <=? F then far else F.

Definition round_signed (V : Z) : Z :=
  if V <? 0 then - round_units (- V) else round_units V.

(** The round bit and the sticky bit after [N] shifts to the right. *)
Definition round_bit (m N : Z) : bool := 2 ^ N <=? 2 * (m mod 2 ^ N).
Definition sticky_bit (m N : Z) : bool :=
  negb ((m mod 2 ^ N =? 0) || (2 * (m mod 2 ^ N) =? 2 ^ N)).

(** A result that is an infinity or a finite number of sign [s]. *)
Definition signed_result (s : bool) (r : spec_float) : Prop :=
  r = S754_infinity s \/ exists m e, r = S754_finite s m e.

(** Neither an infinity nor a NaN. *)
Definition finite_value (x : spec_float) : bool :=
  match x with
  | S754_zero _ | S754_finite _ _ _ => true
  | _ => false
  end.

Definition finite_float (x : float) : bool := finite_value (Prim2SF x).

End FloatOrder.

(** ** Voice activity segmentation (src/audio/vad.py) *)

Module VAD.

Section Grouper.
(** The carrier of times and durations and the two operations the loop
    applies to them: [timestamp["end"] - current_start] and
    [... <= max_duration]. *)
Context {T : Type}.
Variable sub : T -> T -> T.
Variable leb : T -> T -> bool.

(** The loop state: [segments], [current_start], [current_end]. *)
Definition group_state : Type := list (T * T) * T * T.

(** One iteration of the [for timestamp in timestamps[1:]] loop. *)
Definition group_iter (max_duration : T) (st : group_state) (t : timestamp T)
  : group_state :=
  let '(segments, current_start, current_end) := st in
  if leb (sub (ts_end t) current_start) max_duration
  then (segments, current_start, ts_end t)
  else (segments ++ [(current_start, current_end)], ts_start t, ts_end t).

(** [VADProcessor._group_segments]. *)
Definition _group_segments (timestamps : list (timestamp T)) (max_duration : T)
  : list (T * T) :=
  match timestamps with
  | [] => []
  | t0 :: rest =>
      let '(segments, current_start, current_end) :=
        fold_left (group_iter max_duration) rest ([], ts_start t0, ts_end t0) in
      segments ++ [(current_start, current_end)]
  end.

(** *** The greedy forward merge of the specification

    Written from the words of the specification, as a recursion on the
    remaining intervals: the current group is [(cur_start, cur_end)];
    an interval whose end is within [max_duration] of the group's
    start extends the group, any other closes it and seeds the next;
    the last group is emitted unconditionally. *)
Fixpoint greedy_from (max_duration cur_start cur_end : T)
    (rest : list (timestamp T)) : list (T * T) :=
  match rest with
  | [] => [(cur_start, cur_end)]
  | t :: rest' =>
      if leb (sub (ts_end t) cur_start) max_duration
      then greedy_from max_duration cur_start (ts_end t) rest'
      else (cur_start, cur_end)
             :: greedy_from max_duration (ts_start t) (ts_end t) rest'
  end.

Definition greedy_merge (intervals : list (timestamp T)) (max_duration : T)
  : list (T * T) :=
  match intervals with
  | [] => []
  | t0 :: rest => greedy_from max_duration (ts_start t0) (ts_end t0) rest
  end.

(** *** Which intervals went into which group

    The same recursion, keeping the members of each group instead of
    its two bounds.  [cur] holds the members of the current group
    after its seed, most recent first. *)
Fixpoint members_from (max_duration : T) (seed : timestamp T)
    (cur : list (timestamp T)) (rest : list (timestamp T))
  : list (list (timestamp T)) :=
  match rest with
  | [] => [seed :: rev cur]
  | t :: rest' =>
      if leb (sub (ts_end t) (ts_start seed)) max_duration
      then members_from max_duration seed (t :: cur) rest'
      else (seed :: rev cur) :: members_from max_duration t [] rest'
  end.

Definition group_members (intervals : list (timestamp T)) (max_duration : T)
  : list (list (timestamp T)) :=
  match intervals with
  | [] => []
  | t0 :: rest => members_from max_duration t0 [] rest
  end.

(** The bounds of a group: the start of its first member and the end
    of its last one. *)
Definition group_bounds (g : list (timestamp T)) : option (T * T) :=
  match g with
  | [] => None
  | t0 :: _ => Some (ts_start t0, ts_end (List.last g t0))
  end.

(** The tuples of a grouping fed back as timestamps. *)
Definition as_timestamps (groups : list (T * T)) : list (timestamp T) :=
  map (fun g => mkTimestamp (fst g) (snd g)) groups.

(** Consecutive interval ends never decrease: what a detector that
    reports disjoint intervals in temporal order guarantees. *)
Fixpoint ends_ascend (prev_end : T) (rest : list (timestamp T)) : Prop :=
  match rest with
  | [] => True
  | t :: rest' => leb prev_end (ts_end t) = true /\ ends_ascend (ts_end t) rest'
  end.

Definition ends_nondecreasing (intervals : list (timestamp T)) : Prop :=
  match intervals with
  | [] => True
  | t0 :: rest => ends_ascend (ts_end t0) rest
  end.

(** Consecutive interval starts never decrease. *)
Fixpoint starts_ascend (prev_start : T) (rest : list (timestamp T)) : Prop :=
  match rest with
  | [] => True
  | t :: rest' =>
      leb prev_start (ts_start t) = true /\ starts_ascend (ts_start t) rest'
  end.

Definition starts_nondecreasing (intervals : list (timestamp T)) : Prop :=
  match intervals with
  | [] => True
  | t0 :: rest => starts_ascend (ts_start t0) rest
  end.

(** The span [end - start] of a group is at most [max_duration]. *)
Definition span_within (max_duration : T) (g : list (timestamp T)) : Prop :=
  match group_bounds g with
  | Some (group_start, group_end) =>
      leb (sub group_end group_start) max_duration = true
  | None => True
  end.

(** No group of a grouping could absorb its successor: the successor's
    end is farther than [max_duration] from the group's start. *)
Fixpoint separated (max_duration : T) (cur_start : T) (rest : list (T * T))
  : Prop :=
  match rest with
  | [] => True
  | g :: rest' =>
      leb (sub (snd g) cur_start) max_duration = false
      /\ separated max_duration (fst g) rest'
  end.

End Grouper.

(** The end of the last of the remaining intervals, or the current end
    when none remains. *)
Fixpoint final_end {T : Type} (cur_end : T) (rest : list (timestamp T)) : T :=
  match rest with
  | [] => cur_end
  | t :: rest' => final_end (ts_end t) rest'
  end.

Section Order.
Context {T : Type}.
Variable leb : T -> T -> bool.

(** Intervals in temporal order that do not overlap: each ends no
    earlier than it starts and starts no earlier than the one before
    it ended. *)
Fixpoint intervals_follow (prev_end : T) (rest : list (timestamp T)) : Prop :=
  match rest with
  | [] => True
  | t :: rest' =>
      leb prev_end (ts_start t) = true
      /\ leb (ts_start t) (ts_end t) = true
      /\ intervals_follow (ts_end t) rest'
  end.

Definition disjoint_in_order (intervals : list (timestamp T)) : Prop :=
  match intervals with
  | [] => True
  | t0 :: rest =>
      leb (ts_start t0) (ts_end t0) = true /\ intervals_follow (ts_end t0) rest
  end.

(** The same for the emitted tuples. *)
Fixpoint groups_follow (prev_end : T) (groups : list (T * T)) : Prop :=
  match groups with
  | [] => True
  | g :: groups' =>
      leb prev_end (fst g) = true
      /\ leb (fst g) (snd g) = true
      /\ groups_follow (snd g) groups'
  end.

Definition groups_in_order (groups : list (T * T)) : Prop :=
  match groups with
  | [] => True
  | g :: groups' =>
      leb (fst g) (snd g) = true /\ groups_follow (snd g) groups'
  end.

End Order.

(** The grouper as the program runs it, on binary64 floats. *)
Definition group_segments_float
  : list (timestamp float) -> float -> list (float * float) :=
  _group_segments PrimFloat.sub PrimFloat.leb.

(** Every start and every end is a finite number. *)
Definition finite_times (timestamps : list (timestamp float)) : bool :=
  forallb
    (fun t =>
       FloatOrder.finite_float (ts_start t)
       && FloatOrder.finite_float (ts_end t))
    timestamps.

(** Constants of src/constants.py used here. *)
Definition MAX_SEGMENT_DURATION : float := 600%float.

(** Sample detector outputs: the scenario of the specification, and
    three intervals sorted by start time of which the third lies inside
    the second. *)
Definition scenario_intervals : list (timestamp float) :=
  [ mkTimestamp 0 5; mkTimestamp 5 12; mkTimestamp 40 45 ]%float.

Definition nested_intervals : list (timestamp float) :=
  [ mkTimestamp 0 5; mkTimestamp 6 20; mkTimestamp 7 8 ]%float.

(** Three intervals in temporal order, none overlapping the next, of
    which the first two lie at minus infinity. *)
Definition infinite_intervals : list (timestamp float) :=
  [ mkTimestamp neg_infinity neg_infinity;
    mkTimestamp neg_infinity neg_infinity;
    mkTimestamp 1 5 ]%float.

(** A speech interval ends after it starts. *)
Definition speech_interval (t : timestamp float) : Prop :=
  (ts_start t <? ts_end t)%float = true.

(** A segment [(start_time, end_time, segment_path)]. *)
Definition Segment : Type := float * float * string.

(** The times of a segment, and the suffix of the temporary file of
    the segment with index [i]. *)
Definition segment_times (segment : Segment) : float * float := fst segment.

Definition segment_suffix (i : nat) : string :=
  ("_segment_" ++ Py.str_int (Z.of_nat i) ++ ".wav")%string.

(** [VADProcessor._ensure_model]. *)
Definition _ensure_model (env : Env) : M unit :=
  fun w =>
    if vad_model w then (Return tt, w)
    else
      match load_silero_vad env with
      | Return _ => (Return tt, mkWorld (fs w) (tmp_count w) true)
      | Raise e => (Raise e, w)
      end.

(** The loop of [VADProcessor._create_audio_segments]; [i] is the index
    [enumerate] gives and [temp_files] the list built so far. *)
Fixpoint create_segments_loop (env : Env) (audio : string) (i : nat)
    (segments : list (float * float)) (temp_files : list Segment)
  : M (list Segment) :=
  match segments with
  | [] => ret temp_files
  | (start, end_) :: rest =>
      start_ms <- lift (Py.int_of_float (start * 1000)%float) ;;
      end_ms <- lift (Py.int_of_float (end_ * 1000)%float) ;;
      let segment := slice env audio start_ms end_ms in
      temp_file <- NamedTemporaryFile env
        ("_segment_" ++ Py.str_int (Z.of_nat i) ++ ".wav") ;;
      bytes <- lift (export_wav env segment) ;;
      write_file temp_file bytes ;;;
      create_segments_loop env audio (S i) rest
        (temp_files ++ [(start, end_, temp_file)])
  end.

(** [VADProcessor._create_audio_segments]. *)
Definition _create_audio_segments (env : Env) (audio_path : string)
    (segments : list (float * float)) : M (list Segment) :=
  audio <- lift (from_file env audio_path) ;;
  create_segments_loop env audio 0 segments [].

(** [VADProcessor.split_audio]. *)
Definition split_audio (env : Env) (audio_path : string) (max_duration : float)
  : M (list Segment) :=
  _ensure_model env ;;;
  paths <-
    (if negb (Py.endswith (Py.lower audio_path) ".wav") then
       audio <- lift (from_file env audio_path) ;;
       temp_wav_path <- NamedTemporaryFile env ".wav" ;;
       bytes <- lift (export_wav env audio) ;;
       write_file temp_wav_path bytes ;;;
       ret (temp_wav_path, Some temp_wav_path)
     else ret (audio_path, None)) ;;
  let '(wav_path, temp_wav_path) := paths in
  try_finally
    (wav <- lift (read_audio env wav_path) ;;
     speech_timestamps <- lift (get_speech_timestamps env wav) ;;
     match speech_timestamps with
     | [] =>
         duration <- lift (get_audio_duration env audio_path) ;;
         ret [(0%float, duration, audio_path)]
     | _ :: _ =>
         let segments := group_segments_float speech_timestamps max_duration in
         _create_audio_segments env audio_path segments
     end)
    (match temp_wav_path with
     | Some p =>
         present <- path_exists p ;;
         if negb (String.eqb p EmptyString) && present then os_remove p
         else ret tt
     | None => ret tt
     end).

End VAD.

(** ** The call envelope (src/api/retry.py) *)

Module Retry.

(** Constants of src/constants.py used here. *)
Definition MAX_RETRIES : Z := 5.
Definition DEFAULT_TIMEOUT : Z := 600.
Definition RETRY_BACKOFF_BASE : Z := 10.
Definition MAX_RETRY_WAIT : Z := 120.
Definition RETRYABLE_ERROR_KEYWORDS : list string :=
  [ "server"; "service"; "unavailable"; "503"; "500"; "429";
    "rate limit"; "quota"; "empty response"; "no text content" ].

(** [is_retryable_error]. *)
Definition is_retryable_error (error : Exn) : bool :=
  match exn_class error with
  | RetryableError_ => true
  | _ =>
      let error_msg := Py.lower (exn_str error) in
      existsb (fun keyword => Py.contains keyword error_msg)
        RETRYABLE_ERROR_KEYWORDS
  end.

(** What one invocation of the wrapped function does: it returns, it
    raises, or it is still running when the timeout expires. *)
Inductive Outcome (T : Type) :=
| Returns (v : T)
| Raises (e : Exn)
| Hangs.
Arguments Returns {T} v.
Arguments Raises {T} e.
Arguments Hangs {T}.

(** What the envelope does, in order: waits, invocations of the wrapped
    function, calls of the observer. *)
Inductive Event :=
| Slept (seconds : Z)
| Called (attempt : nat)
| Notified (attempt_number : Z) (error : Exn).

(** The number of invocations of the wrapped function in a log. *)
Definition is_call (ev : Event) : bool :=
  match ev with
  | Called _ => true
  | _ => false
  end.

Definition invocations (log : list Event) : nat :=
  length (List.filter is_call log).

Section Envelope.
Context {T : Type}.

(** The wrapped function: [func i] is what its [i]-th invocation does
    (counting from 0). *)
Variable func : nat -> Outcome T.
Variable max_retries : Z.
Variable timeout : Z.
(** The observer, when there is one: [None] when it returns, the
    exception when it raises. *)
Variable on_retry : option (Z -> Exn -> option Exn).

(** [execute_with_timeout], applied to what the invocation does. *)
Definition execute_with_timeout (invocation : Outcome T) : Result T :=
  match invocation with
  | Hangs =>
      Raise (mkExn TimeoutError_
               ("Function execution timed out after "
                  ++ Py.str_int timeout ++ " seconds"))
  | Raises e => Raise e
  | Returns v => Return v
  end.

(** The wait before attempt [attempt] (for [attempt > 0]). *)
Definition wait_time (attempt : Z) : Z :=
  Z.min (RETRY_BACKOFF_BASE * 2 ^ (attempt - 1)) MAX_RETRY_WAIT.

(** [str(last_error)] for the optional last error. *)
Definition str_last_error (last_error : option Exn) : string :=
  match last_error with
  | Some e => exn_str e
  | None => "None"
  end.

(** The exception raised once the loop is exhausted. *)
Definition exhausted (last_error : option Exn) : Exn :=
  mkExn Exception_
    ("Maximum retries (" ++ Py.str_int max_retries
       ++ ") reached. Last error: " ++ str_last_error last_error).

(** [if on_retry and attempt < max_retries - 1: on_retry(attempt + 1, e)],
    with the log extended by the call; the result is the exception the
    observer raised, if any. *)
Definition notify (attempt : nat) (e : Exn) (log : list Event)
  : option Exn * list Event :=
  match on_retry with
  | Some observer =>
      if Z.of_nat attempt <? max_retries - 1
      then (observer (Z.of_nat attempt + 1) e,
            log ++ [Notified (Z.of_nat attempt + 1) e])
      else (None, log)
  | None => (None, log)
  end.

(** The [for attempt in range(max_retries)] loop over the attempts that
    remain, followed by the code after the loop. *)
Fixpoint retry_loop (attempts : list nat) (last_error : option Exn)
    (log : list Event) : Result T * list Event :=
  match attempts with
  | [] => (Raise (exhausted last_error), log)
  | attempt :: remaining =>
      let log1 :=
        if (0 <? attempt)%nat
        then log ++ [Slept (wait_time (Z.of_nat attempt))] else log in
      let log2 := log1 ++ [Called attempt] in
      match execute_with_timeout (func attempt) with
      | Return v => (Return v, log2)
      | Raise e =>
          match exn_class e with
          | TimeoutError_ =>
              match notify attempt e log2 with
              | (None, log3) => retry_loop remaining (Some e) log3
              | (Some raised, log3) => (Raise raised, log3)
              end
          | _ =>
              if is_retryable_error e then
                match notify attempt e log2 with
                | (None, log3) => retry_loop remaining (Some e) log3
                | (Some raised, log3) => (Raise raised, log3)
                end
              else (Raise e, log2)
          end
      end
  end.

(** [retry_with_backoff]. *)
Definition retry_with_backoff : Result T * list Event :=
  retry_loop (seq 0 (Z.to_nat max_retries)) None [].

(** An attempt that fails retryably: it times out, or it raises a
    timeout error or an error that [is_retryable_error] accepts. *)
Definition fails_retryably (invocation : Outcome T) : Prop :=
  match invocation with
  | Hangs => True
  | Raises e =>
      exn_class e = TimeoutError_ \/ is_retryable_error e = true
  | Returns _ => False
  end.

(** The error attempt [i] leaves in [last_error]. *)
Definition observed_error (invocation : Outcome T) : option Exn :=
  match execute_with_timeout invocation with
  | Raise e => Some e
  | Return _ => None
  end.

(** What [last_error] holds after the attempts [attempts], all failed. *)
Definition last_error_after (attempts : list nat) (last_error : option Exn)
  : option Exn :=
  match rev attempts with
  | [] => last_error
  | attempt :: _ => observed_error (func attempt)
  end.

(** The observer, if any, returns normally on every call. *)
Definition observer_returns : Prop :=
  match on_retry with
  | Some observer => forall n e, observer n e = None
  | None => True
  end.

End Envelope.

(** *** Reading a log *)

Definition is_sleep (ev : Event) : bool :=
  match ev with
  | Slept _ => true
  | _ => false
  end.

Definition is_notification (ev : Event) : bool :=
  match ev with
  | Notified _ _ => true
  | _ => false
  end.

(** The invocations, the waits and the observer calls of a log, each
    in the order they happened. *)
Definition calls (log : list Event) : list Event := List.filter is_call log.
Definition sleeps (log : list Event) : list Event := List.filter is_sleep log.
Definition notifications (log : list Event) : list Event :=
  List.filter is_notification log.

(** The wait the loop makes before attempt [attempt]: none before the
    first. *)
Definition wait_before (attempt : nat) : list Event :=
  if (0 <? attempt)%nat then [Slept (wait_time (Z.of_nat attempt))] else [].

Section Trace.
Context {T : Type}.
Variable func : nat -> Outcome T.
Variable max_retries : Z.
Variable timeout : Z.
Variable on_retry : option (Z -> Exn -> option Exn).

(** The observer call that follows the failure of attempt [attempt],
    when there is an observer and the attempt is not the last one. *)
Definition notification_after (attempt : nat) : list Event :=
  match on_retry, observed_error timeout (func attempt) with
  | Some _, Some e =>
      if Z.of_nat attempt <? max_retries - 1
      then [Notified (Z.of_nat attempt + 1) e] else []
  | _, _ => []
  end.

(** What an attempt that fails and is retried adds to the log. *)
Definition retried_events (attempt : nat) : list Event :=
  wait_before attempt ++ [Called attempt] ++ notification_after attempt.

(** What the attempt that ends the loop (a result or an error that is
    not retried) adds to the log. *)
Definition final_events (attempt : nat) : list Event :=
  wait_before attempt ++ [Called attempt].

(** An attempt that raises an error the loop does not retry. *)
Definition fails_fatally (invocation : Outcome T) (e : Exn) : Prop :=
  invocation = Raises e
  /\ exn_class e <> TimeoutError_
  /\ is_retryable_error e = false.

End Trace.

(** A remote call that answers every attempt with a 503. *)
Definition unavailable : Exn := mkExn Exception_ "503 Service Unavailable".

Definition always_unavailable (attempt : nat) : Outcome string :=
  Raises unavailable.

End Retry.

(** ** The transcription service (src/transcription/service.py) *)

Module Service.

(** The text that stands for a segment whose transcription failed;
    [i] is the index [enumerate] gives, the text shows [i + 1]. *)
Definition failure_placeholder (i : nat) (e : Exn) : string :=
  "[セグメント " ++ Py.str_int (Z.of_nat i + 1)
    ++ " の文字起こしに失敗: " ++ exn_str e ++ "]".

(** [TranscriptionService._transcribe_direct]. *)
Definition _transcribe_direct (env : Env) (audio_path : string) : M string :=
  lift (transcribe_audio env audio_path None).

(** The body of the loop of [_transcribe_with_vad] for one segment: the
    text appended to [transcriptions], with the cleanup of the segment
    file in the [finally] clause. *)
Definition transcribe_segment (env : Env) (i : nat) (segment : VAD.Segment)
  : M string :=
  let '(start, end_, segment_path) := segment in
  try_finally
    (try_except
       (lift (transcribe_audio env segment_path (Some (start, end_))))
       (fun e => ret (failure_placeholder i e)))
    (present <- path_exists segment_path ;;
     if present then os_remove segment_path else ret tt).

(** The [for i, (start, end, segment_path) in enumerate(segments)] loop
    from index [i] on; [transcriptions] is the list built so far. *)
Fixpoint transcribe_segments (env : Env) (i : nat)
    (segments : list VAD.Segment) (transcriptions : list string)
  : M (list string) :=
  match segments with
  | [] => ret transcriptions
  | segment :: rest =>
      text <- transcribe_segment env i segment ;;
      transcribe_segments env (S i) rest (transcriptions ++ [text])
  end.

(** [TranscriptionService._transcribe_with_vad]. *)
Definition _transcribe_with_vad (env : Env) (audio_path : string) : M string :=
  segments <- VAD.split_audio env audio_path VAD.MAX_SEGMENT_DURATION ;;
  transcriptions <- transcribe_segments env 0 segments [] ;;
  ret (Py.join Py.blank_line transcriptions).

(** [TranscriptionService.transcribe_file]; its [except] clause logs and
    re-raises. *)
Definition transcribe_file (env : Env) (audio_path : string) (use_vad : bool)
    (vad_threshold_seconds : float) : M string :=
  duration <- lift (get_audio_duration env audio_path) ;;
  if use_vad && (vad_threshold_seconds <? duration)%float
  then _transcribe_with_vad env audio_path
  else _transcribe_direct env audio_path.

(** The transcription call the loop makes for a segment. *)
Definition segment_call (env : Env) (segment : VAD.Segment) : Result string :=
  let '(start, end_, segment_path) := segment in
  transcribe_audio env segment_path (Some (start, end_)).

Definition segment_path (segment : VAD.Segment) : string := snd segment.

(** The block of the combined text for the segment at index [i]. *)
Definition segment_block (env : Env) (i : nat) (segment : VAD.Segment)
  : string :=
  match segment_call env segment with
  | Return text => text
  | Raise e => failure_placeholder i e
  end.

(** The blocks for the segments from index [i] on. *)
Fixpoint segment_blocks (env : Env) (i : nat) (segments : list VAD.Segment)
  : list string :=
  match segments with
  | [] => []
  | segment :: rest =>
      segment_block env i segment :: segment_blocks env (S i) rest
  end.

(** The combined text in the words of the specification: the blocks
    in their order, with a blank line, that is two line feeds, between
    one block and the next, and nothing before the first block or
    after the last. *)
Fixpoint blocks_separated_by_blank_lines (blocks : list string) : string :=
  match blocks with
  | [] => EmptyString
  | block :: rest =>
      match rest with
      | [] => block
      | _ :: _ =>
          (block ++ String "010" (String "010"
                      (blocks_separated_by_blank_lines rest)))%string
      end
  end.

(** *** Sample collaborators

    A recording of 600 seconds at [/vault/talk.wav].  The detector
    reports three stretches of speech more than ten minutes apart, so
    that they form three segments; the remote call fails for the
    segment that starts at 700 seconds, with the error an exhausted
    retry budget gives. *)
Definition budget_exhausted : Exn :=
  mkExn Exception_ "Maximum retries (5) reached. Last error: 503 UNAVAILABLE".

Definition sample_env : Env :=
  mkEnv
    (fun _ => Return 600%float)
    (fun _ => Return "pcm")
    (fun _ => 600%float)
    (fun audio _ _ => audio)
    (fun audio => Return audio)
    (Return tt)
    (fun _ => Return "samples")
    (fun _ => Return [ mkTimestamp 0 100; mkTimestamp 700 800;
                       mkTimestamp 1500 1600 ]%float)
    (fun n suffix => ("/tmp/tmp" ++ Py.str_int (Z.of_nat n) ++ suffix)%string)
    (fun _ segment_info =>
       match segment_info with
       | None => Return "whole recording"
       | Some (start, _) =>
           if (start =? 700)%float then Raise budget_exhausted
           else Return ("speech from " ++ Py.str_int
                          (match Py.int_of_float start with
                           | Return n => n
                           | Raise _ => 0
                           end))%string
       end).

Definition sample_world : World :=
  mkWorld {[ "/vault/talk.wav" := "RIFF" ]} 0 false.

(** The same recording when the detector finds no speech in it. *)
Definition silent_env : Env :=
  mkEnv (sf_duration sample_env) (from_file sample_env)
    (audio_duration_seconds sample_env) (slice sample_env)
    (export_wav sample_env) (load_silero_vad sample_env)
    (read_audio sample_env) (fun _ => Return [])
    (tmp_name sample_env) (transcribe_audio sample_env).

End Service.

(** ** The processing ledger (src/obsidian/database.py) *)

Module Database.

Definition SCHEMA_VERSION : string := "1.0.0".

Inductive ProcessingStatus := PENDING | PROCESSING | COMPLETED | FAILED | SKIPPED.

(** [status.value]. *)
Definition value (s : ProcessingStatus) : string :=
  match s with
  | PENDING => "pending"
  | PROCESSING => "processing"
  | COMPLETED => "completed"
  | FAILED => "failed"
  | SKIPPED => "skipped"
  end.

(** *** The document in memory

    [self.data] as [_initialize_schema] shapes it and the operations
    keep it.  An entry is read with [.get], which gives [None] for an
    absent key and for a null alike, so every field of an entry is
    optional ([metadata] is [None] when the key is absent).  The
    counters are Python ints, durations Python floats. *)

Record Outputs := mkOutputs {
  transcription : option string;
  summary : option string
}.

Record Metadata := mkMetadata {
  duration_seconds : option float;
  file_size_bytes : option Z
}.

Record Entry := mkEntry {
  hash : option string;
  status : option string;
  processed_at : option string;
  updated_at : option string;
  outputs : option Outputs;
  metadata : option Metadata;
  error : option string
}.

Record Statistics := mkStatistics {
  total_processed : Z;
  total_failed : Z;
  total_size_bytes : Z;
  total_duration_seconds : float
}.

Record Data := mkData {
  version : string;
  created_at : string;
  last_updated : string;
  statistics : Statistics;
  files : gmap string Entry
}.

(** *** The document on disk

    A JSON value as [json.load] returns it. *)
Inductive json :=
| JNull
| JBool (b : bool)
| JInt (n : Z)
| JFloat (x : float)
| JStr (s : string)
| JList (items : list json)
| JDict (items : list (string * json)).

(** The store file, by what reading it gives: [json.load] raises (the
    text is empty, cut short or otherwise not JSON), or it returns a
    value.  A text that a failed [json.dump] left behind is a proper
    prefix of the text of an object and so belongs to the first case. *)
Inductive StoreFile :=
| Unreadable
| Document (doc : json).

(** The database object with its file: [data] is [self.data], [store]
    the file at [self.db_path], [None] when it does not exist. *)
Record Ledger := mkLedger {
  data : Data;
  store : option StoreFile
}.

Definition opt_json {A} (f : A -> json) (o : option A) : json :=
  match o with
  | Some a => f a
  | None => JNull
  end.

Definition outputs_json (o : Outputs) : json :=
  JDict [ ("transcription", opt_json JStr (transcription o));
          ("summary", opt_json JStr (summary o)) ].

Definition metadata_json (m : Metadata) : json :=
  JDict [ ("duration_seconds", opt_json JFloat (duration_seconds m));
          ("file_size_bytes", opt_json JInt (file_size_bytes m)) ].

Definition entry_json (e : Entry) : json :=
  JDict [ ("hash", opt_json JStr (hash e));
          ("status", opt_json JStr (status e));
          ("processed_at", opt_json JStr (processed_at e));
          ("updated_at", opt_json JStr (updated_at e));
          ("outputs", opt_json outputs_json (outputs e));
          ("metadata", opt_json metadata_json (metadata e));
          ("error", opt_json JStr (error e)) ].

Definition statistics_json (s : Statistics) : json :=
  JDict [ ("total_processed", JInt (total_processed s));
          ("total_failed", JInt (total_failed s));
          ("total_size_bytes", JInt (total_size_bytes s));
          ("total_duration_seconds", JFloat (total_duration_seconds s)) ].

(** The JSON value of the document in memory, absent optional fields
    as nulls. *)
Definition to_json (d : Data) : json :=
  JDict [ ("version", JStr (version d));
          ("created_at", JStr (created_at d));
          ("last_updated", JStr (last_updated d));
          ("statistics", statistics_json (statistics d));
          ("files",
           JDict (map (fun kv => (fst kv, entry_json (snd kv)))
                    (map_to_list (files d)))) ].

(** *** Python's view of a JSON value *)

(** [bool(v)]. *)
Definition truthy (v : json) : bool :=
  match v with
  | JNull => false
  | JBool b => b
  | JInt n => negb (n =? 0)
  | JFloat x => negb (x =? 0)%float
  | JStr s => negb (String.eqb s EmptyString)
  | JList items => match items with [] => false | _ => true end
  | JDict items => match items with [] => false | _ => true end
  end.

(** [d.get(key)] on the items of a dict. *)
Fixpoint dict_lookup (key : string) (items : list (string * json))
  : option json :=
  match items with
  | [] => None
  | (k, v) :: rest => if String.eqb k key then Some v else dict_lookup key rest
  end.

(** [key in v]: a key of a dict, an element of a list, a substring of a
    string; a [TypeError] for anything else. *)
Definition py_in (key : string) (v : json) : Result bool :=
  match v with
  | JDict items =>
      Return (match dict_lookup key items with Some _ => true | None => false end)
  | JList items =>
      Return (existsb (fun x => match x with
                                | JStr s => String.eqb s key
                                | _ => false
                                end) items)
  | JStr s => Return (Py.contains key s)
  | _ => Raise (mkExn Exception_ "argument is not iterable")
  end.

(** [v.get(key, default)]: an [AttributeError] unless [v] is a dict. *)
Definition py_get (key : string) (default : json) (v : json) : Result json :=
  match v with
  | JDict items =>
      Return (match dict_lookup key items with Some x => x | None => default end)
  | _ => Raise (mkExn Exception_ "object has no attribute 'get'")
  end.

(** [len(v)]: a [TypeError] unless [v] is a dict, a list or a string. *)
Definition py_len (v : json) : Result nat :=
  match v with
  | JDict items => Return (length items)
  | JList items => Return (length items)
  | JStr s => Return (String.length s)
  | _ => Raise (mkExn Exception_ "object has no len()")
  end.

(** *** Loading and saving *)

(** [_initialize_schema]; [now 0] and [now 1] are the two readings of
    the clock. *)
Definition _initialize_schema (now : nat -> string) : Data :=
  mkData SCHEMA_VERSION (now 0%nat) (now 1%nat)
    (mkStatistics 0 0 0 0%float) ∅.

(** [load]: the value [self.data] holds afterwards.  [Unreadable]
    covers every exception of [open] and [json.load]; the [TypeError]s
    and [AttributeError]s of the checks and of the log line are caught
    by the same [except] clause. *)
Definition load (now : nat -> string) (store_file : option StoreFile) : json :=
  let fresh := to_json (_initialize_schema now) in
  match store_file with
  | None => fresh
  | Some Unreadable => fresh
  | Some (Document doc) =>
      if negb (truthy doc) then fresh
      else
        match py_in "version" doc with
        | Raise _ => fresh
        | Return false => fresh
        | Return true =>
            match py_get "files" (JDict []) doc with
            | Raise _ => fresh
            | Return loaded_files =>
                match py_len loaded_files with
                | Raise _ => fresh
                | Return _ => doc
                end
            end
        end
  end.

(** What the file system does during one [save]. *)
Inductive SaveIO :=
| SaveSucceeds
| MkdirFails (e : Exn)   (* [self.db_path.parent.mkdir] raises *)
| OpenFails (e : Exn)    (* [open(self.db_path, "w")] raises, file untouched *)
| DumpFails (e : Exn).   (* the file is opened, hence emptied, and
                            [json.dump] or the closing flush raises
                            before the text is complete *)

Definition set_last_updated (now : string) (d : Data) : Data :=
  mkData (version d) (created_at d) now (statistics d) (files d).

(** [save]; its [except] clause logs and re-raises. *)
Definition save (io : SaveIO) (now : string) (l : Ledger)
  : Result unit * Ledger :=
  match io with
  | MkdirFails e => (Raise e, l)
  | OpenFails e => (Raise e, mkLedger (set_last_updated now (data l)) (store l))
  | DumpFails e =>
      (Raise e, mkLedger (set_last_updated now (data l)) (Some Unreadable))
  | SaveSucceeds =>
      let d := set_last_updated now (data l) in
      (Return tt, mkLedger d (Some (Document (to_json d))))
  end.

(** *** The operations *)

Section Operations.
(** [hashlib.md5(content).hexdigest()]. *)
Variable md5_hexdigest : string -> string.
(** The files that can be read, with their contents. *)
Variable disk : gmap string string.

(** [get_file_hash]: it raises when the file cannot be opened. *)
Definition get_file_hash (file_path : string) : Result string :=
  match disk !! file_path with
  | Some content => Return (md5_hexdigest content)
  | None => Raise (mkExn Exception_ "No such file or directory")
  end.

(** [is_processed]. *)
Definition is_processed (file_path : string) (d : Data) : bool :=
  match files d !! file_path with
  | None => false
  | Some file_entry =>
      if negb (bool_decide (status file_entry = Some (value COMPLETED)))
      then false
      else
        match get_file_hash file_path with
        | Return current_hash =>
            bool_decide (Some current_hash = hash file_entry)
        | Raise _ => false
        end
  end.

Definition float_truthy (x : option float) : bool :=
  match x with
  | Some v => negb (v =? 0)%float
  | None => false
  end.

Definition int_truthy (n : option Z) : bool :=
  match n with
  | Some v => negb (v =? 0)
  | None => false
  end.

(** [max(0, x)] on a float: [x] when [x > 0], else [0]. *)
Definition float_max0 (x : float) : float :=
  if (0 <? x)%float then x else 0%float.

Definition set_total_processed (n : Z) (s : Statistics) : Statistics :=
  mkStatistics n (total_failed s) (total_size_bytes s)
    (total_duration_seconds s).

Definition set_total_failed (n : Z) (s : Statistics) : Statistics :=
  mkStatistics (total_processed s) n (total_size_bytes s)
    (total_duration_seconds s).

Definition set_total_size_bytes (n : Z) (s : Statistics) : Statistics :=
  mkStatistics (total_processed s) (total_failed s) n
    (total_duration_seconds s).

Definition set_total_duration_seconds (x : float) (s : Statistics)
  : Statistics :=
  mkStatistics (total_processed s) (total_failed s) (total_size_bytes s) x.

Definition has_status (s : ProcessingStatus) (d : Data) (str_path : string)
  : bool :=
  match files d !! str_path with
  | Some old_entry => bool_decide (status old_entry = Some (value s))
  | None => false
  end.

(** [add_processed_file]; [now 0], [now 1] and [now 2] are the readings
    of the clock for [processed_at], [updated_at] and the save.  Its
    [except] clause logs and re-raises. *)
Definition add_processed_file (now : nat -> string) (io : SaveIO)
    (file_path markdown_path : string) (summary_path : option string)
    (duration : option float) (file_size : option Z) (l : Ledger)
  : Result unit * Ledger :=
  match get_file_hash file_path with
  | Raise e => (Raise e, l)
  | Return file_hash =>
      let d := data l in
      let str_path := file_path in
      let was_failed := has_status FAILED d str_path in
      let stats1 :=
        if was_failed
        then set_total_failed
               (Z.max 0 (total_failed (statistics d) - 1)) (statistics d)
        else statistics d in
      let entry :=
        mkEntry (Some file_hash) (Some (value COMPLETED))
          (Some (now 0%nat)) (Some (now 1%nat))
          (Some (mkOutputs (Some markdown_path) summary_path))
          (Some (mkMetadata duration file_size))
          None in
      let files1 := <[str_path := entry]> (files d) in
      let stats2 :=
        if negb was_failed
        then set_total_processed (total_processed stats1 + 1) stats1
        else stats1 in
      let stats3 :=
        match duration with
        | Some x =>
            if float_truthy duration
            then set_total_duration_seconds
                   (total_duration_seconds stats2 + x)%float stats2
            else stats2
        | None => stats2
        end in
      let stats4 :=
        match file_size with
        | Some n =>
            if int_truthy file_size
            then set_total_size_bytes (total_size_bytes stats3 + n) stats3
            else stats3
        | None => stats3
        end in
      save io (now 2%nat)
        (mkLedger
           (mkData (version d) (created_at d) (last_updated d) stats4 files1)
           (store l))
  end.

(** [add_failed_file]; [now 0] and [now 1] are the readings of the
    clock for [updated_at] and the save.  Its [except] clause logs and
    does not re-raise, so the call always returns. *)
Definition add_failed_file (now : nat -> string) (io : SaveIO)
    (file_path error_text : string) (file_size : option Z) (l : Ledger)
  : Ledger :=
  let d := data l in
  let str_path := file_path in
  let file_hash :=
    match get_file_hash file_path with
    | Return h => Some h
    | Raise _ => None
    end in
  let was_processed := has_status COMPLETED d str_path in
  let stats1 :=
    if was_processed
    then set_total_processed
           (Z.max 0 (total_processed (statistics d) - 1)) (statistics d)
    else statistics d in
  let entry :=
    mkEntry file_hash (Some (value FAILED)) None (Some (now 0%nat))
      (Some (mkOutputs None None))
      (Some (mkMetadata None file_size))
      (Some error_text) in
  let files1 := <[str_path := entry]> (files d) in
  let stats2 :=
    if negb was_processed
    then set_total_failed (total_failed stats1 + 1) stats1
    else stats1 in
  snd (save io (now 1%nat)
         (mkLedger
            (mkData (version d) (created_at d) (last_updated d) stats2 files1)
            (store l))).

Definition entry_duration (e : Entry) : option float :=
  match metadata e with
  | Some m => duration_seconds m
  | None => None
  end.

Definition entry_size (e : Entry) : option Z :=
  match metadata e with
  | Some m => file_size_bytes m
  | None => None
  end.

(** [remove_processed_file]; an exception of [save] propagates. *)
Definition remove_processed_file (now : string) (io : SaveIO)
    (file_path : string) (l : Ledger) : Result unit * Ledger :=
  let d := data l in
  let str_path := file_path in
  match files d !! str_path with
  | None => (Return tt, l)
  | Some file_entry =>
      let stats := statistics d in
      let stats1 :=
        if bool_decide (status file_entry = Some (value COMPLETED)) then
          let s1 :=
            set_total_processed (Z.max 0 (total_processed stats - 1)) stats in
          let s2 :=
            match entry_duration file_entry with
            | Some x =>
                if float_truthy (Some x)
                then set_total_duration_seconds
                       (float_max0 (total_duration_seconds s1 - x)%float) s1
                else s1
            | None => s1
            end in
          match entry_size file_entry with
          | Some n =>
              if int_truthy (Some n)
              then set_total_size_bytes
                     (Z.max 0 (total_size_bytes s2 - n)) s2
              else s2
          | None => s2
          end
        else if bool_decide (status file_entry = Some (value FAILED)) then
          set_total_failed (Z.max 0 (total_failed stats - 1)) stats
        else stats in
      save io now
        (mkLedger
           (mkData (version d) (created_at d) (last_updated d) stats1
              (delete str_path (files d)))
           (store l))
  end.

(** [get_statistics]. *)
Definition get_statistics (d : Data) : Statistics := statistics d.

End Operations.

(** [len(v)] is defined. *)
Definition sized (v : json) : bool :=
  match py_len v with
  | Return _ => true
  | Raise _ => false
  end.

(** *** Sample ledgers

    A stand-in for the digest (any function of the content serves), a
    clock, a recording on disk, the ledger of a new database, and a
    ledger that holds one completed entry and has been saved. *)
Definition sample_digest (content : string) : string :=
  ("md5:" ++ content)%string.

Definition sample_clock (n : nat) : string :=
  ("2024-01-01T00:00:0" ++ Py.str_int (Z.of_nat n))%string.

Definition sample_disk : gmap string string :=
  {[ "/vault/talk.wav" := "RIFF" ]}.

Definition new_ledger : Ledger :=
  mkLedger (_initialize_schema sample_clock) None.

Definition sample_entry : Entry :=
  mkEntry (Some "md5:RIFF") (Some "completed")
    (Some "2024-01-01T00:00:00") (Some "2024-01-01T00:00:00")
    (Some (mkOutputs (Some "/vault/talk_文字起こし.md") None))
    (Some (mkMetadata (Some 60%float) (Some 1000)))
    None.

Definition sample_data : Data :=
  mkData SCHEMA_VERSION "2024-01-01T00:00:00" "2024-01-01T00:00:00"
    (mkStatistics 1 0 1000 60%float)
    {[ "/vault/talk.wav" := sample_entry ]}.

Definition saved_ledger : Ledger :=
  mkLedger sample_data (Some (Document (to_json sample_data))).

Definition disk_full : Exn :=
  mkExn Exception_ "[Errno 28] No space left on device".

(** A new database in which the recording first fails with "network
    down" and is then processed with success. *)
Definition after_failure : Ledger :=
  add_failed_file sample_digest sample_disk sample_clock SaveSucceeds
    "/vault/talk.wav" "network down" None new_ledger.

Definition after_success : Ledger :=
  snd (add_processed_file sample_digest sample_disk sample_clock SaveSucceeds
         "/vault/talk.wav" "/vault/talk_文字起こし.md" None None None
         after_failure).

(** A store written under another schema version, with one entry. *)
Definition foreign_document : json :=
  JDict [ ("version", JStr "2.0.0");
          ("created_at", JStr "2024-01-01T00:00:00");
          ("last_updated", JStr "2024-01-01T00:00:00");
          ("statistics", statistics_json (mkStatistics 1 0 1000 60%float));
          ("files", JDict [ ("/vault/talk.wav", entry_json sample_entry) ]) ].

(** *** Queries and maintenance *)

(** [get_processed_info]. *)
Definition get_processed_info (file_path : string) (d : Data) : option Entry :=
  files d !! file_path.

(** The test [status is None or file_data.get("status") == status.value]
    of [get_all_files]. *)
Definition status_matches (status_filter : option ProcessingStatus)
    (file_data : Entry) : bool :=
  match status_filter with
  | None => true
  | Some s => bool_decide (status file_data = Some (value s))
  end.

(** [get_all_files]: the entries that pass the filter, each with its
    path (the key ["path"] of the copy).  The entries come in the
    order of [map_to_list]; the order of insertion, in which Python
    walks the dict, is not kept. *)
Definition get_all_files (status_filter : option ProcessingStatus) (d : Data)
  : list (string * Entry) :=
  List.filter (fun item => status_matches status_filter (snd item))
    (map_to_list (files d)).

(** The two counts of [get_summary] that are taken from the entries:
    [len(files)] and, for each status,
    [sum(1 for f in files.values() if f.get("status") == status.value)]. *)
Definition total_files (d : Data) : nat := length (map_to_list (files d)).

Definition status_count (s : ProcessingStatus) (d : Data) : nat :=
  length (get_all_files (Some s) d).

(** The loop of [cleanup_orphaned_entries] over the paths that
    [list(files.keys())] gave.  [path_exists p] is [Path(p).exists()]
    and [str_path p] is [str(Path(p))], the text under which
    [remove_processed_file(Path(p))] looks the entry up; [io p] is what
    the file system does during the save that follows the removal for
    [p] and [now p] the reading of the clock then.  The count grows
    whether or not an entry was found.  An exception of a save leaves
    the loop. *)
Fixpoint cleanup_loop (path_exists : string -> bool)
    (str_path : string -> string) (now : string -> string)
    (io : string -> SaveIO) (paths : list string) (removed_count : nat)
    (l : Ledger) : Result nat * Ledger :=
  match paths with
  | [] => (Return removed_count, l)
  | file_path :: rest =>
      if negb (path_exists file_path) then
        match
          remove_processed_file (now file_path) (io file_path)
            (str_path file_path) l
        with
        | (Return _, l') =>
            cleanup_loop path_exists str_path now io rest (S removed_count) l'
        | (Raise e, l') => (Raise e, l')
        end
      else cleanup_loop path_exists str_path now io rest removed_count l
  end.

(** [cleanup_orphaned_entries]. *)
Definition cleanup_orphaned_entries (path_exists : string -> bool)
    (str_path : string -> string) (now : string -> string)
    (io : string -> SaveIO) (l : Ledger) : Result nat * Ledger :=
  cleanup_loop path_exists str_path now io
    (map fst (map_to_list (files (data l)))) 0 l.

(** A key is normal when [str(Path(key))] is the key itself, as it is
    for every key the operations insert: they insert [str(file_path)]
    for a [Path]. *)
Definition normal_keys (str_path : string -> string) (d : Data) : Prop :=
  forall file_path, is_Some (files d !! file_path) -> str_path file_path = file_path.

(** *** What the operations keep

    The counters of successes and failures are never negative, and an
    entry is completed or failed. *)
Definition known_status (file_data : Entry) : Prop :=
  status file_data = Some (value COMPLETED)
  \/ status file_data = Some (value FAILED).

Definition well_formed (d : Data) : Prop :=
  0 <= total_processed (statistics d)
  /\ 0 <= total_failed (statistics d)
  /\ forall file_path file_data,
       files d !! file_path = Some file_data -> known_status file_data.

(** The store holds the document in memory. *)
Definition in_sync (l : Ledger) : Prop :=
  store l = Some (Document (to_json (data l))).

(** A ledger loaded from a store whose one key has three slashes in
    front, which [str(Path(key))] reduces to one. *)
Definition unnormalised_ledger : Ledger :=
  mkLedger
    (mkData SCHEMA_VERSION "2024-01-01T00:00:00" "2024-01-01T00:00:00"
       (mkStatistics 1 0 1000 60%float)
       {[ "///vault/talk.wav" := sample_entry ]})
    None.

(** A ledger in which the recording is processed a second time, its
    content having changed in between. *)
Definition changed_disk : gmap string string :=
  {[ "/vault/talk.wav" := "RIFF2" ]}.

Definition after_second_success : Ledger :=
  snd (add_processed_file sample_digest changed_disk sample_clock SaveSucceeds
         "/vault/talk.wav" "/vault/talk_文字起こし.md" None
         (Some 60%float) (Some 1000) saved_ledger).

End Database.

(** ** The remote client (src/api/client.py) *)

Module Client.

(** Constants of src/constants.py used here. *)
Definition TRANSCRIPTION_MODEL : string := "gemini-2.5-flash-lite".
Definition SUMMARY_MODEL : string := "gemini-2.5-flash".

(** The remote service and the formatting of the prompt.
    [files_upload i path] is what the [i]-th attempt of
    [client.files.upload(file=path)] does, its result the uploaded file;
    [models_generate i model prompt file] is what the [i]-th attempt of
    [client.models.generate_content] does, its result [response.text]
    ([None] when the response has no text); [format_1f x] is
    [f"{x:.1f}"]. *)
Record Remote := mkRemote {
  files_upload : nat -> string -> Retry.Outcome string;
  models_generate :
    nat -> string -> string -> option string -> Retry.Outcome (option string);
  format_1f : float -> string
}.

Definition empty_response : Exn :=
  mkExn RetryableError_ "API returned empty response".

(** [GeminiClient.upload_file]: the result and the log of its
    envelope. *)
Definition upload_file (remote : Remote) (file_path : string)
  : Result string * list Retry.Event :=
  Retry.retry_with_backoff (fun attempt => files_upload remote attempt file_path)
    Retry.MAX_RETRIES Retry.DEFAULT_TIMEOUT None.

(** The closure [generate] of [generate_content]: a response without
    text, or with an empty one, becomes a [RetryableError]. *)
Definition generate (remote : Remote) (use_model prompt : string)
    (file : option string) (attempt : nat) : Retry.Outcome string :=
  match models_generate remote attempt use_model prompt file with
  | Retry.Returns (Some text) =>
      if String.eqb text EmptyString then Retry.Raises empty_response
      else Retry.Returns text
  | Retry.Returns None => Retry.Raises empty_response
  | Retry.Raises e => Retry.Raises e
  | Retry.Hangs => Retry.Hangs
  end.

(** [GeminiClient.generate_content]. *)
Definition generate_content (remote : Remote) (prompt : string)
    (file : option string) (model : option string)
  : Result string * list Retry.Event :=
  let use_model :=
    match model with
    | Some m => if String.eqb m EmptyString then SUMMARY_MODEL else m
    | None => SUMMARY_MODEL
    end in
  Retry.retry_with_backoff (generate remote use_model prompt file)
    Retry.MAX_RETRIES Retry.DEFAULT_TIMEOUT None.

(** The prompt of [transcribe_audio]. *)
Definition transcription_prompt (remote : Remote)
    (segment_info : option (float * float)) : string :=
  match segment_info with
  | Some (start, end_) =>
      ("この音声ファイル（元の音声の" ++ format_1f remote start ++ "秒から"
         ++ format_1f remote end_ ++ "秒の部分）を"
         ++ "文字起こししてください。「あー」や「えーと」などの口語的な表現は削除し、内容を保ちつつ読みやすい文章にしてください。")%string
  | None =>
      "この音声ファイルを文字起こししてください。「あー」や「えーと」などの口語的な表現は削除し、内容を保ちつつ読みやすい文章にしてください。"
  end.

(** [GeminiClient.transcribe_audio]: the result, and the log of the
    upload followed by the log of the generation. *)
Definition transcribe_audio (remote : Remote) (audio_path : string)
    (segment_info : option (float * float))
  : Result string * list Retry.Event :=
  match upload_file remote audio_path with
  | (Raise e, upload_log) => (Raise e, upload_log)
  | (Return audio_file, upload_log) =>
      let '(transcription, generate_log) :=
        generate_content remote (transcription_prompt remote segment_info)
          (Some audio_file) (Some TRANSCRIPTION_MODEL) in
      (transcription, upload_log ++ generate_log)
  end.

(** The prompt of [summarize_text]. *)
Definition summary_prompt (text context : string) : string :=
  ("以下の音声文字起こしを読んで、構造化された要約を作成してください。" ++ Py.LF
     ++ Py.LF
     ++ "要約の形式：" ++ Py.LF
     ++ "1. **主要なトピック**: 箇条書き" ++ Py.LF
     ++ "2. **重要なポイント**: 最も重要な情報を箇条書き" ++ Py.LF
     ++ "3. **結論・まとめ**: 完結かつ要点を押さえた文章" ++ Py.LF
     ++ "4. **キーワード**: 重要な用語やコンセプトとそれぞれの説明を箇条書きで" ++ Py.LF
     ++ Py.LF
     ++ (if String.eqb context EmptyString then EmptyString
         else "コンテキスト: " ++ context) ++ Py.LF
     ++ Py.LF
     ++ "文字起こし内容：" ++ Py.LF
     ++ "---" ++ Py.LF
     ++ text ++ Py.LF
     ++ "---" ++ Py.LF
     ++ Py.LF
     ++ "要約は明確で読みやすく、マークダウン形式で作成してください。")%string.

(** [GeminiClient.summarize_text]. *)
Definition summarize_text (remote : Remote) (text context : string)
  : Result string * list Retry.Event :=
  generate_content remote (summary_prompt text context) None
    (Some SUMMARY_MODEL).

(** A response is empty when it has no text or its text is empty. *)
Definition is_empty_response (invocation : Retry.Outcome (option string))
  : Prop :=
  invocation = Retry.Returns None
  \/ invocation = Retry.Returns (Some EmptyString).

(** Sample remotes: one that always answers [503] to an upload and one
    whose generations are always empty. *)
Definition sample_format_1f (x : float) : string :=
  match Py.int_of_float x with
  | Return n => (Py.str_int n ++ ".0")%string
  | Raise _ => "nan"
  end.

Definition silent_remote : Remote :=
  mkRemote (fun _ path => Retry.Returns ("files/" ++ path)%string)
    (fun _ _ _ _ => Retry.Returns (Some EmptyString))
    sample_format_1f.

Definition helpful_remote : Remote :=
  mkRemote (fun _ path => Retry.Returns ("files/" ++ path)%string)
    (fun attempt _ _ _ =>
       if (attempt <? 1)%nat then Retry.Returns None
       else Retry.Returns (Some "こんにちは"))
    sample_format_1f.

Definition offline_remote : Remote :=
  mkRemote (fun _ _ => Retry.Raises Retry.unavailable)
    (fun _ _ _ _ => Retry.Returns (Some "text"))
    sample_format_1f.

End Client.

(** ** The summary of a transcription (src/transcription/service.py) *)

Module Summary.

(** Constant of src/constants.py used here. *)
Definition MAX_TRANSCRIPTION_PREVIEW_LENGTH : nat := Z.to_nat 15000.

(** A byte [10xxxxxx] continues the code point the bytes before it
    began. *)
Definition is_continuation (c : ascii) : bool :=
  let n := nat_of_ascii c in
  ((128 <=? n) && (n <? 192))%nat.

(** [len(s)]: the number of code points of the text. *)
Fixpoint len (s : string) : nat :=
  match s with
  | EmptyString => 0%nat
  | String c s' => if is_continuation c then len s' else S (len s')
  end.

(** [s[:n]]: the first [n] code points. *)
Fixpoint take (n : nat) (s : string) : string :=
  match s with
  | EmptyString => EmptyString
  | String c s' =>
      if is_continuation c then String c (take n s')
      else
        match n with
        | O => EmptyString
        | S n' => String c (take n' s')
        end
  end.

Fixpoint has_slash (s : string) : bool :=
  match s with
  | EmptyString => false
  | String c s' => Ascii.eqb c "/" || has_slash s'
  end.

(** [path.name]: the text after the last slash. *)
Fixpoint name (path : string) : string :=
  match path with
  | EmptyString => EmptyString
  | String c rest =>
      if has_slash rest then name rest
      else if Ascii.eqb c "/" then rest
      else path
  end.

Definition truncation_notice : string :=
  (Py.blank_line ++ "[文字起こしの続きは省略されています...]")%string.

(** The text handed to the summarizer. *)
Definition preview (transcription : string) : string :=
  let preview := take MAX_TRANSCRIPTION_PREVIEW_LENGTH transcription in
  if (MAX_TRANSCRIPTION_PREVIEW_LENGTH <? len transcription)%nat
  then (preview ++ truncation_notice)%string
  else preview.

(** [TranscriptionService.generate_summary], with the log of the
    remote calls; its [except] clause logs and returns [None]. *)
Definition generate_summary (remote : Client.Remote) (transcription : string)
    (audio_path : option string) : option string * list Retry.Event :=
  let context :=
    match audio_path with
    | Some p => ("音声ファイル: " ++ name p)%string
    | None => EmptyString
    end in
  match Client.summarize_text remote (preview transcription) context with
  | (Return summary, log) => (Some summary, log)
  | (Raise _, log) => (None, log)
  end.

(** A text of [n] code points, each the three bytes of [あ]. *)
Fixpoint hiragana (n : nat) : string :=
  match n with
  | O => EmptyString
  | S n' => ("あ" ++ hiragana n')%string
  end.

End Summary.

(** ** The handler (src/obsidian/handler.py) *)

Module Handler.

(** What the handler is built from.  The note generator is a
    collaborator: the text of a note, the writing of a note, and the
    two paths [audio_path.parent / f"{audio_path.stem}_文字起こし.md"]
    and [... / f"{audio_path.stem}_要約.md"].  [generate_summary] is
    [TranscriptionService.generate_summary], [db_io] what the file
    system does when the ledger is saved. *)
Record Deps := mkDeps {
  env : Env;
  md5_hexdigest : string -> string;
  create_summary : bool;
  create_transcription_note : string -> string -> M string;
  create_summary_note : string -> string -> string -> M string;
  save_note : string -> string -> M unit;
  transcription_path : string -> string;
  summary_path : string -> string;
  generate_summary : string -> string -> option string;
  now : nat -> string;
  db_io : Database.SaveIO
}.

(** [audio_path.stat().st_size]. *)
Definition st_size (file_path : string) : M Z :=
  fun w =>
    match fs w !! file_path with
    | Some content => (Return (Z.of_nat (String.length content)), w)
    | None => (Raise (mkExn Exception_ "No such file or directory"), w)
    end.

(** The metadata for the ledger: both values, or neither when either
    read raises. *)
Definition file_metadata (deps : Deps) (audio_path : string)
  : M (option float * option Z) :=
  try_except
    (duration <- lift (get_audio_duration (env deps) audio_path) ;;
     file_size <- st_size audio_path ;;
     ret (Some duration, Some file_size))
    (fun _ => ret (None, None)).

(** The summary note, when summaries are enabled and one was
    generated: the path it was saved at. *)
Definition write_summary (deps : Deps) (audio_path transcription : string)
  : M (option string) :=
  if create_summary deps then
    match generate_summary deps transcription audio_path with
    | Some summary =>
        if String.eqb summary EmptyString then ret None
        else
          summary_content <-
            create_summary_note deps audio_path transcription summary ;;
          save_note deps summary_content (summary_path deps audio_path) ;;;
          ret (Some (summary_path deps audio_path))
    | None => ret None
    end
  else ret None.

(** The steps of [process_audio_file] between the check of the ledger
    and its update: [None] when the transcription is empty, else the
    arguments of [add_processed_file]. *)
Definition prepare (deps : Deps) (audio_path : string)
  : M (option (string * option string * option float * option Z)) :=
  transcription <- Service.transcribe_file (env deps) audio_path true 600 ;;
  if String.eqb transcription EmptyString then ret None
  else
    transcription_content <-
      create_transcription_note deps audio_path transcription ;;
    save_note deps transcription_content (transcription_path deps audio_path) ;;;
    summary <- write_summary deps audio_path transcription ;;
    metadata <- file_metadata deps audio_path ;;
    ret (Some (transcription_path deps audio_path, summary,
               fst metadata, snd metadata)).

(** The [try] block of [process_audio_file]. *)
Definition process_steps (deps : Deps) (audio_path : string) (w : World)
    (l : Database.Ledger) : Result bool * World * Database.Ledger :=
  if Database.is_processed (md5_hexdigest deps) (fs w) audio_path
       (Database.data l)
  then (Return true, w, l)
  else
    match prepare deps audio_path w with
    | (Raise e, w1) => (Raise e, w1, l)
    | (Return None, w1) => (Return false, w1, l)
    | (Return (Some (markdown_path, summary, duration, file_size)), w1) =>
        match
          Database.add_processed_file (md5_hexdigest deps) (fs w1) (now deps)
            (db_io deps) audio_path markdown_path summary duration file_size l
        with
        | (Return _, l') => (Return true, w1, l')
        | (Raise e, l') => (Raise e, w1, l')
        end
    end.

(** [ObsidianTranscriptionHandler.process_audio_file]: any exception
    becomes the answer [False]. *)
Definition process_audio_file (deps : Deps) (audio_path : string) (w : World)
    (l : Database.Ledger) : bool * World * Database.Ledger :=
  match process_steps deps audio_path w l with
  | (Return answer, w', l') => (answer, w', l')
  | (Raise _, w', l') => (false, w', l')
  end.

(** [ObsidianTranscriptionHandler.reprocess_file]; [later] and [io] are
    the clock and the file system during the save of the removal.  An
    exception of that save is not caught. *)
Definition reprocess_file (deps : Deps) (later : string)
    (io : Database.SaveIO) (audio_path : string) (w : World)
    (l : Database.Ledger) : Result bool * World * Database.Ledger :=
  match Database.remove_processed_file later io audio_path l with
  | (Raise e, l1) => (Raise e, w, l1)
  | (Return _, l1) =>
      let '(answer, w', l') := process_audio_file deps audio_path w l1 in
      (Return answer, w', l')
  end.

(** A computation that leaves an absent file absent. *)
Definition keeps_absent {A} (file_path : string) (m : M A) : Prop :=
  forall w, fs w !! file_path = None -> fs (snd (m w)) !! file_path = None.

(** *** Sample collaborators

    Notes that are written next to the recording, no summaries; a
    recording of twenty minutes in which the detector finds no
    speech. *)
Definition sample_deps (e : Env) (io : Database.SaveIO) : Deps :=
  mkDeps e Database.sample_digest false
    (fun _ transcription => ret ("# 文字起こし" ++ Py.LF ++ transcription)%string)
    (fun _ _ summary => ret ("# 要約" ++ Py.LF ++ summary)%string)
    (fun content file_path => write_file file_path content)
    (fun audio_path => (audio_path ++ "_文字起こし.md")%string)
    (fun audio_path => (audio_path ++ "_要約.md")%string)
    (fun _ _ => None)
    Database.sample_clock io.

Definition long_silent_env : Env :=
  mkEnv (fun _ => Return 1200%float) (from_file Service.sample_env)
    (audio_duration_seconds Service.sample_env) (slice Service.sample_env)
    (export_wav Service.sample_env) (load_silero_vad Service.sample_env)
    (read_audio Service.sample_env) (fun _ => Return [])
    (tmp_name Service.sample_env) (transcribe_audio Service.sample_env).

(** A recording that no library can decode. *)
Definition undecodable : Exn := mkExn Exception_ "Format not recognised".

Definition undecodable_env : Env :=
  mkEnv (fun _ => Raise undecodable) (fun _ => Raise undecodable)
    (audio_duration_seconds Service.sample_env) (slice Service.sample_env)
    (export_wav Service.sample_env) (load_silero_vad Service.sample_env)
    (read_audio Service.sample_env) (get_speech_timestamps Service.sample_env)
    (tmp_name Service.sample_env) (transcribe_audio Service.sample_env).

End Handler.

(** * Properties *)

(** ** Binary64: the order of the values and the rounding of a difference *)

(** *** The number of binary digits *)
Lemma digits2_bounds (m : positive) :
  2 ^ (Z.pos (digits2_pos m) - 1) <= Z.pos m < 2 ^ Z.pos (digits2_pos m).
Proof.
  induction m as [m IH|m IH|]; cbn [digits2_pos].
  - rewrite Pos2Z.inj_succ.
    replace (Z.succ (Z.pos (digits2_pos m)) - 1)
      with (Z.succ (Z.pos (digits2_pos m) - 1)) by lia.
    rewrite !Z.pow_succ_r by lia. lia.
  - rewrite Pos2Z.inj_succ.
    replace (Z.succ (Z.pos (digits2_pos m)) - 1)
      with (Z.succ (Z.pos (digits2_pos m) - 1)) by lia.
    rewrite !Z.pow_succ_r by lia. lia.
  - cbn. lia.
Qed.

Lemma Zdigits2_bounds (V : Z) :
  0 < V -> 2 ^ (Zdigits2 V - 1) <= V < 2 ^ Zdigits2 V.
Proof.
  destruct V as [|p|p]; try lia. intros _. apply digits2_bounds.
Qed.

Lemma Zdigits2_pos (V : Z) : 0 < V -> 0 < Zdigits2 V.
Proof. destruct V; cbn; lia. Qed.

(** The number of digits is fixed by the two powers of two around
    the number. *)
Lemma Zdigits2_unique (V d : Z) :
  0 < V -> 2 ^ (d - 1) <= V < 2 ^ d -> Zdigits2 V = d.
Proof.
  intros HV [Hlo Hhi].
  pose proof (Zdigits2_bounds V HV) as [Hlo' Hhi'].
  pose proof (Zdigits2_pos V HV) as Hd.
  assert (0 < d).
  { destruct (Z.ltb_spec 0 d) as [|Hle]; [assumption|]. exfalso.
    destruct (Z.eq_dec d 0) as [->|Hne]; [cbn in Hhi; lia|].
    rewrite (Z.pow_neg_r 2 d) in Hhi by lia. lia. }
  destruct (Z.lt_trichotomy (Zdigits2 V) d) as [Hlt|[Heq|Hgt]]; [|assumption|].
  - exfalso. assert (2 ^ Zdigits2 V <= 2 ^ (d - 1)) by (apply Z.pow_le_mono_r; lia). lia.
  - exfalso. assert (2 ^ d <= 2 ^ (Zdigits2 V - 1)) by (apply Z.pow_le_mono_r; lia). lia.
Qed.

(** *** Rounding to nearest, ties to even *)
Lemma rne_0 (V : Z) : FloatOrder.rne V 0 = V.
Proof.
  unfold FloatOrder.rne. cbn [Z.pow]. change (2 ^ 0) with 1.
  rewrite Z.div_1_r, Z.mod_1_r. reflexivity.
Qed.

Lemma rne_exact (k n : Z) : 0 <= n -> FloatOrder.rne (k * 2 ^ n) n = k.
Proof.
  intros Hn. unfold FloatOrder.rne.
  assert (0 < 2 ^ n) by (apply Z.pow_pos_nonneg; lia).
  rewrite Z.div_mul by lia. rewrite Z.mod_mul by lia.
  destruct (Z.compare_spec (2 * 0) (2 ^ n)); lia.
Qed.

Lemma rne_scale (m j k : Z) :
  0 <= j -> 0 <= k -> FloatOrder.rne (m * 2 ^ k) (j + k) = FloatOrder.rne m j.
Proof.
  intros Hj Hk. unfold FloatOrder.rne.
  assert (Hpj : 0 < 2 ^ j) by (apply Z.pow_pos_nonneg; lia).
  assert (Hpk : 0 < 2 ^ k) by (apply Z.pow_pos_nonneg; lia).
  rewrite Z.pow_add_r by lia.
  rewrite Z.div_mul_cancel_r by lia.
  rewrite Z.mul_mod_distr_r by lia.
  replace (2 * (m mod 2 ^ j * 2 ^ k)) with ((2 * (m mod 2 ^ j)) * 2 ^ k) by ring.
  assert (Hcmp : ((2 * (m mod 2 ^ j)) * 2 ^ k ?= 2 ^ j * 2 ^ k)
                 = (2 * (m mod 2 ^ j) ?= 2 ^ j)).
  { destruct (Z.compare_spec (2 * (m mod 2 ^ j)) (2 ^ j)) as [Heq|Hlt|Hgt].
    - rewrite Heq. apply Z.compare_refl.
    - apply Z.compare_lt_iff. apply Z.mul_lt_mono_pos_r; lia.
    - apply Z.compare_gt_iff. apply Z.mul_lt_mono_pos_r; lia. }
  rewrite Hcmp. reflexivity.
Qed.

Lemma rne_between (V n : Z) :
  0 <= n -> V / 2 ^ n <= FloatOrder.rne V n <= V / 2 ^ n + 1.
Proof.
  intros Hn. unfold FloatOrder.rne.
  destruct (2 * (V mod 2 ^ n) ?= 2 ^ n); [destruct (Z.even _)| |]; lia.
Qed.

Lemma rne_mono (V1 V2 n : Z) :
  0 <= n -> V1 <= V2 -> FloatOrder.rne V1 n <= FloatOrder.rne V2 n.
Proof.
  intros Hn Hle.
  assert (Hp : 0 < 2 ^ n) by (apply Z.pow_pos_nonneg; lia).
  pose proof (Z.div_le_mono V1 V2 (2 ^ n) Hp Hle) as Hq.
  destruct (Z.eq_dec (V1 / 2 ^ n) (V2 / 2 ^ n)) as [Heq|Hne].
  - unfold FloatOrder.rne. rewrite <- Heq.
    pose proof (Z.div_mod V1 (2 ^ n) ltac:(lia)) as H1.
    pose proof (Z.div_mod V2 (2 ^ n) ltac:(lia)) as H2.
    assert (Hr : V1 mod 2 ^ n <= V2 mod 2 ^ n) by lia.
    destruct (Z.compare_spec (2 * (V1 mod 2 ^ n)) (2 ^ n));
      destruct (Z.compare_spec (2 * (V2 mod 2 ^ n)) (2 ^ n));
      try destruct (Z.even (V1 / 2 ^ n)); lia.
  - pose proof (rne_between V1 n Hn). pose proof (rne_between V2 n Hn). lia.
Qed.

Lemma rne_normal (V d : Z) :
  53 <= d -> 2 ^ (d - 1) <= V < 2 ^ d ->
  2 ^ 52 <= FloatOrder.rne V (d - 53) <= 2 ^ 53.
Proof.
  intros Hd [Hlo Hhi].
  assert (Hp : 0 < 2 ^ (d - 53)) by (apply Z.pow_pos_nonneg; lia).
  pose proof (rne_between V (d - 53) ltac:(lia)) as Hb.
  assert (Hq1 : 2 ^ 52 <= V / 2 ^ (d - 53)).
  { apply Z.div_le_lower_bound; [lia|].
    replace (d - 1) with ((d - 53) + 52) in Hlo by lia.
    rewrite Z.pow_add_r in Hlo by lia. lia. }
  assert (Hq2 : V / 2 ^ (d - 53) < 2 ^ 53).
  { apply Z.div_lt_upper_bound; [lia|].
    replace d with ((d - 53) + 53) in Hhi at 1 by lia.
    rewrite Z.pow_add_r in Hhi by lia. lia. }
  lia.
Qed.

(** *** The rounding of a value is monotone *)

Lemma round_units_scaled (V : Z) :
  FloatOrder.round_units V
  = if FloatOrder.overflow_bound <=? FloatOrder.scaled V
    then FloatOrder.far else FloatOrder.scaled V.
Proof. reflexivity. Qed.

Lemma Zdigits2_mono (V1 V2 : Z) :
  0 < V1 -> V1 <= V2 -> Zdigits2 V1 <= Zdigits2 V2.
Proof.
  intros H1 Hle.
  pose proof (Zdigits2_bounds V1 H1) as [Hlo1 Hhi1].
  pose proof (Zdigits2_bounds V2 ltac:(lia)) as [Hlo2 Hhi2].
  destruct (Z.le_gt_cases (Zdigits2 V1) (Zdigits2 V2)) as [|Hgt]; [assumption|].
  exfalso.
  assert (2 ^ Zdigits2 V2 <= 2 ^ (Zdigits2 V1 - 1)) by (apply Z.pow_le_mono_r; lia).
  lia.
Qed.

Lemma scaled_upper (V : Z) :
  0 < V -> FloatOrder.scaled V <= 2 ^ 53 * 2 ^ Z.max (Zdigits2 V - 53) 0.
Proof.
  intros HV. unfold FloatOrder.scaled.
  pose proof (Zdigits2_bounds V HV) as [Hlo Hhi].
  assert (Hp : 0 < 2 ^ Z.max (Zdigits2 V - 53) 0) by (apply Z.pow_pos_nonneg; lia).
  apply Z.mul_le_mono_nonneg_r; [lia|].
  destruct (Z.max_spec (Zdigits2 V - 53) 0) as [[Hc ->]|[Hc ->]].
  - rewrite rne_0.
    assert (2 ^ Zdigits2 V <= 2 ^ 53) by (apply Z.pow_le_mono_r; lia). lia.
  - apply rne_normal; [lia|]. split; assumption.
Qed.

Lemma scaled_lower (V : Z) :
  0 < V -> 53 <= Zdigits2 V ->
  2 ^ 52 * 2 ^ (Zdigits2 V - 53) <= FloatOrder.scaled V.
Proof.
  intros HV Hd. unfold FloatOrder.scaled.
  pose proof (Zdigits2_bounds V HV) as [Hlo Hhi].
  rewrite Z.max_l by lia.
  assert (Hp : 0 < 2 ^ (Zdigits2 V - 53)) by (apply Z.pow_pos_nonneg; lia).
  apply Z.mul_le_mono_nonneg_r; [lia|].
  apply rne_normal; [lia|]. split; assumption.
Qed.

Lemma scaled_mono (V1 V2 : Z) :
  0 < V1 -> V1 <= V2 -> FloatOrder.scaled V1 <= FloatOrder.scaled V2.
Proof.
  intros H1 Hle.
  pose proof (Zdigits2_mono V1 V2 H1 Hle) as Hd.
  destruct (Z.eq_dec (Z.max (Zdigits2 V1 - 53) 0) (Z.max (Zdigits2 V2 - 53) 0))
    as [Heq|Hne].
  - unfold FloatOrder.scaled. rewrite Heq.
    apply Z.mul_le_mono_nonneg_r; [apply Z.pow_nonneg; lia|].
    apply rne_mono; lia.
  - assert (Hn : Z.max (Zdigits2 V1 - 53) 0 < Zdigits2 V2 - 53) by lia.
    pose proof (scaled_upper V1 H1) as Hup.
    pose proof (scaled_lower V2 ltac:(lia) ltac:(lia)) as Hlow.
    assert (Hpow : 2 ^ (Z.max (Zdigits2 V1 - 53) 0 + 1) <= 2 ^ (Zdigits2 V2 - 53))
      by (apply Z.pow_le_mono_r; lia).
    rewrite Z.pow_add_r in Hpow by lia.
    change (2 ^ 1) with 2 in Hpow.
    assert (Hp : 0 < 2 ^ Z.max (Zdigits2 V1 - 53) 0) by (apply Z.pow_pos_nonneg; lia).
    change (2 ^ 53) with (2 * 2 ^ 52) in Hup.
    assert (H52 : 0 < 2 ^ 52) by (apply Z.pow_pos_nonneg; lia).
    nia.
Qed.

Lemma scaled_nonneg (V : Z) : 0 <= V -> 0 <= FloatOrder.scaled V.
Proof.
  intros HV. unfold FloatOrder.scaled.
  apply Z.mul_nonneg_nonneg; [|apply Z.pow_nonneg; lia].
  pose proof (rne_between V (Z.max (Zdigits2 V - 53) 0) ltac:(lia)).
  assert (0 <= V / 2 ^ Z.max (Zdigits2 V - 53) 0)
    by (apply Z.div_pos; [lia | apply Z.pow_pos_nonneg; lia]).
  lia.
Qed.

Lemma bound_lt_far : FloatOrder.overflow_bound < FloatOrder.far.
Proof. unfold FloatOrder.overflow_bound, FloatOrder.far. apply Z.pow_lt_mono_r; lia. Qed.

Lemma far_pos : 0 < FloatOrder.far.
Proof. unfold FloatOrder.far. apply Z.pow_pos_nonneg; lia. Qed.

Lemma round_units_0 : FloatOrder.round_units 0 = 0.
Proof.
  rewrite round_units_scaled. unfold FloatOrder.scaled. cbn [Zdigits2].
  change (Z.max (0 - 53) 0) with 0. rewrite rne_0. change (0 * 2 ^ 0) with 0.
  destruct (Z.leb_spec FloatOrder.overflow_bound 0) as [H|H]; [|reflexivity].
  unfold FloatOrder.overflow_bound in H.
  assert (0 < 2 ^ 2098) by (apply Z.pow_pos_nonneg; lia). lia.
Qed.

Lemma round_units_nonneg (V : Z) : 0 <= V -> 0 <= FloatOrder.round_units V.
Proof.
  intros HV. rewrite round_units_scaled.
  pose proof (scaled_nonneg V HV). pose proof far_pos.
  destruct (Z.leb_spec FloatOrder.overflow_bound (FloatOrder.scaled V)); lia.
Qed.

Lemma round_units_mono (V1 V2 : Z) :
  0 <= V1 -> V1 <= V2 -> FloatOrder.round_units V1 <= FloatOrder.round_units V2.
Proof.
  intros H1 Hle.
  destruct (Z.eq_dec V1 0) as [->|Hne].
  - rewrite round_units_0. apply round_units_nonneg. lia.
  - rewrite !round_units_scaled.
    pose proof (scaled_mono V1 V2 ltac:(lia) Hle). pose proof bound_lt_far.
    destruct (Z.leb_spec FloatOrder.overflow_bound (FloatOrder.scaled V1));
      destruct (Z.leb_spec FloatOrder.overflow_bound (FloatOrder.scaled V2)); lia.
Qed.

(** Rounding to the format keeps the order of the values. *)
Lemma round_signed_mono (V1 V2 : Z) :
  V1 <= V2 -> FloatOrder.round_signed V1 <= FloatOrder.round_signed V2.
Proof.
  intros Hle. unfold FloatOrder.round_signed.
  destruct (Z.ltb_spec V1 0) as [Hn1|Hp1]; destruct (Z.ltb_spec V2 0) as [Hn2|Hp2].
  - pose proof (round_units_mono (- V2) (- V1) ltac:(lia) ltac:(lia)). lia.
  - pose proof (round_units_nonneg (- V1) ltac:(lia)).
    pose proof (round_units_nonneg V2 ltac:(lia)). lia.
  - lia.
  - apply round_units_mono; lia.
Qed.

(** *** The shift to the right of the specification *)
Lemma iter_pos_nat {A} (f : A -> A) (p : positive) :
  forall x, SpecFloat.iter_pos f p x = Nat.iter (Pos.to_nat p) f x.
Proof.
  induction p as [p IH|p IH|]; intros x; cbn [SpecFloat.iter_pos].
  - rewrite !IH. rewrite Pos2Nat.inj_xI.
    change (S (2 * Pos.to_nat p)) with (S (Pos.to_nat p + (Pos.to_nat p + 0)))%nat.
    rewrite Nat.add_0_r. rewrite Nat.iter_succ_r, Nat.iter_add. reflexivity.
  - rewrite !IH. rewrite Pos2Nat.inj_xO.
    change (2 * Pos.to_nat p)%nat with (Pos.to_nat p + (Pos.to_nat p + 0))%nat.
    rewrite Nat.add_0_r. rewrite Nat.iter_add. reflexivity.
  - reflexivity.
Qed.

Lemma shr_1_spec (m : Z) (r s : bool) :
  0 <= m ->
  shr_1 (Build_shr_record m r s)
  = Build_shr_record (m / 2) (Z.odd m) (r || s).
Proof.
  intros Hm. rewrite <- Z.div2_div.
  destruct m as [|[p|p|]|p]; try reflexivity. lia.
Qed.


Lemma shr_iter (m : Z) (N : nat) :
  0 <= m ->
  Nat.iter N shr_1 (Build_shr_record m false false)
  = Build_shr_record (m / 2 ^ Z.of_nat N) (FloatOrder.round_bit m (Z.of_nat N))
      (FloatOrder.sticky_bit m (Z.of_nat N)).
Proof.
  intros Hm. induction N as [|N IH].
  - change (Nat.iter 0 shr_1 ?x) with x. unfold FloatOrder.round_bit, FloatOrder.sticky_bit.
    change (2 ^ Z.of_nat 0) with 1. rewrite Z.div_1_r, Z.mod_1_r. reflexivity.
  - rewrite Nat.iter_succ, IH.
    assert (Hp : 0 < 2 ^ Z.of_nat N) by (apply Z.pow_pos_nonneg; lia).
    rewrite shr_1_spec by (apply Z.div_pos; lia).
    rewrite Nat2Z.inj_succ, Z.pow_succ_r by lia.
    assert (Hmod : m mod (2 * 2 ^ Z.of_nat N)
                   = m mod 2 ^ Z.of_nat N
                     + 2 ^ Z.of_nat N * ((m / 2 ^ Z.of_nat N) mod 2)).
    { rewrite (Z.mul_comm 2). apply Z.rem_mul_r; lia. }
    pose proof (Z.mod_pos_bound m (2 ^ Z.of_nat N) Hp) as Hrem.
    pose proof (Zmod_odd (m / 2 ^ Z.of_nat N)) as Hodd.
    f_equal.
    + rewrite Z.div_div by lia. f_equal. lia.
    + unfold FloatOrder.round_bit. rewrite Z.pow_succ_r by lia. rewrite Hmod, Hodd.
      destruct (Z.odd (m / 2 ^ Z.of_nat N));
        [apply eq_sym, Z.leb_le | apply eq_sym, Z.leb_gt]; lia.
    + unfold FloatOrder.round_bit, FloatOrder.sticky_bit. rewrite Z.pow_succ_r by lia.
      rewrite Hmod, Hodd.
      destruct (Z.odd (m / 2 ^ Z.of_nat N));
        destruct (Z.leb_spec (2 ^ Z.of_nat N) (2 * (m mod 2 ^ Z.of_nat N)));
        destruct (Z.eqb_spec (m mod 2 ^ Z.of_nat N) 0);
        destruct (Z.eqb_spec (2 * (m mod 2 ^ Z.of_nat N)) (2 ^ Z.of_nat N));
        cbn [orb negb];
        repeat match goal with
               | |- context [Z.eqb ?a ?b] => destruct (Z.eqb_spec a b)
               end; cbn [orb negb]; try reflexivity; lia.
Qed.

Lemma round_of_record (m N : Z) :
  0 <= m -> 0 <= N ->
  round_nearest_even (m / 2 ^ N)
    (loc_of_shr_record
       (Build_shr_record (m / 2 ^ N) (FloatOrder.round_bit m N) (FloatOrder.sticky_bit m N)))
  = FloatOrder.rne m N.
Proof.
  intros Hm HN. unfold FloatOrder.rne, FloatOrder.round_bit, FloatOrder.sticky_bit.
  assert (Hp : 0 < 2 ^ N) by (apply Z.pow_pos_nonneg; lia).
  pose proof (Z.mod_pos_bound m (2 ^ N) Hp) as Hrem.
  destruct (Z.compare_spec (2 * (m mod 2 ^ N)) (2 ^ N)) as [Heq|Hlt|Hgt];
    destruct (Z.leb_spec (2 ^ N) (2 * (m mod 2 ^ N)));
    destruct (Z.eqb_spec (m mod 2 ^ N) 0);
    destruct (Z.eqb_spec (2 * (m mod 2 ^ N)) (2 ^ N));
    cbn [orb negb loc_of_shr_record round_nearest_even]; try reflexivity; lia.
Qed.

(** [shr] on an exact record: the shift that is made, and the rounding
    of what is left. *)
Lemma shr_round (m e n : Z) :
  0 <= m ->
  snd (shr (Build_shr_record m false false) e n) = e + Z.max n 0
  /\ shr_m (fst (shr (Build_shr_record m false false) e n))
     = m / 2 ^ Z.max n 0
  /\ round_nearest_even
       (shr_m (fst (shr (Build_shr_record m false false) e n)))
       (loc_of_shr_record (fst (shr (Build_shr_record m false false) e n)))
     = FloatOrder.rne m (Z.max n 0).
Proof.
  intros Hm. destruct n as [|p|p]; cbn [shr fst snd].
  - change (Z.max 0 0) with 0. rewrite rne_0.
    change (2 ^ 0) with 1. rewrite Z.div_1_r, Z.add_0_r. cbn. auto.
  - rewrite Z.max_l by lia. rewrite iter_pos_nat, shr_iter by assumption.
    rewrite positive_nat_Z. cbn [shr_m]. split; [reflexivity|]. split; [reflexivity|].
    apply round_of_record; lia.
  - rewrite Z.max_r by lia. rewrite rne_0.
    change (2 ^ 0) with 1. rewrite Z.div_1_r, Z.add_0_r. cbn. auto.
Qed.

(** *** The rounding of the specification *)
Lemma fexp_eq (x : Z) : fexp prec emax x = Z.max (x - 53) FloatOrder.emin.
Proof. reflexivity. Qed.

Lemma rne_nonneg (V n : Z) : 0 <= V -> 0 <= n -> 0 <= FloatOrder.rne V n.
Proof.
  intros HV Hn. pose proof (rne_between V n Hn).
  assert (0 <= V / 2 ^ n) by (apply Z.div_pos; [lia | apply Z.pow_pos_nonneg; lia]).
  lia.
Qed.

Lemma aux_spec (s : bool) (mx ex : Z) :
  0 < mx ->
  binary_round_aux prec emax s mx ex loc_Exact
  = (let n1 := Z.max (fexp prec emax (Zdigits2 mx + ex) - ex) 0 in
     let q := FloatOrder.rne mx n1 in
     let e' := ex + n1 in
     let n2 := Z.max (fexp prec emax (Zdigits2 q + e') - e') 0 in
     match q / 2 ^ n2 with
     | Z0 => S754_zero s
     | Zpos m =>
         if e' + n2 <=? emax - prec then S754_finite s m (e' + n2)
         else S754_infinity s
     | Zneg _ => S754_nan
     end).
Proof.
  intros Hmx. unfold binary_round_aux, shr_fexp.
  cbn [shr_record_of_loc].
  destruct (shr_round mx ex (fexp prec emax (Zdigits2 mx + ex) - ex) ltac:(lia))
    as (He1 & _ & Hq).
  destruct (shr {| shr_m := mx; shr_r := false; shr_s := false |} ex
              (fexp prec emax (Zdigits2 mx + ex) - ex)) as [mrs' e'].
  cbn [fst snd] in He1, Hq. rewrite Hq, He1.
  set (n1 := Z.max (fexp prec emax (Zdigits2 mx + ex) - ex) 0).
  set (q := FloatOrder.rne mx n1).
  assert (Hq0 : 0 <= q) by (apply rne_nonneg; lia).
  destruct (shr_round q (ex + n1)
              (fexp prec emax (Zdigits2 q + (ex + n1)) - (ex + n1)) Hq0)
    as (He2 & Hm2 & _).
  destruct (shr {| shr_m := q; shr_r := false; shr_s := false |} (ex + n1)
              (fexp prec emax (Zdigits2 q + (ex + n1)) - (ex + n1)))
    as [mrs'' e''].
  cbn [fst snd] in He2, Hm2. rewrite Hm2, He2. reflexivity.
Qed.


Lemma pow2_pos (k : Z) : 0 <= k -> 0 < 2 ^ k.
Proof. intros. apply Z.pow_pos_nonneg; lia. Qed.

Lemma Zdigits2_scale (M k : Z) :
  0 < M -> 0 <= k -> Zdigits2 (M * 2 ^ k) = Zdigits2 M + k.
Proof.
  intros HM Hk. pose proof (Zdigits2_bounds M HM) as [Hlo Hhi].
  pose proof (Zdigits2_pos M HM) as Hd. pose proof (pow2_pos k Hk) as Hp.
  apply Zdigits2_unique; [nia|].
  replace (Zdigits2 M + k - 1) with ((Zdigits2 M - 1) + k) by lia.
  rewrite !Z.pow_add_r by lia. nia.
Qed.

Lemma aux_units (s : bool) (Mz ez V : Z) :
  0 < Mz -> FloatOrder.emin <= ez ->
  ez <= fexp prec emax (Zdigits2 Mz + ez) ->
  V = Mz * 2 ^ (ez - FloatOrder.emin) ->
  FloatOrder.signed_result s (binary_round_aux prec emax s Mz ez loc_Exact)
  /\ FloatOrder.units (binary_round_aux prec emax s Mz ez loc_Exact)
     = cond_Zopp s (FloatOrder.round_units V).
Proof.
  intros HM Hez Ht HV. rewrite aux_spec by assumption. cbv zeta.
  rewrite !fexp_eq in *.
  set (d := Zdigits2 Mz) in *.
  set (t := Z.max (d + ez - 53) FloatOrder.emin) in *.
  rewrite (Z.max_l (t - ez) 0) by lia.
  replace (ez + (t - ez)) with t by lia.
  pose proof (Zdigits2_bounds Mz HM) as [Hlo Hhi]. fold d in Hlo, Hhi.
  pose proof (Zdigits2_pos Mz HM) as Hd. fold d in Hd.
  pose proof (pow2_pos (ez - FloatOrder.emin) ltac:(lia)) as Hpe.
  assert (HVpos : 0 < V) by nia.
  assert (HdV : Zdigits2 V = d + (ez - FloatOrder.emin))
    by (subst V; apply Zdigits2_scale; lia).
  assert (HnV : Z.max (Zdigits2 V - 53) 0 = t - FloatOrder.emin).
  { rewrite HdV. unfold t. lia. }
  assert (Hscaled : FloatOrder.scaled V = FloatOrder.rne Mz (t - ez) * 2 ^ (t - FloatOrder.emin)).
  { unfold FloatOrder.scaled. rewrite HnV. f_equal. subst V.
    replace (t - FloatOrder.emin) with ((t - ez) + (ez - FloatOrder.emin)) by lia.
    apply rne_scale; lia. }
  rewrite round_units_scaled, Hscaled.
  set (q := FloatOrder.rne Mz (t - ez)) in *.
  pose proof (pow2_pos (t - FloatOrder.emin) ltac:(lia)) as Hpt.
  destruct (Z.eq_dec t FloatOrder.emin) as [Htmin|Htmin].
  - (* the lowest binade: nothing is shifted out *)
    assert (Hezmin : ez = FloatOrder.emin) by lia.
    assert (Hq : q = Mz).
    { unfold q. replace (t - ez) with 0 by lia. apply rne_0. }
    assert (Hd53 : d <= 53) by (unfold t in Htmin; lia).
    rewrite Hq. fold d.
    rewrite (Z.max_r _ 0) by (rewrite Htmin; lia).
    change (2 ^ 0) with 1. rewrite Z.div_1_r, Z.add_0_r.
    destruct Mz as [|mz|mz]; try lia.
    rewrite Htmin. change (FloatOrder.emin <=? emax - prec) with true. cbn iota.
    split; [right; eauto|].
    cbn [FloatOrder.units]. replace (FloatOrder.emin - FloatOrder.emin) with 0 by lia.
    change (2 ^ 0) with 1. rewrite !Z.mul_1_r.
    assert (Hsmall : Z.pos mz < FloatOrder.overflow_bound).
    { assert (2 ^ d <= 2 ^ 53) by (apply Z.pow_le_mono_r; lia).
      assert (2 ^ 53 < FloatOrder.overflow_bound)
        by (unfold FloatOrder.overflow_bound; apply Z.pow_lt_mono_r; lia).
      lia. }
    destruct (Z.leb_spec FloatOrder.overflow_bound (Z.pos mz)); [lia|reflexivity].
  - (* a normal binade *)
    assert (Htd : t = d + ez - 53) by (unfold t in *; lia).
    assert (Hn1 : t - ez = d - 53) by lia.
    assert (Hqb : 2 ^ 52 <= q <= 2 ^ 53).
    { unfold q. rewrite Hn1. apply rne_normal; [lia|]. split; assumption. }
    assert (H52 : 0 < 2 ^ 52) by (apply pow2_pos; lia).
    destruct (Z.eq_dec q (2 ^ 53)) as [Hq53|Hq53].
    + (* the mantissa was rounded up to the next power of two *)
      assert (Hdq : Zdigits2 q = 54).
      { apply Zdigits2_unique; [lia|]. rewrite Hq53.
        change (54 - 1) with 53. split; [lia|].
        apply Z.pow_lt_mono_r; lia. }
      rewrite Hdq. rewrite (Z.max_l _ 0) by lia.
      replace (Z.max (54 + t - 53) FloatOrder.emin - t) with 1 by lia.
      rewrite Hq53. change (2 ^ 53 / 2 ^ 1) with (2 ^ 52).
      change (emax - prec) with 971.
      assert (Hs : 2 ^ 53 * 2 ^ (t - FloatOrder.emin) = 2 ^ 52 * 2 ^ (t + 1 - FloatOrder.emin)).
      { replace (t + 1 - FloatOrder.emin) with ((t - FloatOrder.emin) + 1) by lia.
        rewrite Z.pow_add_r by lia. change (2 ^ 53) with (2 ^ 52 * 2 ^ 1). ring. }
      clear Hqb Hq53.
      destruct (2 ^ 52) as [|m52|m52] eqn:H52v; try lia.
      destruct (Z.leb_spec (t + 1) 971) as [Hfit|Hover].
      * split; [right; eauto|]. cbn [FloatOrder.units].
        rewrite <- Hs.
        assert (2 ^ 53 * 2 ^ (t - FloatOrder.emin) < FloatOrder.overflow_bound).
        { unfold FloatOrder.overflow_bound. rewrite <- Z.pow_add_r by lia.
          apply Z.pow_lt_mono_r; unfold FloatOrder.emin; lia. }
        destruct (Z.leb_spec FloatOrder.overflow_bound (2 ^ 53 * 2 ^ (t - FloatOrder.emin)));
          [lia|reflexivity].
      * split; [left; reflexivity|]. cbn [FloatOrder.units].
        assert (FloatOrder.overflow_bound <= 2 ^ 53 * 2 ^ (t - FloatOrder.emin)).
        { unfold FloatOrder.overflow_bound. rewrite <- Z.pow_add_r by lia.
          apply Z.pow_le_mono_r; unfold FloatOrder.emin; lia. }
        destruct (Z.leb_spec FloatOrder.overflow_bound (2 ^ 53 * 2 ^ (t - FloatOrder.emin)));
          [reflexivity|lia].
    + assert (Hdq : Zdigits2 q = 53).
      { apply Zdigits2_unique; [lia|]. change (53 - 1) with 52. lia. }
      rewrite Hdq. rewrite (Z.max_r _ 0) by lia.
      change (2 ^ 0) with 1. rewrite Z.div_1_r, Z.add_0_r.
      destruct q as [|mq|mq] eqn:Hqv; try lia.
      change (emax - prec) with 971.
      destruct (Z.leb_spec t 971) as [Hfit|Hover].
      * split; [right; eauto|]. cbn [FloatOrder.units].
        assert (Z.pos mq * 2 ^ (t - FloatOrder.emin) < FloatOrder.overflow_bound).
        { unfold FloatOrder.overflow_bound.
          assert (2 ^ 53 * 2 ^ (t - FloatOrder.emin) <= 2 ^ 2098).
          { rewrite <- Z.pow_add_r by lia. apply Z.pow_le_mono_r; unfold FloatOrder.emin; lia. }
          nia. }
        destruct (Z.leb_spec FloatOrder.overflow_bound (Z.pos mq * 2 ^ (t - FloatOrder.emin)));
          [lia|reflexivity].
      * split; [left; reflexivity|]. cbn [FloatOrder.units].
        assert (FloatOrder.overflow_bound <= Z.pos mq * 2 ^ (t - FloatOrder.emin)).
        { unfold FloatOrder.overflow_bound.
          assert (2 ^ 2098 <= 2 ^ 52 * 2 ^ (t - FloatOrder.emin)).
          { rewrite <- Z.pow_add_r by lia. apply Z.pow_le_mono_r; unfold FloatOrder.emin; lia. }
          nia. }
        destruct (Z.leb_spec FloatOrder.overflow_bound (Z.pos mq * 2 ^ (t - FloatOrder.emin)));
          [reflexivity|lia].
Qed.

Lemma pos_iter_xO (m d : positive) :
  Z.pos (Pos.iter xO m d) = Z.pos m * 2 ^ Z.pos d.
Proof.
  induction d as [|d IH] using Pos.peano_ind.
  - cbn [Pos.iter]. change (2 ^ 1) with 2. lia.
  - rewrite Pos.iter_succ, Pos2Z.inj_succ, Z.pow_succ_r by lia.
    rewrite Pos2Z.inj_xO, IH. ring.
Qed.

(** The rounding of the specification yields the value [round_units]
    gives, with the sign it was given. *)
Lemma binary_round_units (s : bool) (m : positive) (e : Z) :
  FloatOrder.emin <= e ->
  FloatOrder.signed_result s (binary_round prec emax s m e)
  /\ FloatOrder.units (binary_round prec emax s m e)
     = cond_Zopp s (FloatOrder.round_units (Z.pos m * 2 ^ (e - FloatOrder.emin))).
Proof.
  intros He. unfold binary_round, shl_align. rewrite fexp_eq.
  pose proof (Zdigits2_pos (Z.pos m) ltac:(lia)) as Hd. cbn [Zdigits2] in Hd.
  set (t := Z.max (Z.pos (digits2_pos m) + e - 53) FloatOrder.emin).
  destruct (t - e) as [|k|k] eqn:Hk.
  - apply aux_units; [lia | lia | | reflexivity].
    rewrite fexp_eq. cbn [Zdigits2]. fold t. lia.
  - apply aux_units; [lia | lia | | reflexivity].
    rewrite fexp_eq. cbn [Zdigits2]. fold t. lia.
  - assert (Hshift : e - t = Z.pos k) by lia.
    apply aux_units; [lia | unfold t; lia | | ].
    + rewrite fexp_eq, pos_iter_xO, <- Hshift.
      rewrite Zdigits2_scale by lia. cbn [Zdigits2].
      replace (Z.pos (digits2_pos m) + (e - t) + t - 53)
        with (Z.pos (digits2_pos m) + e - 53) by lia.
      fold t. lia.
    + rewrite pos_iter_xO, <- Hshift, <- Z.mul_assoc, <- Z.pow_add_r
        by (unfold t; lia).
      do 2 f_equal. lia.
Qed.

(** *** Values of the format and their order *)
Lemma bounded_spec (m : positive) (e : Z) :
  bounded prec emax m e = true ->
  FloatOrder.emin <= e <= 971
  /\ e - FloatOrder.emin = Z.max (Z.pos (digits2_pos m) + (e - FloatOrder.emin) - 53) 0.
Proof.
  unfold bounded, canonical_mantissa. rewrite fexp_eq.
  intros H. apply andb_true_iff in H as [Hc Hb].
  apply Z.eqb_eq in Hc. apply Z.leb_le in Hb.
  change (emax - prec) with 971 in Hb. lia.
Qed.

Lemma bounded_units (m : positive) (e : Z) :
  bounded prec emax m e = true ->
  0 < Z.pos m * 2 ^ (e - FloatOrder.emin) < FloatOrder.overflow_bound
  /\ FloatOrder.round_units (Z.pos m * 2 ^ (e - FloatOrder.emin))
     = Z.pos m * 2 ^ (e - FloatOrder.emin).
Proof.
  intros Hb. destruct (bounded_spec m e Hb) as [He Hk].
  pose proof (pow2_pos (e - FloatOrder.emin) ltac:(lia)) as Hp.
  pose proof (digits2_bounds m) as [Hlo Hhi].
  assert (Hd : Z.pos (digits2_pos m) <= 53) by lia.
  assert (Hsmall : Z.pos m * 2 ^ (e - FloatOrder.emin) < FloatOrder.overflow_bound).
  { assert (2 ^ Z.pos (digits2_pos m) <= 2 ^ 53) by (apply Z.pow_le_mono_r; lia).
    assert (2 ^ 53 * 2 ^ (e - FloatOrder.emin) <= 2 ^ 2098).
    { rewrite <- Z.pow_add_r by lia. apply Z.pow_le_mono_r; unfold FloatOrder.emin in *; lia. }
    unfold FloatOrder.overflow_bound. nia. }
  split; [split; [nia|exact Hsmall]|].
  rewrite round_units_scaled. unfold FloatOrder.scaled.
  rewrite Zdigits2_scale by lia. cbn [Zdigits2]. rewrite <- Hk.
  rewrite rne_exact by lia.
  destruct (Z.leb_spec FloatOrder.overflow_bound (Z.pos m * 2 ^ (e - FloatOrder.emin))); [lia|reflexivity].
Qed.

Lemma canonical_compare (m1 m2 : positive) (e1 e2 : Z) :
  bounded prec emax m1 e1 = true ->
  bounded prec emax m2 e2 = true ->
  (Z.pos m1 * 2 ^ (e1 - FloatOrder.emin) ?= Z.pos m2 * 2 ^ (e2 - FloatOrder.emin))
  = match e1 ?= e2 with
    | Lt => Lt
    | Gt => Gt
    | Eq => Pos.compare_cont Eq m1 m2
    end.
Proof.
  intros Hb1 Hb2.
  destruct (bounded_spec m1 e1 Hb1) as [He1 Hk1].
  destruct (bounded_spec m2 e2 Hb2) as [He2 Hk2].
  pose proof (digits2_bounds m1) as [Hlo1 Hhi1].
  pose proof (digits2_bounds m2) as [Hlo2 Hhi2].
  pose proof (pow2_pos (e1 - FloatOrder.emin) ltac:(lia)) as Hp1.
  pose proof (pow2_pos (e2 - FloatOrder.emin) ltac:(lia)) as Hp2.
  assert (Hcross : forall ma mb ea eb,
             FloatOrder.emin <= ea -> ea < eb ->
             Z.pos ma < 2 ^ 53 ->
             2 ^ 52 <= Z.pos mb ->
             Z.pos ma * 2 ^ (ea - FloatOrder.emin) < Z.pos mb * 2 ^ (eb - FloatOrder.emin)).
  { intros ma mb ea eb Hea Hlt Hma Hmb.
    pose proof (pow2_pos (ea - FloatOrder.emin) ltac:(lia)) as Hpa.
    assert (Hpow : 2 ^ (ea - FloatOrder.emin + 1) <= 2 ^ (eb - FloatOrder.emin))
      by (apply Z.pow_le_mono_r; lia).
    rewrite Z.pow_add_r in Hpow by lia. change (2 ^ 1) with 2 in Hpow.
    change (2 ^ 53) with (2 * 2 ^ 52) in Hma.
    assert (0 < 2 ^ 52) by (apply pow2_pos; lia). nia. }
  assert (Hsmall : forall m e,
             FloatOrder.emin <= e ->
             e - FloatOrder.emin = Z.max (Z.pos (digits2_pos m) + (e - FloatOrder.emin) - 53) 0 ->
             Z.pos m < 2 ^ 53).
  { intros m e He Hk. pose proof (digits2_bounds m) as [_ Hhi].
    assert (2 ^ Z.pos (digits2_pos m) <= 2 ^ 53) by (apply Z.pow_le_mono_r; lia).
    lia. }
  assert (Hlarge : forall m e,
             FloatOrder.emin < e ->
             e - FloatOrder.emin = Z.max (Z.pos (digits2_pos m) + (e - FloatOrder.emin) - 53) 0 ->
             2 ^ 52 <= Z.pos m).
  { intros m e He Hk. pose proof (digits2_bounds m) as [Hlo _].
    assert (Z.pos (digits2_pos m) = 53) by lia.
    replace (Z.pos (digits2_pos m) - 1) with 52 in Hlo by lia. exact Hlo. }
  destruct (Z.compare_spec e1 e2) as [Heq|Hlt|Hgt].
  - subst e2. rewrite Pos.compare_cont_spec. cbn [Pos.switch_Eq].
    change (Pos.compare m1 m2) with (Z.pos m1 ?= Z.pos m2).
    destruct (Z.compare_spec (Z.pos m1) (Z.pos m2)) as [H|H|H].
    + rewrite H. apply Z.compare_refl.
    + apply Z.compare_lt_iff. nia.
    + apply Z.compare_gt_iff. nia.
  - apply Z.compare_lt_iff.
    apply Hcross; [lia | lia | apply (Hsmall m1 e1); lia | apply (Hlarge m2 e2); lia].
  - apply Z.compare_gt_iff.
    apply Hcross; [lia | lia | apply (Hsmall m2 e2); lia | apply (Hlarge m1 e1); lia].
Qed.

Lemma far_gt_bound_units (m : positive) (e : Z) :
  bounded prec emax m e = true ->
  0 < Z.pos m * 2 ^ (e - FloatOrder.emin) < FloatOrder.far.
Proof.
  intros Hb. destruct (bounded_units m e Hb) as [[H0 H1] _].
  pose proof bound_lt_far. lia.
Qed.

(** The comparison of two numbers of the format is the comparison of
    their values. *)
Lemma SFcompare_units (x y : spec_float) :
  valid_binary x = true -> valid_binary y = true ->
  x <> S754_nan -> y <> S754_nan ->
  SFcompare x y = Some (FloatOrder.units x ?= FloatOrder.units y).
Proof.
  intros Hvx Hvy Hx Hy. pose proof far_pos as Hfar.
  destruct x as [sx|sx| |sx mx ex]; destruct y as [sy|sy| |sy my ey];
    try contradiction; cbn [SFcompare FloatOrder.units valid_binary] in *;
    try (pose proof (far_gt_bound_units mx ex Hvx) as Hux);
    try (pose proof (far_gt_bound_units my ey Hvy) as Huy).
  - reflexivity.
  - destruct sy; cbn [cond_Zopp]; f_equal; symmetry;
      first [apply Z.compare_lt_iff; lia | apply Z.compare_gt_iff; lia].
  - destruct sy; cbn [cond_Zopp]; f_equal; symmetry;
      first [apply Z.compare_lt_iff; lia | apply Z.compare_gt_iff; lia].
  - destruct sx; cbn [cond_Zopp]; f_equal; symmetry;
      first [apply Z.compare_lt_iff; lia | apply Z.compare_gt_iff; lia].
  - destruct sx, sy; cbn [cond_Zopp]; f_equal; symmetry;
      first [apply Z.compare_refl | apply Z.compare_lt_iff; lia
            | apply Z.compare_gt_iff; lia].
  - destruct sx, sy; cbn [cond_Zopp]; f_equal; symmetry;
      first [apply Z.compare_lt_iff; lia | apply Z.compare_gt_iff; lia].
  - destruct sx; cbn [cond_Zopp]; f_equal; symmetry;
      first [apply Z.compare_lt_iff; lia | apply Z.compare_gt_iff; lia].
  - destruct sx, sy; cbn [cond_Zopp]; f_equal; symmetry;
      first [apply Z.compare_lt_iff; lia | apply Z.compare_gt_iff; lia].
  - destruct sx, sy; cbn [cond_Zopp]; f_equal.
    + rewrite Z.compare_opp, (canonical_compare my mx ey ex Hvy Hvx).
      rewrite (Z.compare_antisym ey ex).
      destruct (ey ?= ex) eqn:Hc; cbn [CompOpp]; try reflexivity.
      rewrite !Pos.compare_cont_spec. rewrite (Pos.compare_antisym my mx).
      destruct (my ?= mx)%positive; reflexivity.
    + symmetry. apply Z.compare_lt_iff. lia.
    + symmetry. apply Z.compare_gt_iff. lia.
    + symmetry. apply canonical_compare; assumption.
Qed.

(** *** Subtraction *)
Lemma shl_align_fst (m : positive) (e ez : Z) :
  ez <= e -> Z.pos (fst (shl_align m e ez)) = Z.pos m * 2 ^ (e - ez).
Proof.
  intros Hle. unfold shl_align. destruct (ez - e) as [|k|k] eqn:Hk; cbn [fst].
  - replace (e - ez) with 0 by lia. change (2 ^ 0) with 1. lia.
  - lia.
  - rewrite pos_iter_xO. do 2 f_equal. lia.
Qed.

Lemma cond_Zopp_mul (s : bool) (x y : Z) :
  cond_Zopp s x * y = cond_Zopp s (x * y).
Proof. destruct s; cbn [cond_Zopp]; lia. Qed.

Lemma round_signed_pos (V : Z) : 0 <= V -> FloatOrder.round_signed V = FloatOrder.round_units V.
Proof. intros H. unfold FloatOrder.round_signed. destruct (Z.ltb_spec V 0); [lia|reflexivity]. Qed.

Lemma round_signed_neg (V : Z) : V < 0 -> FloatOrder.round_signed V = - FloatOrder.round_units (- V).
Proof. intros H. unfold FloatOrder.round_signed. destruct (Z.ltb_spec V 0); [reflexivity|lia]. Qed.

Lemma round_signed_cond (s : bool) (U : Z) :
  0 < U -> FloatOrder.round_signed (cond_Zopp s U) = cond_Zopp s (FloatOrder.round_units U).
Proof.
  intros HU. destruct s; cbn [cond_Zopp].
  - rewrite round_signed_neg by lia. now rewrite Z.opp_involutive.
  - apply round_signed_pos. lia.
Qed.

Lemma round_signed_exact (x : spec_float) :
  valid_binary x = true -> FloatOrder.finite_value x = true ->
  FloatOrder.round_signed (FloatOrder.units x) = FloatOrder.units x
  /\ FloatOrder.round_signed (- FloatOrder.units x) = - FloatOrder.units x.
Proof.
  intros Hv Hf. destruct x as [s|s| |s m e]; try discriminate; cbn [FloatOrder.units].
  - change (- 0) with 0. rewrite round_signed_pos, round_units_0 by lia. auto.
  - cbn [valid_binary] in Hv.
    destruct (bounded_units m e Hv) as [[Hpos _] Hexact].
    split.
    + rewrite round_signed_cond, Hexact by lia. reflexivity.
    + replace (- cond_Zopp s (Z.pos m * 2 ^ (e - FloatOrder.emin)))
        with (cond_Zopp (negb s) (Z.pos m * 2 ^ (e - FloatOrder.emin)))
        by (destruct s; cbn; lia).
      rewrite round_signed_cond, Hexact by lia. reflexivity.
Qed.

Lemma binary_normalize_units (M e : Z) :
  FloatOrder.emin <= e ->
  binary_normalize prec emax M e false <> S754_nan
  /\ FloatOrder.units (binary_normalize prec emax M e false)
     = FloatOrder.round_signed (M * 2 ^ (e - FloatOrder.emin)).
Proof.
  intros He. pose proof (pow2_pos (e - FloatOrder.emin) ltac:(lia)) as Hp.
  destruct M as [|p|p]; cbn [binary_normalize].
  - split; [discriminate|]. cbn [FloatOrder.units]. rewrite Z.mul_0_l.
    now rewrite round_signed_pos, round_units_0 by lia.
  - destruct (binary_round_units false p e He) as [Hshape Hunits].
    split.
    + destruct Hshape as [->|(m' & e' & ->)]; discriminate.
    + rewrite Hunits. cbn [cond_Zopp]. rewrite round_signed_pos by lia.
      reflexivity.
  - destruct (binary_round_units true p e He) as [Hshape Hunits].
    split.
    + destruct Hshape as [->|(m' & e' & ->)]; discriminate.
    + rewrite Hunits. cbn [cond_Zopp].
      rewrite round_signed_neg by lia.
      do 2 f_equal. lia.
Qed.

(** The difference of two finite numbers is a number, the rounding of
    the difference of their values. *)
Lemma SFsub_units (a c : spec_float) :
  valid_binary a = true -> valid_binary c = true ->
  FloatOrder.finite_value a = true -> FloatOrder.finite_value c = true ->
  SF64sub a c <> S754_nan
  /\ FloatOrder.units (SF64sub a c)
     = FloatOrder.round_signed (FloatOrder.units a - FloatOrder.units c).
Proof.
  intros Hva Hvc Hfa Hfc.
  destruct (round_signed_exact a Hva Hfa) as [Ha _].
  destruct (round_signed_exact c Hvc Hfc) as [_ Hc].
  destruct a as [sa|sa| |sa ma ea]; try discriminate;
    destruct c as [sc|sc| |sc mc ec]; try discriminate;
    unfold SF64sub; cbn [SFsub].
  - split; [destruct sa, sc; discriminate|].
    cbn [FloatOrder.units] in *. replace (0 - 0) with 0 by lia.
    rewrite Ha. destruct sa, sc; reflexivity.
  - split; [discriminate|].
    cbn [FloatOrder.units] in *. rewrite Z.sub_0_l, Hc.
    destruct sc; cbn; lia.
  - split; [discriminate|].
    cbn [FloatOrder.units] in *. rewrite Z.sub_0_r, Ha. reflexivity.
  - cbn [valid_binary] in Hva, Hvc.
    destruct (bounded_spec ma ea Hva) as [Hea _].
    destruct (bounded_spec mc ec Hvc) as [Hec _].
    cbv zeta.
    destruct (binary_normalize_units
                (cond_Zopp sa (Z.pos (fst (shl_align ma ea (Z.min ea ec))))
                 - cond_Zopp sc (Z.pos (fst (shl_align mc ec (Z.min ea ec)))))
                (Z.min ea ec) ltac:(lia)) as [Hnan Hunits].
    split; [exact Hnan|].
    rewrite Hunits. f_equal. cbn [FloatOrder.units].
    rewrite !shl_align_fst by lia.
    rewrite Z.mul_sub_distr_r, !cond_Zopp_mul, <- !Z.mul_assoc.
    rewrite <- !Z.pow_add_r by lia.
    replace (ea - Z.min ea ec + (Z.min ea ec - FloatOrder.emin)) with (ea - FloatOrder.emin) by lia.
    replace (ec - Z.min ea ec + (Z.min ea ec - FloatOrder.emin)) with (ec - FloatOrder.emin) by lia.
    reflexivity.
Qed.

Lemma SFleb_units (x y : spec_float) :
  valid_binary x = true -> valid_binary y = true ->
  SFleb x y = true
  <-> x <> S754_nan /\ y <> S754_nan /\ FloatOrder.units x <= FloatOrder.units y.
Proof.
  intros Hvx Hvy. unfold SFleb. split.
  - intros H.
    assert (Hx : x <> S754_nan) by (intros ->; discriminate).
    assert (Hy : y <> S754_nan) by (intros ->; destruct x; discriminate).
    rewrite (SFcompare_units x y Hvx Hvy Hx Hy) in H.
    split; [exact Hx|]. split; [exact Hy|].
    destruct (Z.compare_spec (FloatOrder.units x) (FloatOrder.units y)); try discriminate; lia.
  - intros (Hx & Hy & Hle).
    rewrite (SFcompare_units x y Hvx Hvy Hx Hy).
    destruct (Z.compare_spec (FloatOrder.units x) (FloatOrder.units y)); try reflexivity; lia.
Qed.

(** *** The two facts the grouper needs: the order is transitive, and
    subtracting the same finite value keeps the order of finite
    values. *)

Lemma float_leb_trans (x y z : float) :
  (x <=? y)%float = true -> (y <=? z)%float = true -> (x <=? z)%float = true.
Proof.
  rewrite !leb_spec. intros Hxy Hyz.
  apply SFleb_units in Hxy as (Hx & Hy & Hle1); try apply Prim2SF_valid.
  apply SFleb_units in Hyz as (_ & Hz & Hle2); try apply Prim2SF_valid.
  apply SFleb_units; try apply Prim2SF_valid.
  split; [exact Hx|]. split; [exact Hz|]. lia.
Qed.

Lemma float_sub_monotone (a b c : float) :
  FloatOrder.finite_float a = true ->
  FloatOrder.finite_float b = true ->
  FloatOrder.finite_float c = true ->
  (a <=? b)%float = true -> (a - c <=? b - c)%float = true.
Proof.
  unfold FloatOrder.finite_float. intros Ha Hb Hc. rewrite !leb_spec, !sub_spec.
  intros Hab.
  apply SFleb_units in Hab as (_ & _ & Hle); try apply Prim2SF_valid.
  destruct (SFsub_units (Prim2SF a) (Prim2SF c)
              (Prim2SF_valid a) (Prim2SF_valid c) Ha Hc) as [Hnan1 Hu1].
  destruct (SFsub_units (Prim2SF b) (Prim2SF c)
              (Prim2SF_valid b) (Prim2SF_valid c) Hb Hc) as [Hnan2 Hu2].
  apply SFleb_units.
  - rewrite <- sub_spec. apply Prim2SF_valid.
  - rewrite <- sub_spec. apply Prim2SF_valid.
  - split; [exact Hnan1|]. split; [exact Hnan2|].
    rewrite Hu1, Hu2. apply round_signed_mono. lia.
Qed.

(** ** The timestamp grouper *)

Section GrouperFacts.
Context {T : Type}.
Variable sub : T -> T -> T.
Variable leb : T -> T -> bool.
Variable max_duration : T.

Local Abbreviation greedy_from := (VAD.greedy_from sub leb max_duration).
Local Abbreviation members_from := (VAD.members_from sub leb max_duration).
Local Abbreviation group_iter := (VAD.group_iter sub leb max_duration).

(** The loop with its accumulator computes the greedy recursion. *)
Lemma fold_group_iter (rest : list (timestamp T)) :
  forall segments cur_start cur_end,
    (let '(segments', s, e) :=
       fold_left group_iter rest (segments, cur_start, cur_end) in
     segments' ++ [(s, e)])
    = segments ++ greedy_from cur_start cur_end rest.
Proof.
  induction rest as [|t rest IH]; intros segments cs ce; simpl.
  - reflexivity.
  - destruct (leb (sub (ts_end t) cs) max_duration).
    + apply IH.
    + rewrite IH, <- app_assoc. reflexivity.
Qed.

Lemma group_segments_greedy (timestamps : list (timestamp T)) :
  VAD._group_segments sub leb timestamps max_duration
  = VAD.greedy_merge sub leb timestamps max_duration.
Proof.
  destruct timestamps as [|t0 rest]; [reflexivity|].
  unfold VAD._group_segments, VAD.greedy_merge.
  apply (fold_group_iter rest [] (ts_start t0) (ts_end t0)).
Qed.

Lemma last_snoc (seed t : timestamp T) (cur : list (timestamp T)) :
  List.last (seed :: rev (t :: cur)) seed = t.
Proof.
  change (seed :: rev (t :: cur)) with ((seed :: rev cur) ++ [t]).
  apply last_last.
Qed.

(** The bounds of the member lists are the emitted tuples. *)
Lemma members_bounds (rest : list (timestamp T)) :
  forall seed cur,
    map VAD.group_bounds (members_from seed cur rest)
    = map Some
        (greedy_from (ts_start seed)
           (ts_end (List.last (seed :: rev cur) seed)) rest).
Proof.
  induction rest as [|t rest IH]; intros seed cur.
  - reflexivity.
  - cbn [VAD.members_from VAD.greedy_from].
    destruct (leb (sub (ts_end t) (ts_start seed)) max_duration).
    + rewrite IH, last_snoc. reflexivity.
    + cbn [map]. rewrite IH. reflexivity.
Qed.

(** The member lists partition the input, in order. *)
Lemma members_concat (rest : list (timestamp T)) :
  forall seed cur,
    concat (members_from seed cur rest) = (seed :: rev cur) ++ rest.
Proof.
  induction rest as [|t rest IH]; intros seed cur.
  - cbn. rewrite !app_nil_r. reflexivity.
  - cbn [VAD.members_from].
    destruct (leb (sub (ts_end t) (ts_start seed)) max_duration).
    + rewrite IH. simpl. f_equal. rewrite <- app_assoc. reflexivity.
    + cbn [concat]. rewrite IH. reflexivity.
Qed.

(** A group that has absorbed an interval ends within [max_duration]
    of its start, because its last member passed the test. *)
Lemma members_span (rest : list (timestamp T)) :
  forall seed cur,
    match cur with
    | [] => True
    | t :: _ => leb (sub (ts_end t) (ts_start seed)) max_duration = true
    end ->
    Forall (fun g => (2 <= length g)%nat -> VAD.span_within sub leb max_duration g)
      (members_from seed cur rest).
Proof.
  assert (Hgroup : forall seed cur,
    match cur with
    | [] => True
    | t :: _ => leb (sub (ts_end t) (ts_start seed)) max_duration = true
    end ->
    (2 <= length (seed :: rev cur))%nat ->
    VAD.span_within sub leb max_duration (seed :: rev cur)).
  { intros seed [|t cur] Hcur Hlen.
    - cbn in Hlen. lia.
    - unfold VAD.span_within, VAD.group_bounds.
      rewrite last_snoc. exact Hcur. }
  induction rest as [|t rest IH]; intros seed cur Hcur.
  - cbn [VAD.members_from]. constructor; [|constructor]. now apply Hgroup.
  - cbn [VAD.members_from].
    destruct (leb (sub (ts_end t) (ts_start seed)) max_duration) eqn:Hfit.
    + apply IH. exact Hfit.
    + constructor; [now apply Hgroup | apply IH; exact I].
Qed.

(** Regrouping a grouping none of whose groups can absorb its
    successor gives it back. *)
Lemma greedy_from_separated (groups : list (T * T)) :
  forall s e,
    VAD.separated sub leb max_duration s groups ->
    greedy_from s e (VAD.as_timestamps groups) = (s, e) :: groups.
Proof.
  induction groups as [|[gs ge] groups IH]; intros s e Hsep.
  - reflexivity.
  - destruct Hsep as [Hfar Hsep]. cbn in Hfar, Hsep.
    cbn [VAD.as_timestamps map VAD.greedy_from ts_start ts_end fst snd].
    rewrite Hfar. f_equal. apply IH. exact Hsep.
Qed.

Hypothesis leb_trans :
  forall a b c, leb a b = true -> leb b c = true -> leb a c = true.

(** The times on which subtracting the same time keeps the order. *)
Variable good : T -> Prop.
Hypothesis sub_monotone :
  forall a b c,
    good a -> good b -> good c ->
    leb a b = true -> leb (sub a c) (sub b c) = true.

(** With ends that never decrease, the greedy recursion emits a first
    group that starts at the current start and ends no earlier than the
    current end, and no group can absorb its successor. *)
Lemma greedy_from_shape (rest : list (timestamp T)) :
  forall cs ce,
    good cs -> good ce ->
    Forall (fun t => good (ts_start t) /\ good (ts_end t)) rest ->
    VAD.ends_ascend leb ce rest ->
    exists e' groups,
      greedy_from cs ce rest = (cs, e') :: groups
      /\ good e'
      /\ (e' = ce \/ leb ce e' = true)
      /\ VAD.separated sub leb max_duration cs groups.
Proof.
  induction rest as [|t rest IH]; intros cs ce Hcs Hce Hgood Hends.
  - exists ce, []. cbn. auto.
  - destruct Hends as [Hle Hends]. cbn [VAD.greedy_from].
    apply Forall_cons_iff in Hgood as [[Hts Hte] Hgood].
    destruct (leb (sub (ts_end t) cs) max_duration) eqn:Hfit.
    + destruct (IH cs (ts_end t) Hcs Hte Hgood Hends)
        as (e' & groups & Heq & Hge' & He' & Hsep).
      exists e', groups. repeat split; auto.
      right. destruct He' as [-> | He']; [exact Hle | eauto].
    + destruct (IH (ts_start t) (ts_end t) Hts Hte Hgood Hends)
        as (e' & groups & Heq & Hge' & He' & Hsep).
      exists ce, ((ts_start t, e') :: groups). rewrite Heq.
      repeat split; auto. cbn [snd].
      destruct He' as [-> | He']; [exact Hfit|].
      destruct (leb (sub e' cs) max_duration) eqn:Hnear; [|reflexivity].
      rewrite <- Hfit. symmetry.
      apply (leb_trans _ (sub e' cs));
        [apply sub_monotone; assumption | exact Hnear].
Qed.

Lemma regroup_fixed (timestamps : list (timestamp T)) :
  Forall (fun t => good (ts_start t) /\ good (ts_end t)) timestamps ->
  VAD.ends_nondecreasing leb timestamps ->
  VAD._group_segments sub leb
    (VAD.as_timestamps (VAD._group_segments sub leb timestamps max_duration))
    max_duration
  = VAD._group_segments sub leb timestamps max_duration.
Proof.
  intros Hgood Hends. rewrite !group_segments_greedy.
  destruct timestamps as [|t0 rest]; [reflexivity|].
  cbn [VAD.greedy_merge].
  apply Forall_cons_iff in Hgood as [[Hts Hte] Hgood].
  destruct (greedy_from_shape rest (ts_start t0) (ts_end t0) Hts Hte Hgood Hends)
    as (e' & groups & -> & _ & _ & Hsep).
  cbn [VAD.as_timestamps map VAD.greedy_merge ts_start ts_end fst snd].
  apply greedy_from_separated. exact Hsep.
Qed.

End GrouperFacts.

(** C3. [_group_segments] is the greedy forward merge of the
    specification: it computes the same tuples as the recursion written
    from the specification's words.  The groups partition the input in
    order, each emitted tuple is the start of its group's first member
    and the end of its last, and every group merged from more than one
    interval has span [end - start <= max_duration].  A single interval
    is emitted as it is, whatever its span; the empty input gives the
    empty output; the intervals (0,5), (5,12), (40,45) with maximum
    duration 20 give (0,12), (40,45). *)
Theorem group_segments_greedy_merge :
  (forall (T : Type) (sub : T -> T -> T) (leb : T -> T -> bool)
          (timestamps : list (timestamp T)) (max_duration : T),
      VAD._group_segments sub leb timestamps max_duration
      = VAD.greedy_merge sub leb timestamps max_duration
      /\ map VAD.group_bounds (VAD.group_members sub leb timestamps max_duration)
         = map Some (VAD._group_segments sub leb timestamps max_duration)
      /\ concat (VAD.group_members sub leb timestamps max_duration) = timestamps
      /\ Forall (fun g => (2 <= length g)%nat ->
                          VAD.span_within sub leb max_duration g)
           (VAD.group_members sub leb timestamps max_duration))
  /\ (forall (T : Type) (sub : T -> T -> T) (leb : T -> T -> bool)
             (t : timestamp T) (max_duration : T),
         VAD._group_segments sub leb [t] max_duration
         = [(ts_start t, ts_end t)])
  /\ (forall (T : Type) (sub : T -> T -> T) (leb : T -> T -> bool)
             (max_duration : T),
         VAD._group_segments sub leb [] max_duration = [])
  /\ VAD.group_segments_float [mkTimestamp 0 1000]%float 600%float
     = [(0, 1000)]%float
  /\ VAD.group_segments_float VAD.scenario_intervals 20%float
     = [(0, 12); (40, 45)]%float.
Proof.
  split; [|repeat split; reflexivity].
  intros T sub leb timestamps max_duration.
  split; [apply group_segments_greedy|].
  rewrite group_segments_greedy.
  destruct timestamps as [|t0 rest].
  - repeat split; constructor.
  - cbn [VAD.group_members VAD.greedy_merge]. repeat split.
    + apply (members_bounds sub leb max_duration rest t0 []).
    + apply (members_concat sub leb max_duration rest t0 []).
    + apply members_span. exact I.
Qed.

(** C4, as stated, fails: three intervals sorted by start time, each
    ending after it starts, with maximum duration 10.  The third lies
    inside the second; grouping gives (0,5), (6,8), and grouping these
    again merges them into (0,8). *)
Lemma regrouping_nested_intervals_differs :
  VAD.starts_nondecreasing PrimFloat.leb VAD.nested_intervals
  /\ Forall VAD.speech_interval VAD.nested_intervals
  /\ (0 <? 10)%float = true
  /\ VAD.group_segments_float VAD.nested_intervals 10%float
     = [(0, 5); (6, 8)]%float
  /\ VAD.group_segments_float
       (VAD.as_timestamps (VAD.group_segments_float VAD.nested_intervals 10%float))
       10%float
     = [(0, 8)]%float
  /\ VAD.group_segments_float
       (VAD.as_timestamps (VAD.group_segments_float VAD.nested_intervals 10%float))
       10%float
     <> VAD.group_segments_float VAD.nested_intervals 10%float.
Proof.
  repeat split; try reflexivity.
  - repeat constructor.
  - vm_compute. discriminate.
Qed.

(** C4, amended.  When every start and end is a finite number and the
    ends of the intervals never decrease (as for disjoint intervals in
    temporal order), grouping the output of the grouper again with the
    same maximum duration returns it unchanged.  This is the grouper
    as the program runs it, on binary64 numbers: their order is
    transitive, and the rounded difference from a common finite time
    keeps the order of finite times.  The maximum duration may be any
    number. *)
Theorem regrouping_is_identity :
  forall (timestamps : list (timestamp float)) (max_duration : float),
    VAD.finite_times timestamps = true ->
    VAD.ends_nondecreasing PrimFloat.leb timestamps ->
    VAD.group_segments_float
      (VAD.as_timestamps (VAD.group_segments_float timestamps max_duration))
      max_duration
    = VAD.group_segments_float timestamps max_duration.
Proof.
  intros timestamps max_duration Hfinite Hends.
  unfold VAD.group_segments_float.
  apply (regroup_fixed PrimFloat.sub PrimFloat.leb max_duration
           float_leb_trans
           (fun x => FloatOrder.finite_float x = true)
           float_sub_monotone).
  - unfold VAD.finite_times in Hfinite.
    apply List.Forall_forall. intros t Hin.
    apply (proj1 (forallb_forall _ _) Hfinite) in Hin.
    now apply andb_true_iff in Hin.
  - exact Hends.
Qed.

Lemma regrouping_is_identity_witness :
  VAD.group_segments_float VAD.scenario_intervals 20%float
  = [(0, 12); (40, 45)]%float
  /\ VAD.group_segments_float
       (VAD.as_timestamps
          (VAD.group_segments_float VAD.scenario_intervals 20%float))
       20%float
     = VAD.group_segments_float VAD.scenario_intervals 20%float.
Proof.
  split; [reflexivity|].
  apply (regrouping_is_identity VAD.scenario_intervals 20%float).
  - vm_compute. reflexivity.
  - cbn. repeat split.
Defined.

(** The times have to be finite.  With a start at minus infinity the
    difference of two ends from it is not a number for the one and
    infinite for the other, so that an interval that opened a group of
    its own is merged when the groups are grouped again, here with an
    infinite maximum duration. *)
Lemma regrouping_infinite_times_differs :
  VAD.starts_nondecreasing PrimFloat.leb VAD.infinite_intervals
  /\ VAD.ends_nondecreasing PrimFloat.leb VAD.infinite_intervals
  /\ VAD.finite_times VAD.infinite_intervals = false
  /\ (0 <? infinity)%float = true
  /\ VAD.group_segments_float VAD.infinite_intervals infinity
     = [(neg_infinity, neg_infinity); (neg_infinity, 5)]%float
  /\ VAD.group_segments_float
       (VAD.as_timestamps
          (VAD.group_segments_float VAD.infinite_intervals infinity))
       infinity
     = [(neg_infinity, 5)]%float.
Proof.
  repeat split; reflexivity.
Qed.

(** ** The call envelope *)

Section EnvelopeFacts.
Context {T : Type}.
Variable func : nat -> Retry.Outcome T.
Variable max_retries : Z.
Variable timeout : Z.
Variable on_retry : option (Z -> Exn -> option Exn).

Local Abbreviation retry_loop := (Retry.retry_loop func max_retries timeout on_retry).
Local Abbreviation notify := (Retry.notify max_retries on_retry).
Local Abbreviation last_error_after := (Retry.last_error_after func timeout).

Lemma filter_is_call_app (log1 log2 : list Retry.Event) :
  List.filter Retry.is_call (log1 ++ log2)
  = List.filter Retry.is_call log1 ++ List.filter Retry.is_call log2.
Proof. apply List.filter_app. Qed.

(** An observer that returns leaves the loop running and adds no
    invocation to the log. *)
Lemma notify_returns (attempt : nat) (e : Exn) (log : list Retry.Event) :
  Retry.observer_returns on_retry ->
  exists log',
    notify attempt e log = (None, log')
    /\ List.filter Retry.is_call log' = List.filter Retry.is_call log.
Proof.
  unfold Retry.observer_returns, Retry.notify. intros Hobs.
  destruct on_retry as [observer|].
  - destruct (Z.of_nat attempt <? max_retries - 1).
    + eexists. split; [rewrite Hobs; reflexivity|].
      rewrite filter_is_call_app. cbn. apply app_nil_r.
    + eexists. split; reflexivity.
  - eexists. split; reflexivity.
Qed.

Lemma last_error_after_cons (attempt : nat) (remaining : list nat)
    (last_error : option Exn) :
  last_error_after remaining (Retry.observed_error timeout (func attempt))
  = last_error_after (attempt :: remaining) last_error.
Proof.
  unfold Retry.last_error_after. cbn [rev].
  destruct (rev remaining) as [|a l]; reflexivity.
Qed.

(** When every remaining attempt fails retryably, the loop invokes the
    function once per attempt, in order, and ends in the exhaustion
    error built from the last error. *)
Lemma retry_loop_all_fail (attempts : list nat) :
  Retry.observer_returns on_retry ->
  (forall attempt, In attempt attempts ->
                   Retry.fails_retryably (func attempt)) ->
  forall last_error log,
  exists log',
    retry_loop attempts last_error log
    = (Raise (Retry.exhausted max_retries
                (last_error_after attempts last_error)), log')
    /\ List.filter Retry.is_call log'
       = List.filter Retry.is_call log ++ map Retry.Called attempts.
Proof.
  intros Hobs. induction attempts as [|attempt remaining IH];
    intros Hfail last_error log.
  - exists log. split; [reflexivity|]. cbn. now rewrite app_nil_r.
  - assert (Hrest : forall a, In a remaining -> Retry.fails_retryably (func a))
      by (intros a Ha; apply Hfail; now right).
    assert (Hcalls : forall log0,
      List.filter Retry.is_call
        ((if (0 <? attempt)%nat
          then log0 ++ [Retry.Slept (Retry.wait_time (Z.of_nat attempt))]
          else log0) ++ [Retry.Called attempt])
      = List.filter Retry.is_call log0 ++ [Retry.Called attempt]).
    { intros log0. rewrite filter_is_call_app.
      destruct (0 <? attempt)%nat; [rewrite filter_is_call_app; cbn; rewrite app_nil_r|];
        reflexivity. }
    assert (Hstep : forall e,
      Retry.execute_with_timeout timeout (func attempt) = Raise e ->
      forall log2,
        List.filter Retry.is_call log2
        = List.filter Retry.is_call log ++ [Retry.Called attempt] ->
        exists log',
          match notify attempt e log2 with
          | (None, log3) => retry_loop remaining (Some e) log3
          | (Some raised, log3) => (Raise raised, log3)
          end
          = (Raise (Retry.exhausted max_retries
                      (last_error_after (attempt :: remaining) last_error)), log')
          /\ List.filter Retry.is_call log'
             = List.filter Retry.is_call log ++ map Retry.Called (attempt :: remaining)).
    { intros e He log2 Hlog2.
      destruct (notify_returns attempt e log2 Hobs) as (log3 & -> & Hlog3).
      destruct (IH Hrest (Some e) log3) as (log' & -> & Hlog').
      exists log'. split.
      - rewrite <- last_error_after_cons.
        unfold Retry.observed_error. rewrite He. reflexivity.
      - rewrite Hlog', Hlog3, Hlog2, <- app_assoc. reflexivity. }
    specialize (Hfail attempt (or_introl eq_refl)).
    cbn [Retry.retry_loop].
    destruct (func attempt) as [v|e|] eqn:Hout; cbn in Hfail.
    + contradiction.
    + cbn [Retry.execute_with_timeout].
      specialize (Hstep e eq_refl _ (Hcalls log)).
      destruct (exn_class e) eqn:Hclass; try exact Hstep.
      * destruct Hfail as [Hfail|Hfail]; [discriminate|].
        rewrite Hfail. exact Hstep.
      * destruct Hfail as [Hfail|Hfail]; [discriminate|].
        rewrite Hfail. exact Hstep.
    + cbn [Retry.execute_with_timeout exn_class].
      exact (Hstep _ eq_refl _ (Hcalls log)).
Qed.

End EnvelopeFacts.

(** C5. When every attempt of the wrapped function fails retryably (it
    times out or raises an error that [is_retryable_error] accepts) and
    the observer, if any, returns, [retry_with_backoff] invokes the
    function for the attempts 0, ..., [max_retries - 1] and no other,
    that is [max_retries] times, and then raises an [Exception] whose
    text names the retry budget and the last error observed. *)
Theorem retry_exhausts_after_max_retries :
  forall (T : Type) (func : nat -> Retry.Outcome T) (max_retries timeout : Z)
         (on_retry : option (Z -> Exn -> option Exn)),
    0 <= max_retries ->
    (forall i, (i < Z.to_nat max_retries)%nat ->
               Retry.fails_retryably (func i)) ->
    Retry.observer_returns on_retry ->
    exists log,
      Retry.retry_with_backoff func max_retries timeout on_retry
      = (Raise (mkExn Exception_
                  ("Maximum retries (" ++ Py.str_int max_retries
                     ++ ") reached. Last error: "
                     ++ Retry.str_last_error
                          (match Z.to_nat max_retries with
                           | O => None
                           | S k => Retry.observed_error timeout (func k)
                           end))),
         log)
      /\ List.filter Retry.is_call log
         = map Retry.Called (seq 0 (Z.to_nat max_retries))
      /\ Z.of_nat (Retry.invocations log) = max_retries.
Proof.
  intros T func max_retries timeout on_retry Hpos Hfail Hobs.
  destruct (retry_loop_all_fail func max_retries timeout on_retry
              (seq 0 (Z.to_nat max_retries)) Hobs) with (last_error := @None Exn)
              (log := @nil Retry.Event)
    as (log & Hrun & Hcalls).
  { intros attempt Hin. apply Hfail. apply in_seq in Hin. lia. }
  cbn [List.filter app] in Hcalls.
  exists log. split; [|split].
  - unfold Retry.retry_with_backoff. rewrite Hrun.
    unfold Retry.exhausted, Retry.last_error_after. do 4 f_equal.
    destruct (Z.to_nat max_retries) as [|k]; [reflexivity|].
    rewrite seq_S, rev_app_distr. reflexivity.
  - exact Hcalls.
  - unfold Retry.invocations. rewrite Hcalls.
    rewrite List.length_map, List.length_seq. lia.
Qed.

Lemma retry_exhausts_after_max_retries_witness :
  0 <= 3
  /\ exists log,
       Retry.retry_with_backoff Retry.always_unavailable 3 600 None
       = (Raise (mkExn Exception_
                   "Maximum retries (3) reached. Last error: 503 Service Unavailable"),
          log)
       /\ List.filter Retry.is_call log
          = [Retry.Called 0; Retry.Called 1; Retry.Called 2]
       /\ Z.of_nat (Retry.invocations log) = 3.
Proof.
  split; [lia|].
  apply (retry_exhausts_after_max_retries string Retry.always_unavailable
           3 600 None).
  - lia.
  - intros i _. right. reflexivity.
  - exact I.
Defined.

(** The envelope on small inputs: a call that succeeds on its third
    attempt, waiting 10 and then 20 seconds; an error that is not
    retryable, raised at once without a wait; a call that hangs twice
    with a budget of two. *)
Example retry_recovers_on_third_attempt :
  Retry.retry_with_backoff
    (fun attempt => if (attempt <? 2)%nat then Retry.Raises Retry.unavailable
                    else Retry.Returns "text")
    5 600 None
  = (Return "text",
     [ Retry.Called 0; Retry.Slept 10; Retry.Called 1;
       Retry.Slept 20; Retry.Called 2 ]).
Proof. reflexivity. Qed.

Example fatal_error_is_raised_at_once :
  Retry.retry_with_backoff
    (fun _ => @Retry.Raises string (mkExn Exception_ "API key not valid"))
    5 600 None
  = (Raise (mkExn Exception_ "API key not valid"), [Retry.Called 0]).
Proof. reflexivity. Qed.

Example hanging_call_exhausts_budget :
  Retry.retry_with_backoff (fun _ => @Retry.Hangs string) 2 600 None
  = (Raise (mkExn Exception_
              "Maximum retries (2) reached. Last error: Function execution timed out after 600 seconds"),
     [Retry.Called 0; Retry.Slept 10; Retry.Called 1]).
Proof. reflexivity. Qed.

Example is_retryable_error_samples :
  Retry.is_retryable_error (mkExn Exception_ "HTTP 503 Service Unavailable") = true
  /\ Retry.is_retryable_error (mkExn Exception_ "Rate Limit exceeded") = true
  /\ Retry.is_retryable_error (mkExn RetryableError_ "API returned empty response") = true
  /\ Retry.is_retryable_error (mkExn Exception_ "API key not valid") = false.
Proof. repeat split; reflexivity. Qed.

(** ** The transcription service *)

(** Comparisons of binary64 floats, from their specification. *)
Lemma SFcompare_swap (x y : spec_float) :
  SFcompare y x = option_map CompOpp (SFcompare x y).
Proof.
  destruct x as [sx|sx| |sx mx ex], y as [sy|sy| |sy my ey]; cbn;
    try reflexivity; try (destruct sx; reflexivity);
    try (destruct sy; reflexivity); try (destruct sx, sy; reflexivity).
  destruct sx, sy; cbn; try reflexivity.
  - rewrite (Z.compare_antisym ex ey).
    destruct (ex ?= ey)%Z; cbn; try reflexivity.
    do 2 f_equal. symmetry. apply (Pos.compare_cont_antisym mx my Eq).
  - rewrite (Z.compare_antisym ex ey).
    destruct (ex ?= ey)%Z; cbn; try reflexivity.
    f_equal. symmetry. apply (Pos.compare_cont_antisym mx my Eq).
Qed.

Lemma float_ltb_asym (x y : float) :
  (x <? y)%float = true -> (y <? x)%float = false.
Proof.
  rewrite !FloatAxioms.ltb_spec. unfold SFltb.
  rewrite (SFcompare_swap (Prim2SF x) (Prim2SF y)).
  destruct (SFcompare (Prim2SF x) (Prim2SF y)) as [[]|]; cbn; congruence.
Qed.

Lemma float_eqb_not_ltb (x y : float) :
  (x =? y)%float = true -> (y <? x)%float = false.
Proof.
  rewrite FloatAxioms.eqb_spec, FloatAxioms.ltb_spec. unfold SFltb, SFeqb.
  rewrite (SFcompare_swap (Prim2SF x) (Prim2SF y)).
  destruct (SFcompare (Prim2SF x) (Prim2SF y)) as [[]|]; cbn; congruence.
Qed.

(** C6, as stated, fails: with voice activity detection enabled and a
    probed duration of exactly the threshold (600 seconds), the file is
    transcribed directly; the segmented path would have given another
    text. *)
Lemma duration_at_threshold_goes_direct :
  get_audio_duration Service.sample_env "/vault/talk.wav" = Return 600%float
  /\ Service.transcribe_file Service.sample_env "/vault/talk.wav" true 600%float
       Service.sample_world
     = Service._transcribe_direct Service.sample_env "/vault/talk.wav"
         Service.sample_world
  /\ Service.transcribe_file Service.sample_env "/vault/talk.wav" true 600%float
       Service.sample_world
     <> Service._transcribe_with_vad Service.sample_env "/vault/talk.wav"
          Service.sample_world.
Proof.
  split; [reflexivity|]. split; [reflexivity|].
  intros H. apply (f_equal fst) in H. vm_compute in H. discriminate.
Qed.

(** C6, amended.  For a probed duration [d] and threshold [t], the
    segmented path is taken when detection is enabled and [d > t]; the
    direct path is taken in every other case, in particular when [d] is
    below [t], when [d] equals [t], and when detection is disabled. *)
Theorem transcribe_file_route :
  forall (env : Env) (audio_path : string) (use_vad : bool)
         (vad_threshold_seconds duration : float) (w : World),
    get_audio_duration env audio_path = Return duration ->
    ((use_vad = false \/ (vad_threshold_seconds <? duration)%float = false) ->
     Service.transcribe_file env audio_path use_vad vad_threshold_seconds w
     = Service._transcribe_direct env audio_path w)
    /\ (((duration <? vad_threshold_seconds)%float = true
         \/ (duration =? vad_threshold_seconds)%float = true) ->
        Service.transcribe_file env audio_path use_vad vad_threshold_seconds w
        = Service._transcribe_direct env audio_path w)
    /\ (use_vad = true ->
        (vad_threshold_seconds <? duration)%float = true ->
        Service.transcribe_file env audio_path use_vad vad_threshold_seconds w
        = Service._transcribe_with_vad env audio_path w).
Proof.
  intros env audio_path use_vad t d w Hd.
  assert (Hrun : Service.transcribe_file env audio_path use_vad t w
                 = if use_vad && (t <? d)%float
                   then Service._transcribe_with_vad env audio_path w
                   else Service._transcribe_direct env audio_path w).
  { unfold Service.transcribe_file, bind, lift. rewrite Hd.
    destruct (use_vad && (t <? d)%float); reflexivity. }
  rewrite Hrun. repeat split.
  - intros [-> | ->]; [reflexivity | now rewrite andb_false_r].
  - intros [Hlt | Heq].
    + now rewrite (float_ltb_asym _ _ Hlt), andb_false_r.
    + now rewrite (float_eqb_not_ltb _ _ Heq), andb_false_r.
  - intros -> ->. reflexivity.
Qed.

Lemma transcribe_file_route_witness :
  get_audio_duration Service.sample_env "/vault/talk.wav" = Return 600%float
  /\ Service.transcribe_file Service.sample_env "/vault/talk.wav" true 600%float
       Service.sample_world
     = Service._transcribe_direct Service.sample_env "/vault/talk.wav"
         Service.sample_world
  /\ Service.transcribe_file Service.sample_env "/vault/talk.wav" true 599%float
       Service.sample_world
     = Service._transcribe_with_vad Service.sample_env "/vault/talk.wav"
         Service.sample_world.
Proof.
  split; [reflexivity|]. split.
  - apply (transcribe_file_route Service.sample_env "/vault/talk.wav" true
             600%float 600%float Service.sample_world eq_refl).
    right. reflexivity.
  - apply (transcribe_file_route Service.sample_env "/vault/talk.wav" true
             599%float 600%float Service.sample_world eq_refl); reflexivity.
Defined.

(** One pass of the loop body: the block for the segment is produced,
    whether the call returned or raised, and the segment's file is
    gone afterwards. *)
Lemma transcribe_segment_run (env : Env) (i : nat) (segment : VAD.Segment)
    (w : World) :
  exists w',
    Service.transcribe_segment env i segment w
    = (Return (Service.segment_block env i segment), w')
    /\ fs w' = delete (Service.segment_path segment) (fs w).
Proof.
  destruct segment as [[start end_] path].
  unfold Service.transcribe_segment, Service.segment_block,
    Service.segment_call, Service.segment_path, try_finally, try_except,
    lift, bind, path_exists, os_remove, ret.
  cbn [snd].
  destruct (transcribe_audio env path (Some (start, end_))) as [text|e];
    destruct (fs w !! path) as [content|] eqn:Hpath; cbn;
    rewrite ?Hpath; eexists; (split; [reflexivity|]); cbn;
    try reflexivity; symmetry; now apply delete_id.
Qed.

Lemma transcribe_segments_run (env : Env) (segments : list VAD.Segment) :
  forall i transcriptions w,
  exists w',
    Service.transcribe_segments env i segments transcriptions w
    = (Return (transcriptions ++ Service.segment_blocks env i segments), w')
    /\ forall p, ~ In p (map Service.segment_path segments) ->
                 fs w' !! p = fs w !! p.
Proof.
  induction segments as [|segment rest IH]; intros i transcriptions w.
  - exists w. cbn. rewrite app_nil_r. auto.
  - cbn [Service.transcribe_segments]. unfold bind at 1.
    destruct (transcribe_segment_run env i segment w) as (w1 & -> & Hfs1).
    destruct (IH (S i) (transcriptions ++ [Service.segment_block env i segment]) w1)
      as (w2 & -> & Hfs2).
    exists w2. split.
    + cbn [Service.segment_blocks]. now rewrite <- app_assoc.
    + intros p Hp. cbn in Hp. rewrite Hfs2 by tauto. rewrite Hfs1.
      apply lookup_delete_ne. tauto.
Qed.

Lemma segment_blocks_length (env : Env) (segments : list VAD.Segment) :
  forall i, length (Service.segment_blocks env i segments) = length segments.
Proof.
  induction segments as [|segment rest IH]; intros i; cbn; [|rewrite IH];
    reflexivity.
Qed.

Lemma segment_blocks_lookup (env : Env) (segments : list VAD.Segment) :
  forall i k segment,
    segments !! k = Some segment ->
    Service.segment_blocks env i segments !! k
    = Some (Service.segment_block env (i + k) segment).
Proof.
  induction segments as [|s rest IH]; intros i k segment Hk.
  - discriminate.
  - destruct k as [|k].
    + cbn in Hk. injection Hk as ->. cbn. now rewrite Nat.add_0_r.
    + change (rest !! k = Some segment) in Hk.
      change (Service.segment_blocks env (S i) rest !! k
              = Some (Service.segment_block env (i + S k) segment)).
      rewrite (IH (S i) k segment Hk). do 2 f_equal. lia.
Qed.

(** Joining with the blank-line separator puts two line feeds between
    consecutive blocks and nothing else. *)
Lemma join_blank_line (blocks : list string) :
  Py.join Py.blank_line blocks = Service.blocks_separated_by_blank_lines blocks.
Proof.
  unfold Py.join. induction blocks as [|block rest IH]; [reflexivity|].
  cbn [String.concat Service.blocks_separated_by_blank_lines].
  destruct rest as [|next rest]; [reflexivity|].
  rewrite IH. f_equal.
Qed.

(** C7. In a segmented transcription whose split gave the segments
    [segments], let the call for the segment at position [k] (counted
    from 0, so the segment numbered [k + 1]) fail with [e].  The run
    still returns, and its text is the blocks of all segments, in
    order, with two line feeds between one block and the next: as many
    blocks as segments, block [k] the placeholder that shows the number
    [k + 1] and the text of [e], and the block of every segment whose
    call returned a text that very text. *)
Theorem failed_segment_becomes_placeholder :
  forall (env : Env) (audio_path : string) (w w1 : World)
         (segments : list VAD.Segment) (k : nat) (segment_k : VAD.Segment)
         (e : Exn),
    VAD.split_audio env audio_path VAD.MAX_SEGMENT_DURATION w
    = (Return segments, w1) ->
    segments !! k = Some segment_k ->
    Service.segment_call env segment_k = Raise e ->
    exists blocks w2,
      Service._transcribe_with_vad env audio_path w
      = (Return (Service.blocks_separated_by_blank_lines blocks), w2)
      /\ length blocks = length segments
      /\ blocks !! k
         = Some ("[セグメント " ++ Py.str_int (Z.of_nat k + 1)
                   ++ " の文字起こしに失敗: " ++ exn_str e ++ "]")%string
      /\ forall i segment text,
           segments !! i = Some segment ->
           Service.segment_call env segment = Return text ->
           blocks !! i = Some text.
Proof.
  intros env audio_path w w1 segments k segment_k e Hsplit Hk Hfail.
  destruct (transcribe_segments_run env segments 0 [] w1) as (w2 & Hrun & _).
  exists (Service.segment_blocks env 0 segments), w2.
  split; [|split; [|split]].
  - unfold Service._transcribe_with_vad, bind. rewrite Hsplit, Hrun.
    unfold ret. cbn [app]. now rewrite join_blank_line.
  - apply segment_blocks_length.
  - rewrite (segment_blocks_lookup env segments 0 k segment_k Hk).
    unfold Service.segment_block. rewrite Hfail. reflexivity.
  - intros i segment text Hi Hcall.
    rewrite (segment_blocks_lookup env segments 0 i segment Hi).
    unfold Service.segment_block. rewrite Hcall. reflexivity.
Qed.

(** Three segments of which the second fails: the text is the first
    text, two line feeds, the placeholder for segment 2, two line
    feeds, the third text. *)
Lemma failed_segment_becomes_placeholder_witness :
  fst (Service._transcribe_with_vad Service.sample_env "/vault/talk.wav"
         Service.sample_world)
  = Return
      ("speech from 0"
       ++ String "010" (String "010"
            ("[セグメント 2 の文字起こしに失敗: Maximum retries (5) reached. Last error: 503 UNAVAILABLE]"
             ++ String "010" (String "010" "speech from 1500"))))%string.
Proof.
  destruct (failed_segment_becomes_placeholder Service.sample_env
              "/vault/talk.wav" Service.sample_world
              (snd (VAD.split_audio Service.sample_env "/vault/talk.wav"
                      VAD.MAX_SEGMENT_DURATION Service.sample_world))
              [ (0, 100, "/tmp/tmp0_segment_0.wav");
                (700, 800, "/tmp/tmp1_segment_1.wav");
                (1500, 1600, "/tmp/tmp2_segment_2.wav") ]%float
              1%nat (700, 800, "/tmp/tmp1_segment_1.wav")%float
              Service.budget_exhausted)
    as (blocks & w2 & Hrun & Hlen & Hk & Hothers).
  - reflexivity.
  - reflexivity.
  - reflexivity.
  - rewrite Hrun. cbn [fst]. f_equal.
    pose proof (Hothers 0%nat (0, 100, "/tmp/tmp0_segment_0.wav")%float
                  "speech from 0" eq_refl eq_refl) as H0.
    pose proof (Hothers 2%nat (1500, 1600, "/tmp/tmp2_segment_2.wav")%float
                  "speech from 1500" eq_refl eq_refl) as H2.
    destruct blocks as [|b0 [|b1 [|b2 [|b3 blocks]]]]; try discriminate.
    cbn in H0, Hk, H2. injection H0 as ->. injection Hk as ->.
    injection H2 as ->. reflexivity.
Defined.

(** When the detector reports no speech, [split_audio] returns the
    source file itself as the only segment. *)
Lemma split_audio_no_speech (env : Env) (audio_path : string)
    (max_duration : float) (w : World) (wav : string) (duration : float) :
  (vad_model w = false -> load_silero_vad env = Return tt) ->
  (Py.endswith (Py.lower audio_path) ".wav" = false ->
   exists audio bytes,
     from_file env audio_path = Return audio
     /\ export_wav env audio = Return bytes) ->
  read_audio env
    (if Py.endswith (Py.lower audio_path) ".wav" then audio_path
     else tmp_name env (tmp_count w) ".wav") = Return wav ->
  get_speech_timestamps env wav = Return [] ->
  get_audio_duration env audio_path = Return duration ->
  exists w1,
    VAD.split_audio env audio_path max_duration w
    = (Return [(0%float, duration, audio_path)], w1)
    /\ (Py.endswith (Py.lower audio_path) ".wav" = true -> fs w1 = fs w).
Proof.
  intros Hload Hconv Hread Hvad Hdur.
  unfold VAD.split_audio, VAD._ensure_model.
  assert (Hmodel : exists w0,
    (if vad_model w then (Return tt, w)
     else match load_silero_vad env with
          | Return _ => (Return tt, mkWorld (fs w) (tmp_count w) true)
          | Raise e => (Raise e, w)
          end) = (Return tt, w0)
    /\ fs w0 = fs w /\ tmp_count w0 = tmp_count w).
  { destruct (vad_model w).
    - exists w. auto.
    - rewrite (Hload eq_refl). eexists. split; [reflexivity|]. auto. }
  destruct Hmodel as (w0 & Hmodel & Hfs0 & Htmp0).
  unfold bind at 1. rewrite Hmodel.
  destruct (Py.endswith (Py.lower audio_path) ".wav") eqn:Hwav; cbn [negb].
  - unfold bind, ret, lift, try_finally. rewrite Hread, Hvad, Hdur.
    exists w0. split; [reflexivity|]. intros _. exact Hfs0.
  - destruct (Hconv eq_refl) as (audio & bytes & Hfrom & Hexport).
    unfold bind, ret, lift, try_finally, NamedTemporaryFile, write_file,
      path_exists, os_remove.
    rewrite Hfrom. cbn. rewrite Hexport. cbn. rewrite Htmp0, Hread, Hvad, Hdur.
    cbn. rewrite lookup_insert_eq. cbn.
    destruct (negb (String.eqb (tmp_name env (tmp_count w) ".wav") EmptyString));
      cbn; rewrite ?lookup_insert_eq; eexists; (split; [reflexivity|]);
      intros; discriminate.
Qed.

(** C10. When the detector reports no speech for a source on the
    segmented path, [split_audio] returns the single segment
    [(0, duration, audio_path)], whose path is the source file itself,
    and the cleanup of the segment loop removes that path: after
    [_transcribe_with_vad] the source file no longer exists.  For a
    [.wav] source nothing else on the file system changes. *)
Theorem no_speech_removes_source_file :
  forall (env : Env) (audio_path : string) (w : World)
         (content wav : string) (duration : float),
    fs w !! audio_path = Some content ->
    (vad_model w = false -> load_silero_vad env = Return tt) ->
    (Py.endswith (Py.lower audio_path) ".wav" = false ->
     exists audio bytes,
       from_file env audio_path = Return audio
       /\ export_wav env audio = Return bytes) ->
    read_audio env
      (if Py.endswith (Py.lower audio_path) ".wav" then audio_path
       else tmp_name env (tmp_count w) ".wav") = Return wav ->
    get_speech_timestamps env wav = Return [] ->
    get_audio_duration env audio_path = Return duration ->
    (exists w1,
        VAD.split_audio env audio_path VAD.MAX_SEGMENT_DURATION w
        = (Return [(0%float, duration, audio_path)], w1))
    /\ (exists text w2,
           Service._transcribe_with_vad env audio_path w = (Return text, w2)
           /\ fs w2 !! audio_path = None
           /\ (Py.endswith (Py.lower audio_path) ".wav" = true ->
               fs w2 = delete audio_path (fs w))).
Proof.
  intros env audio_path w content wav duration Hfile Hload Hconv Hread Hvad Hdur.
  destruct (split_audio_no_speech env audio_path VAD.MAX_SEGMENT_DURATION w
              wav duration Hload Hconv Hread Hvad Hdur) as (w1 & Hsplit & Hfs1).
  split; [exists w1; exact Hsplit|].
  destruct (transcribe_segment_run env 0 (0%float, duration, audio_path) w1)
    as (w2 & Hseg & Hfs2).
  cbn [Service.segment_path snd] in Hfs2.
  exists (Py.join Py.blank_line
            [Service.segment_block env 0 (0%float, duration, audio_path)]), w2.
  split; [|split].
  - unfold Service._transcribe_with_vad, bind at 1. rewrite Hsplit.
    cbn [Service.transcribe_segments]. unfold bind, ret. rewrite Hseg.
    reflexivity.
  - rewrite Hfs2. apply lookup_delete_eq.
  - intros Hwav. rewrite Hfs2, (Hfs1 Hwav). reflexivity.
Qed.

Lemma no_speech_removes_source_file_witness :
  fs Service.sample_world !! "/vault/talk.wav" = Some "RIFF"
  /\ (exists w1,
         VAD.split_audio Service.silent_env "/vault/talk.wav"
           VAD.MAX_SEGMENT_DURATION Service.sample_world
         = (Return [(0%float, 600%float, "/vault/talk.wav")], w1))
  /\ (exists text w2,
         Service._transcribe_with_vad Service.silent_env "/vault/talk.wav"
           Service.sample_world = (Return text, w2)
         /\ fs w2 !! "/vault/talk.wav" = None
         /\ (Py.endswith (Py.lower "/vault/talk.wav") ".wav" = true ->
             fs w2 = delete "/vault/talk.wav" (fs Service.sample_world))).
Proof.
  split; [reflexivity|].
  apply (no_speech_removes_source_file Service.silent_env "/vault/talk.wav"
           Service.sample_world "RIFF" "samples" 600%float).
  - reflexivity.
  - intros _. reflexivity.
  - intros H. vm_compute in H. discriminate.
  - reflexivity.
  - reflexivity.
  - reflexivity.
Defined.

(** ** The processing ledger *)

Section LedgerFacts.
Variable md5_hexdigest : string -> string.
Variable disk : gmap string string.

Local Abbreviation is_processed := (Database.is_processed md5_hexdigest disk).

(** [is_processed] answers [True] exactly for a stored entry that is
    completed and whose stored hash is the hash of the file as it is. *)
Lemma is_processed_iff (file_path : string) (d : Database.Data) :
  is_processed file_path d = true
  <-> exists entry content,
        Database.files d !! file_path = Some entry
        /\ Database.status entry = Some "completed"
        /\ disk !! file_path = Some content
        /\ Database.hash entry = Some (md5_hexdigest content).
Proof.
  unfold Database.is_processed, Database.get_file_hash.
  destruct (Database.files d !! file_path) as [entry|]; cbn [Database.value].
  - destruct (decide (Database.status entry = Some "completed")) as [Hst|Hst].
    + rewrite (bool_decide_eq_true_2 _ Hst). cbn [negb].
      destruct (disk !! file_path) as [content|].
      * rewrite bool_decide_eq_true. split.
        -- intros Hh. exists entry, content. auto.
        -- intros (entry' & content' & He & _ & Hc & Hh).
           injection He as <-. injection Hc as <-. auto.
      * split; [discriminate|]. intros (? & ? & _ & _ & Hc & _). discriminate.
    + rewrite (bool_decide_eq_false_2 _ Hst). cbn [negb].
      split; [discriminate|].
      intros (entry' & ? & He & Hst' & _). injection He as <-. contradiction.
  - split; [discriminate|]. intros (? & ? & He & _). discriminate.
Qed.

Lemma save_data (io : Database.SaveIO) (now : string) (l : Database.Ledger) :
  Database.files (Database.data (snd (Database.save io now l)))
  = Database.files (Database.data l)
  /\ Database.statistics (Database.data (snd (Database.save io now l)))
     = Database.statistics (Database.data l).
Proof. destruct io; split; reflexivity. Qed.

End LedgerFacts.

(** C2. [is_processed] returns [True] if and only if an entry is stored
    for the path, its status is completed, and the hash of the file's
    present content equals the stored hash; when the file cannot be
    hashed the answer is [False], no exception escaping.  It is [False]
    right after [remove_processed_file], and [True] right after an
    [add_processed_file] that returned, the file being unchanged. *)
Theorem is_processed_contract :
  forall (md5_hexdigest : string -> string) (disk : gmap string string)
         (file_path : string),
    (forall d,
        Database.is_processed md5_hexdigest disk file_path d = true
        <-> exists entry content,
              Database.files d !! file_path = Some entry
              /\ Database.status entry = Some "completed"
              /\ disk !! file_path = Some content
              /\ Database.hash entry = Some (md5_hexdigest content))
    /\ (forall d,
           disk !! file_path = None ->
           Database.is_processed md5_hexdigest disk file_path d = false)
    /\ (forall now io l,
           Database.is_processed md5_hexdigest disk file_path
             (Database.data
                (snd (Database.remove_processed_file now io file_path l)))
           = false)
    /\ (forall now io markdown_path summary_path duration file_size l l',
           Database.add_processed_file md5_hexdigest disk now io file_path
             markdown_path summary_path duration file_size l
           = (Return tt, l') ->
           Database.is_processed md5_hexdigest disk file_path (Database.data l')
           = true).
Proof.
  intros md5_hexdigest disk file_path. split; [|split; [|split]].
  - intros d. apply is_processed_iff.
  - intros d Hgone. unfold Database.is_processed, Database.get_file_hash.
    rewrite Hgone. destruct (Database.files d !! file_path); [|reflexivity].
    destruct (negb _); reflexivity.
  - intros now io l. unfold Database.remove_processed_file.
    destruct (Database.files (Database.data l) !! file_path) eqn:Hentry.
    + unfold Database.is_processed.
      match goal with
      | |- context [Database.save ?io0 ?t ?l0] =>
          destruct (save_data io0 t l0) as [-> _]
      end.
      cbn [Database.data Database.files]. now rewrite lookup_delete_eq.
    + cbn [snd]. unfold Database.is_processed. now rewrite Hentry.
  - intros now io markdown_path summary_path duration file_size l l' Hadd.
    apply is_processed_iff.
    unfold Database.add_processed_file, Database.get_file_hash in Hadd.
    destruct (disk !! file_path) as [content|] eqn:Hfile; [|discriminate].
    apply (f_equal snd) in Hadd. cbn [snd] in Hadd. subst l'.
    eexists _, content.
    match goal with
    | |- context [Database.save ?io ?t ?l0] =>
        destruct (save_data io t l0) as [-> _]
    end.
    cbn [Database.data Database.files]. rewrite lookup_insert_eq.
    repeat split; reflexivity.
Qed.

Lemma is_processed_contract_witness :
  Database.is_processed Database.sample_digest ∅ "/vault/talk.wav"
    Database.sample_data = false
  /\ Database.is_processed Database.sample_digest Database.sample_disk
       "/vault/talk.wav" (Database.data Database.after_success) = true.
Proof.
  split.
  - apply (proj1 (proj2 (is_processed_contract Database.sample_digest ∅
                           "/vault/talk.wav"))).
    reflexivity.
  - apply (proj2 (proj2 (proj2 (is_processed_contract Database.sample_digest
                                  Database.sample_disk "/vault/talk.wav")))
             Database.sample_clock Database.SaveSucceeds
             "/vault/talk_文字起こし.md" None None None
             Database.after_failure).
    reflexivity.
Defined.

(** What [add_processed_file] does to the two counters, when the file
    can be hashed: the failure counter drops by one, not below zero,
    exactly when the prior entry was failed, and the success counter
    grows by one exactly when the prior entry was not failed. *)
Lemma add_processed_file_counters
    (md5_hexdigest : string -> string) (disk : gmap string string)
    (now : nat -> string) (io : Database.SaveIO)
    (file_path markdown_path : string) (summary_path : option string)
    (duration : option float) (file_size : option Z)
    (l : Database.Ledger) (content : string) :
  disk !! file_path = Some content ->
  let before := Database.statistics (Database.data l) in
  let after :=
    Database.statistics
      (Database.data
         (snd (Database.add_processed_file md5_hexdigest disk now io
                 file_path markdown_path summary_path duration file_size l))) in
  if Database.has_status Database.FAILED (Database.data l) file_path
  then Database.total_failed after
       = Z.max 0 (Database.total_failed before - 1)
       /\ Database.total_processed after = Database.total_processed before
  else Database.total_failed after = Database.total_failed before
       /\ Database.total_processed after
          = Database.total_processed before + 1.
Proof.
  intros Hfile before after. subst before after.
  unfold Database.add_processed_file, Database.get_file_hash.
  rewrite Hfile.
  match goal with
  | |- context [Database.save ?io0 ?t ?l0] =>
      destruct (save_data io0 t l0) as [_ ->]
  end.
  cbn [Database.data Database.statistics].
  destruct (Database.has_status Database.FAILED (Database.data l) file_path);
    cbn [negb];
    destruct duration as [x|]; cbn [Database.float_truthy];
    try destruct (negb (x =? 0)%float);
    destruct file_size as [n|]; cbn [Database.int_truthy];
    try destruct (negb (n =? 0)); split; reflexivity.
Qed.

(** C1, on the code: in a new database the recording fails with
    "network down" and is then recorded as processed.  The failure
    counter goes from 0 to 1 and back to 0; the success counter stays
    at 0 although the entry is now completed, where the claim has it
    incremented by one. *)
Lemma fail_then_success_counters :
  Database.total_failed (Database.statistics (Database.data Database.new_ledger)) = 0
  /\ Database.total_processed (Database.statistics (Database.data Database.new_ledger)) = 0
  /\ Database.total_failed (Database.statistics (Database.data Database.after_failure)) = 1
  /\ Database.total_processed (Database.statistics (Database.data Database.after_failure)) = 0
  /\ Database.has_status Database.FAILED (Database.data Database.after_failure)
       "/vault/talk.wav" = true
  /\ Database.has_status Database.COMPLETED (Database.data Database.after_success)
       "/vault/talk.wav" = true
  /\ Database.total_failed (Database.statistics (Database.data Database.after_success)) = 0
  /\ Database.total_processed (Database.statistics (Database.data Database.after_success)) = 0.
Proof. repeat split; reflexivity. Qed.

(** C8, as stated, fails: a saved ledger with one completed entry is
    saved again and the device fills up while the document is written.
    The exception is re-raised, the store that could be read back
    before can no longer be read, and loading it gives the empty
    schema. *)
Lemma failed_save_destroys_store :
  Database.load Database.sample_clock (Database.store Database.saved_ledger)
  = Database.to_json Database.sample_data
  /\ fst (Database.save (Database.DumpFails Database.disk_full)
            "2024-01-02T00:00:00" Database.saved_ledger)
     = Raise Database.disk_full
  /\ Database.store
       (snd (Database.save (Database.DumpFails Database.disk_full)
               "2024-01-02T00:00:00" Database.saved_ledger))
     <> Database.store Database.saved_ledger
  /\ Database.load Database.sample_clock
       (Database.store
          (snd (Database.save (Database.DumpFails Database.disk_full)
                  "2024-01-02T00:00:00" Database.saved_ledger)))
     = Database.to_json (Database._initialize_schema Database.sample_clock).
Proof.
  repeat split; try reflexivity. cbn. discriminate.
Qed.

(** C8, amended.  [save] writes the store in place.  A save that fails
    before the file is opened for writing (creating the directory,
    opening the file) re-raises and leaves the store as it was.  A save
    that fails once the file is open re-raises and leaves a store that
    cannot be read back, whatever it held before; the next load
    replaces it by the empty schema.  A save that succeeds leaves the
    document in memory, with its new time of update, in the store. *)
Theorem save_writes_in_place :
  forall (io : Database.SaveIO) (now : string) (l : Database.Ledger),
    match io with
    | Database.MkdirFails e | Database.OpenFails e =>
        fst (Database.save io now l) = Raise e
        /\ Database.store (snd (Database.save io now l)) = Database.store l
    | Database.DumpFails e =>
        fst (Database.save io now l) = Raise e
        /\ Database.store (snd (Database.save io now l))
           = Some Database.Unreadable
        /\ forall clock,
             Database.load clock (Database.store (snd (Database.save io now l)))
             = Database.to_json (Database._initialize_schema clock)
    | Database.SaveSucceeds =>
        fst (Database.save io now l) = Return tt
        /\ Database.store (snd (Database.save io now l))
           = Some (Database.Document
                     (Database.to_json
                        (Database.set_last_updated now (Database.data l))))
    end.
Proof. intros [|e|e|e] now l; repeat split. Qed.

(** C9, as stated, fails: a store that carries the version tag "2.0.0",
    not the supported "1.0.0", is loaded as it is, and its entry stays
    in [files]. *)
Lemma foreign_version_is_kept :
  Database.dict_lookup "version"
    (match Database.foreign_document with
     | Database.JDict items => items
     | _ => []
     end) = Some (Database.JStr "2.0.0")
  /\ Database.JStr "2.0.0" <> Database.JStr Database.SCHEMA_VERSION
  /\ Database.load Database.sample_clock
       (Some (Database.Document Database.foreign_document))
     = Database.foreign_document
  /\ Database.load Database.sample_clock
       (Some (Database.Document Database.foreign_document))
     <> Database.to_json (Database._initialize_schema Database.sample_clock)
  /\ Database.py_get "files" (Database.JDict [])
       (Database.load Database.sample_clock
          (Some (Database.Document Database.foreign_document)))
     = Return (Database.JDict
                 [("/vault/talk.wav", Database.entry_json Database.sample_entry)]).
Proof.
  repeat split; try reflexivity.
  - discriminate.
  - vm_compute. discriminate.
Qed.

(** C9, amended.  The loader replaces the store by the empty schema
    when there is no store, when the store cannot be read, when the
    document is not an object (a list, a text, a number, a boolean, a
    null), when it is the empty object, and when it is an object
    without a version tag.  The tag itself is not compared with the
    supported version: an object that has a version tag, of whatever
    value, is kept as loaded, entries included, provided its [files]
    value, when there is one, has a length; when it has none (a null,
    a number, a boolean) the empty schema replaces it. *)
Theorem load_checks_tag_presence_only :
  forall clock : nat -> string,
    Database.load clock None
    = Database.to_json (Database._initialize_schema clock)
    /\ Database.load clock (Some Database.Unreadable)
       = Database.to_json (Database._initialize_schema clock)
    /\ (forall doc,
           (forall items, doc <> Database.JDict items) ->
           Database.load clock (Some (Database.Document doc))
           = Database.to_json (Database._initialize_schema clock))
    /\ Database.load clock (Some (Database.Document (Database.JDict [])))
       = Database.to_json (Database._initialize_schema clock)
    /\ forall items : list (string * Database.json),
         (Database.dict_lookup "version" items = None ->
          Database.load clock (Some (Database.Document (Database.JDict items)))
          = Database.to_json (Database._initialize_schema clock))
         /\ (forall tag,
                Database.dict_lookup "version" items = Some tag ->
                match Database.dict_lookup "files" items with
                | Some loaded_files => Database.sized loaded_files = true
                | None => True
                end ->
                Database.load clock
                  (Some (Database.Document (Database.JDict items)))
                = Database.JDict items)
         /\ (forall tag loaded_files,
                Database.dict_lookup "version" items = Some tag ->
                Database.dict_lookup "files" items = Some loaded_files ->
                Database.sized loaded_files = false ->
                Database.load clock
                  (Some (Database.Document (Database.JDict items)))
                = Database.to_json (Database._initialize_schema clock)).
Proof.
  intros clock. split; [reflexivity|]. split; [reflexivity|].
  split; [|split; [reflexivity|]].
  - intros doc Hnot. unfold Database.load.
    destruct doc as [|b|n|x|text|elements|items];
      cbn [Database.truthy Database.py_in Database.py_get negb].
    + reflexivity.
    + destruct b; reflexivity.
    + destruct (n =? 0); reflexivity.
    + destruct (x =? 0)%float; reflexivity.
    + destruct (String.eqb text EmptyString); cbn [negb]; [reflexivity|].
      destruct (Py.contains "version" text); reflexivity.
    + destruct elements as [|element elements]; [reflexivity|]. cbn [negb].
      destruct (existsb _ (element :: elements)); reflexivity.
    + exfalso. now apply (Hnot items).
  - intros items. unfold Database.load, Database.sized.
    cbn [Database.truthy Database.py_in Database.py_get].
    repeat split.
    + intros Hnone. rewrite Hnone. destruct items; reflexivity.
    + intros tag Htag Hfiles. rewrite Htag.
      destruct items as [|item items]; [discriminate|]. cbn [negb].
      destruct (Database.dict_lookup "files" (item :: items)) as [loaded|].
      * destruct (Database.py_len loaded); [reflexivity | discriminate].
      * reflexivity.
    + intros tag loaded Htag Hfiles Hsized. rewrite Htag, Hfiles.
      destruct items as [|item items]; [reflexivity|]. cbn [negb].
      destruct (Database.py_len loaded); [discriminate | reflexivity].
Qed.

Lemma load_checks_tag_presence_only_witness :
  Database.load Database.sample_clock
    (Some (Database.Document
             (Database.JDict [("files", Database.JDict [])])))
  = Database.to_json (Database._initialize_schema Database.sample_clock)
  /\ Database.load Database.sample_clock
       (Some (Database.Document Database.foreign_document))
     = Database.foreign_document
  /\ Database.load Database.sample_clock
       (Some (Database.Document
                (Database.JDict [("version", Database.JStr "1.0.0");
                                 ("files", Database.JNull)])))
     = Database.to_json (Database._initialize_schema Database.sample_clock)
  /\ Database.load Database.sample_clock
       (Some (Database.Document
                (Database.JList [Database.JStr "version"])))
     = Database.to_json (Database._initialize_schema Database.sample_clock).
Proof.
  pose proof (load_checks_tag_presence_only Database.sample_clock)
    as (_ & _ & Hother & _ & Hobject).
  split; [|split; [|split]].
  - apply (proj1 (Hobject [("files", Database.JDict [])])).
    reflexivity.
  - apply (proj1 (proj2 (Hobject _)) (Database.JStr "2.0.0")); reflexivity.
  - apply (proj2 (proj2 (Hobject _))
             (Database.JStr "1.0.0") Database.JNull); reflexivity.
  - apply Hother. intros items. discriminate.
Defined.

(** * Further properties *)

(** ** The call envelope: schedule, recovery, fatal errors *)

Section TraceFacts.
Context {T : Type}.
Variable func : nat -> Retry.Outcome T.
Variable max_retries : Z.
Variable timeout : Z.
Variable on_retry : option (Z -> Exn -> option Exn).

Local Abbreviation retry_loop := (Retry.retry_loop func max_retries timeout on_retry).
Local Abbreviation retried_events :=
  (Retry.retried_events func max_retries timeout on_retry).

Lemma log_before_call (attempt : nat) (log : list Retry.Event) :
  (if (0 <? attempt)%nat
   then log ++ [Retry.Slept (Retry.wait_time (Z.of_nat attempt))] else log)
  ++ [Retry.Called attempt]
  = log ++ Retry.final_events attempt.
Proof.
  unfold Retry.final_events, Retry.wait_before.
  destruct (0 <? attempt)%nat; cbn; now rewrite <- ?app_assoc.
Qed.

(** The observer call after a failed attempt, for an observer that
    returns. *)
Lemma notify_log (attempt : nat) (e : Exn) (log : list Retry.Event) :
  Retry.observer_returns on_retry ->
  Retry.observed_error timeout (func attempt) = Some e ->
  Retry.notify max_retries on_retry attempt e log
  = (None, log ++ Retry.notification_after func max_retries timeout on_retry attempt).
Proof.
  unfold Retry.observer_returns, Retry.notify, Retry.notification_after.
  intros Hobs ->. destruct on_retry as [observer|].
  - destruct (Z.of_nat attempt <? max_retries - 1).
    + now rewrite Hobs.
    + now rewrite app_nil_r.
  - now rewrite app_nil_r.
Qed.

Lemma retried_events_split (attempt : nat) :
  retried_events attempt
  = Retry.final_events attempt
      ++ Retry.notification_after func max_retries timeout on_retry attempt.
Proof.
  unfold Retry.retried_events, Retry.final_events. now rewrite app_assoc.
Qed.

(** One failed attempt that is retried. *)
Lemma retry_loop_retried (attempt : nat) (remaining : list nat)
    (last_error : option Exn) (log : list Retry.Event) :
  Retry.observer_returns on_retry ->
  Retry.fails_retryably (func attempt) ->
  retry_loop (attempt :: remaining) last_error log
  = retry_loop remaining (Retry.observed_error timeout (func attempt))
      (log ++ retried_events attempt).
Proof.
  intros Hobs Hfail. cbn [Retry.retry_loop]. rewrite log_before_call.
  rewrite retried_events_split, app_assoc.
  assert (Hstep : forall e,
    Retry.observed_error timeout (func attempt) = Some e ->
    match Retry.notify max_retries on_retry attempt e
            (log ++ Retry.final_events attempt) with
    | (None, log3) => retry_loop remaining (Some e) log3
    | (Some raised, log3) => (Raise raised, log3)
    end
    = retry_loop remaining (Some e)
        ((log ++ Retry.final_events attempt)
           ++ Retry.notification_after func max_retries timeout on_retry attempt)).
  { intros e He. now rewrite (notify_log attempt e _ Hobs He). }
  unfold Retry.observed_error in *.
  destruct (func attempt) as [v|e|]; cbn in Hfail |- *.
  - contradiction.
  - specialize (Hstep e eq_refl).
    destruct (exn_class e) eqn:Hclass; try exact Hstep;
      (destruct Hfail as [Hfail|Hfail]; [discriminate|]);
      rewrite Hfail; exact Hstep.
  - exact (Hstep _ eq_refl).
Qed.

(** A run of failed attempts that are all retried. *)
Lemma retry_loop_failed_prefix (failed : list nat) :
  Retry.observer_returns on_retry ->
  (forall attempt, In attempt failed -> Retry.fails_retryably (func attempt)) ->
  forall remaining last_error log,
    retry_loop (failed ++ remaining) last_error log
    = retry_loop remaining
        (Retry.last_error_after func timeout failed last_error)
        (log ++ flat_map retried_events failed).
Proof.
  intros Hobs. induction failed as [|attempt failed IH];
    intros Hfail remaining last_error log.
  - cbn. now rewrite app_nil_r.
  - cbn [app flat_map]. rewrite retry_loop_retried; auto using in_eq.
    rewrite IH by (intros a Ha; apply Hfail; now right).
    rewrite (last_error_after_cons func timeout attempt failed last_error).
    now rewrite app_assoc.
Qed.

Lemma calls_app (log1 log2 : list Retry.Event) :
  Retry.calls (log1 ++ log2) = Retry.calls log1 ++ Retry.calls log2.
Proof. apply List.filter_app. Qed.

Lemma sleeps_app (log1 log2 : list Retry.Event) :
  Retry.sleeps (log1 ++ log2) = Retry.sleeps log1 ++ Retry.sleeps log2.
Proof. apply List.filter_app. Qed.

Lemma notifications_app (log1 log2 : list Retry.Event) :
  Retry.notifications (log1 ++ log2)
  = Retry.notifications log1 ++ Retry.notifications log2.
Proof. apply List.filter_app. Qed.

Lemma notification_after_filters (attempt : nat) :
  Retry.calls (Retry.notification_after func max_retries timeout on_retry attempt) = []
  /\ Retry.sleeps (Retry.notification_after func max_retries timeout on_retry attempt) = []
  /\ Retry.notifications (Retry.notification_after func max_retries timeout on_retry attempt)
     = Retry.notification_after func max_retries timeout on_retry attempt.
Proof.
  unfold Retry.notification_after.
  destruct on_retry; [|now cbn].
  destruct (Retry.observed_error timeout (func attempt)); [|now cbn].
  destruct (Z.of_nat attempt <? max_retries - 1); now cbn.
Qed.

Lemma final_events_filters (attempt : nat) :
  Retry.calls (Retry.final_events attempt) = [Retry.Called attempt]
  /\ Retry.sleeps (Retry.final_events attempt) = Retry.wait_before attempt
  /\ Retry.notifications (Retry.final_events attempt) = [].
Proof.
  unfold Retry.final_events, Retry.wait_before.
  destruct (0 <? attempt)%nat; now cbn.
Qed.

Lemma retried_events_filters (attempt : nat) :
  Retry.calls (retried_events attempt) = [Retry.Called attempt]
  /\ Retry.sleeps (retried_events attempt) = Retry.wait_before attempt
  /\ Retry.notifications (retried_events attempt)
     = Retry.notification_after func max_retries timeout on_retry attempt.
Proof.
  rewrite retried_events_split.
  rewrite calls_app, sleeps_app, notifications_app.
  destruct (final_events_filters attempt) as (-> & -> & ->).
  destruct (notification_after_filters attempt) as (-> & -> & ->).
  now rewrite !app_nil_r.
Qed.

Lemma flat_map_retried_filters (attempts : list nat) :
  Retry.calls (flat_map retried_events attempts) = map Retry.Called attempts
  /\ Retry.sleeps (flat_map retried_events attempts)
     = flat_map Retry.wait_before attempts
  /\ Retry.notifications (flat_map retried_events attempts)
     = flat_map (Retry.notification_after func max_retries timeout on_retry)
         attempts.
Proof.
  induction attempts as [|attempt attempts (IHc & IHs & IHn)]; [now cbn|].
  cbn [flat_map map]. rewrite calls_app, sleeps_app, notifications_app.
  destruct (retried_events_filters attempt) as (-> & -> & ->).
  now rewrite IHc, IHs, IHn.
Qed.

End TraceFacts.

Lemma wait_before_positive (k : nat) :
  forall a, (0 < a)%nat ->
    flat_map Retry.wait_before (seq a k)
    = map (fun attempt => Retry.Slept (Retry.wait_time (Z.of_nat attempt)))
        (seq a k).
Proof.
  induction k as [|k IH]; intros a Ha; [reflexivity|].
  cbn [seq flat_map map]. rewrite IH by lia. unfold Retry.wait_before.
  destruct a; [lia | reflexivity].
Qed.

Lemma wait_before_seq (k : nat) :
  flat_map Retry.wait_before (seq 0 (S k))
  = map (fun attempt => Retry.Slept (Retry.wait_time (Z.of_nat attempt)))
      (seq 1 k).
Proof. cbn [seq flat_map]. now rewrite wait_before_positive by lia. Qed.

Section RecoveryFacts.
Context {T : Type}.
Variable func : nat -> Retry.Outcome T.
Variable max_retries : Z.
Variable timeout : Z.
Variable on_retry : option (Z -> Exn -> option Exn).

Local Abbreviation notification_after :=
  (Retry.notification_after func max_retries timeout on_retry).



Lemma seq_split (k n : nat) :
  (k < n)%nat -> seq 0 n = seq 0 k ++ k :: seq (S k) (n - S k).
Proof.
  intros Hk. replace n with (k + S (n - S k))%nat at 1 by lia.
  rewrite List.seq_app. reflexivity.
Qed.

(** The run up to attempt [k], when all attempts before it fail and
    are retried. *)
Lemma retry_reaches_attempt (k : nat) :
  (k < Z.to_nat max_retries)%nat ->
  (forall i, (i < k)%nat -> Retry.fails_retryably (func i)) ->
  Retry.observer_returns on_retry ->
  Retry.retry_with_backoff func max_retries timeout on_retry
  = Retry.retry_loop func max_retries timeout on_retry
      (k :: seq (S k) (Z.to_nat max_retries - S k))
      (Retry.last_error_after func timeout (seq 0 k) None)
      (flat_map (Retry.retried_events func max_retries timeout on_retry)
         (seq 0 k)).
Proof.
  intros Hk Hfail Hobs. unfold Retry.retry_with_backoff.
  rewrite (seq_split k _ Hk).
  rewrite (retry_loop_failed_prefix func max_retries timeout on_retry
             (seq 0 k) Hobs).
  - reflexivity.
  - intros attempt Hin. apply Hfail. apply in_seq in Hin. lia.
Qed.

Lemma log_at_final_attempt (k : nat) :
  let log :=
    flat_map (Retry.retried_events func max_retries timeout on_retry) (seq 0 k)
      ++ Retry.final_events k in
  Retry.calls log = map Retry.Called (seq 0 (S k))
  /\ Retry.sleeps log
     = map (fun attempt => Retry.Slept (Retry.wait_time (Z.of_nat attempt)))
         (seq 1 k)
  /\ Retry.notifications log = flat_map notification_after (seq 0 k).
Proof.
  intros log. subst log.
  rewrite calls_app, sleeps_app, notifications_app.
  destruct (flat_map_retried_filters func max_retries timeout on_retry (seq 0 k))
    as (-> & -> & ->).
  destruct (final_events_filters k) as (-> & -> & ->).
  repeat split.
  - now rewrite seq_S, map_app.
  - rewrite <- wait_before_seq, seq_S, flat_map_app. cbn. now rewrite app_nil_r.
  - now rewrite app_nil_r.
Qed.

End RecoveryFacts.



(** X2. When the attempts before attempt [k] all fail retryably and
    attempt [k] raises an error that is neither a timeout nor
    retryable, the envelope raises that very error, not wrapped.  It
    invokes nothing after attempt [k] and does not call the observer
    for it; when [k] is the first attempt, the log holds that one
    invocation and nothing else: no wait, no observer call. *)
Theorem retry_raises_fatal_error_at_once :
  forall (T : Type) (func : nat -> Retry.Outcome T) (max_retries timeout : Z)
         (on_retry : option (Z -> Exn -> option Exn)) (k : nat) (e : Exn),
    (k < Z.to_nat max_retries)%nat ->
    (forall i, (i < k)%nat -> Retry.fails_retryably (func i)) ->
    Retry.fails_fatally (func k) e ->
    Retry.observer_returns on_retry ->
    exists log,
      Retry.retry_with_backoff func max_retries timeout on_retry
      = (Raise e, log)
      /\ Retry.calls log = map Retry.Called (seq 0 (S k))
      /\ Retry.notifications log
         = flat_map (Retry.notification_after func max_retries timeout on_retry)
             (seq 0 k)
      /\ (k = 0%nat -> log = [Retry.Called 0]).
Proof.
  intros T func max_retries timeout on_retry k e Hk Hfail (Hraise & Hclass & Hfatal) Hobs.
  eexists. split.
  - rewrite (retry_reaches_attempt func max_retries timeout on_retry k Hk Hfail Hobs).
    cbn [Retry.retry_loop]. rewrite log_before_call, Hraise.
    cbn [Retry.execute_with_timeout]. rewrite Hfatal.
    destruct (exn_class e); [contradiction | reflexivity | reflexivity].
  - destruct (log_at_final_attempt func max_retries timeout on_retry k)
      as (Hc & Hs & Hn).
    repeat split; try assumption. intros ->. reflexivity.
Qed.

Lemma retry_raises_fatal_error_at_once_witness :
  exists log,
    Retry.retry_with_backoff
      (fun _ => @Retry.Raises string (mkExn Exception_ "API key not valid"))
      5 600 (Some (fun _ _ => None))
    = (Raise (mkExn Exception_ "API key not valid"), log)
    /\ log = [Retry.Called 0].
Proof.
  destruct (retry_raises_fatal_error_at_once string
              (fun _ => Retry.Raises (mkExn Exception_ "API key not valid"))
              5 600 (Some (fun _ _ => None)) 0
              (mkExn Exception_ "API key not valid"))
    as (log & Hrun & _ & _ & Hlog).
  - vm_compute. lia.
  - intros i Hi. lia.
  - split; [reflexivity | split; [discriminate | reflexivity]].
  - intros n e. reflexivity.
  - exists log. split; [exact Hrun | now apply Hlog].
Defined.

Section ScheduleFacts.
Context {T : Type}.
Variable func : nat -> Retry.Outcome T.
Variable max_retries : Z.
Variable timeout : Z.
Variable on_retry : option (Z -> Exn -> option Exn).


(** An observer call, whatever the observer does, adds no invocation
    and no wait to the log. *)
Lemma notify_keeps_schedule (attempt : nat) (e : Exn) (log : list Retry.Event) :
  Retry.calls (snd (Retry.notify max_retries on_retry attempt e log))
  = Retry.calls log
  /\ Retry.sleeps (snd (Retry.notify max_retries on_retry attempt e log))
     = Retry.sleeps log.
Proof.
  unfold Retry.notify. destruct on_retry as [observer|]; [|now cbn].
  destruct (Z.of_nat attempt <? max_retries - 1); [|now cbn].
  cbn [snd]. rewrite calls_app, sleeps_app. cbn. now rewrite !app_nil_r.
Qed.

(** Whatever the attempts and the observer do, the loop invokes a
    prefix of the attempts it was given, each after its wait. *)
Lemma retry_loop_schedule (attempts : list nat) :
  forall last_error log,
  exists invoked skipped,
    attempts = invoked ++ skipped
    /\ Retry.calls
         (snd (Retry.retry_loop func max_retries timeout on_retry
                 attempts last_error log))
       = Retry.calls log ++ map Retry.Called invoked
    /\ Retry.sleeps
         (snd (Retry.retry_loop func max_retries timeout on_retry
                 attempts last_error log))
       = Retry.sleeps log ++ flat_map Retry.wait_before invoked.
Proof.
  induction attempts as [|attempt remaining IH]; intros last_error log.
  - exists [], []. cbn. now rewrite !app_nil_r.
  - cbn [Retry.retry_loop]. rewrite log_before_call.
    assert (Hhere :
      Retry.calls (log ++ Retry.final_events attempt)
      = Retry.calls log ++ map Retry.Called [attempt]
      /\ Retry.sleeps (log ++ Retry.final_events attempt)
         = Retry.sleeps log ++ flat_map Retry.wait_before [attempt]).
    { rewrite calls_app, sleeps_app.
      destruct (final_events_filters attempt) as (-> & -> & _).
      cbn. now rewrite app_nil_r. }
    destruct Hhere as [Hc Hs].
    assert (Hstop : forall r : Result T,
      exists invoked skipped,
        attempt :: remaining = invoked ++ skipped
        /\ Retry.calls (snd (r, log ++ Retry.final_events attempt))
           = Retry.calls log ++ map Retry.Called invoked
        /\ Retry.sleeps (snd (r, log ++ Retry.final_events attempt))
           = Retry.sleeps log ++ flat_map Retry.wait_before invoked).
    { intros r. exists [attempt], remaining. auto. }
    assert (Hgo : forall e,
      exists invoked skipped,
        attempt :: remaining = invoked ++ skipped
        /\ Retry.calls
             (snd (match Retry.notify max_retries on_retry attempt e
                           (log ++ Retry.final_events attempt) with
                   | (None, log3) =>
                       Retry.retry_loop func max_retries timeout on_retry
                         remaining (Some e) log3
                   | (Some raised, log3) => (Raise raised, log3)
                   end))
           = Retry.calls log ++ map Retry.Called invoked
        /\ Retry.sleeps
             (snd (match Retry.notify max_retries on_retry attempt e
                           (log ++ Retry.final_events attempt) with
                   | (None, log3) =>
                       Retry.retry_loop func max_retries timeout on_retry
                         remaining (Some e) log3
                   | (Some raised, log3) => (Raise raised, log3)
                   end))
           = Retry.sleeps log ++ flat_map Retry.wait_before invoked).
    { intros e.
      destruct (notify_keeps_schedule attempt e (log ++ Retry.final_events attempt))
        as [Hnc Hns].
      destruct (Retry.notify max_retries on_retry attempt e
                  (log ++ Retry.final_events attempt)) as [[raised|] log3];
        cbn [snd] in Hnc, Hns.
      - exists [attempt], remaining. cbn [snd]. rewrite Hnc, Hns. auto.
      - destruct (IH (Some e) log3) as (invoked & skipped & -> & Hic & His).
        exists (attempt :: invoked), skipped.
        rewrite Hic, His, Hnc, Hns, Hc, Hs. cbn [map flat_map app].
        rewrite <- !app_assoc. auto. }
    destruct (Retry.execute_with_timeout timeout (func attempt)) as [v|e];
      [apply Hstop|].
    destruct (exn_class e); [apply Hgo | |];
      (destruct (Retry.is_retryable_error e); [apply Hgo | apply Hstop]).
Qed.

End ScheduleFacts.





(** X5. The wait before a retry is a capped exponential: for attempt
    [1 <= a] it lies between 10 and 120 seconds, it is [10 * 2^(a-1)]
    up to the fourth retry and 120 from the fifth on, and it never
    decreases from one retry to the next. *)
Theorem wait_time_capped_exponential :
  forall a : Z,
    1 <= a ->
    10 <= Retry.wait_time a <= 120
    /\ (a <= 4 -> Retry.wait_time a = 10 * 2 ^ (a - 1))
    /\ (5 <= a -> Retry.wait_time a = 120)
    /\ (forall b, a <= b -> Retry.wait_time a <= Retry.wait_time b).
Proof.
  intros a Ha. unfold Retry.wait_time, Retry.RETRY_BACKOFF_BASE,
    Retry.MAX_RETRY_WAIT.
  assert (Hone : forall x, 1 <= x -> 1 <= 2 ^ (x - 1)).
  { intros x Hx. change 1 with (2 ^ 0) at 1.
    apply Z.pow_le_mono_r; lia. }
  assert (Hbig : forall x, 5 <= x -> 16 <= 2 ^ (x - 1)).
  { intros x Hx. change 16 with (2 ^ 4).
    apply Z.pow_le_mono_r; lia. }
  assert (Hsmall : a <= 4 -> 2 ^ (a - 1) <= 8).
  { intros Hx. change 8 with (2 ^ 3). apply Z.pow_le_mono_r; lia. }
  specialize (Hone a Ha) as Ha1.
  repeat split.
  - apply Z.min_glb; lia.
  - apply Z.le_min_r.
  - intros Hle. specialize (Hsmall Hle). apply Z.min_l. lia.
  - intros Hge. specialize (Hbig a Hge). apply Z.min_r. lia.
  - intros b Hab. apply Z.min_le_compat_r.
    apply Z.mul_le_mono_nonneg_l; [lia|].
    apply Z.pow_le_mono_r; lia.
Qed.

Lemma wait_time_capped_exponential_witness :
  10 <= Retry.wait_time 3 <= 120
  /\ Retry.wait_time 3 = 40
  /\ Retry.wait_time 3 <= Retry.wait_time 7.
Proof.
  destruct (wait_time_capped_exponential 3 ltac:(lia)) as (Hb & Hs & _ & Hm).
  split; [exact Hb|]. split; [exact (Hs ltac:(lia)) | exact (Hm 7 ltac:(lia))].
Defined.

(** ** Which errors are retried *)

Lemma string_app_assoc (a b c : string) :
  ((a ++ b) ++ c = a ++ (b ++ c))%string.
Proof.
  induction a as [|x a IH]; [reflexivity|].
  change (String x ((a ++ b) ++ c) = String x (a ++ (b ++ c)))%string.
  now f_equal.
Qed.

Lemma lower_app (a b : string) :
  Py.lower (a ++ b) = (Py.lower a ++ Py.lower b)%string.
Proof.
  induction a as [|x a IH]; [reflexivity|].
  change (String (Py.lower_char x) (Py.lower (a ++ b))
          = String (Py.lower_char x) (Py.lower a ++ Py.lower b))%string.
  now f_equal.
Qed.

(** [prefix] decides whether a string starts with another. *)
Lemma prefix_iff (sub s : string) :
  String.prefix sub s = true <-> exists post, s = (sub ++ post)%string.
Proof.
  revert s. induction sub as [|x sub IH]; intros s.
  - destruct s; split; intros _; [now exists EmptyString | reflexivity
                                  | now eexists | reflexivity].
  - destruct s as [|y s].
    + split; [discriminate | intros [post H]; discriminate].
    + change (String.prefix (String x sub) (String y s))
        with (if Ascii.ascii_dec x y then String.prefix sub s else false).
      destruct (Ascii.ascii_dec x y) as [->|Hne].
      * rewrite IH. split; intros [post H]; exists post.
        -- now subst s.
        -- change (String y s = String y (sub ++ post)%string) in H.
           now injection H.
      * split; [discriminate|]. intros [post H].
        change (String y s = String x (sub ++ post)%string) in H.
        injection H as Hxy _. congruence.
Qed.

(** [contains] decides whether a string occurs inside another. *)
Lemma contains_iff (sub s : string) :
  Py.contains sub s = true
  <-> exists pre post, s = (pre ++ sub ++ post)%string.
Proof.
  unfold Py.contains. induction s as [|c s IH].
  - destruct sub as [|x sub].
    + split; [now exists EmptyString, EmptyString | reflexivity].
    + split; [discriminate|].
      intros (pre & post & H). destruct pre; discriminate.
  - change (String.index 0 sub (String c s))
      with (if String.prefix sub (String c s) then Some 0%nat
            else match String.index 0 sub s with
                 | Some n => Some (S n)
                 | None => None
                 end).
    destruct (String.prefix sub (String c s)) eqn:Hpre.
    + split; [|reflexivity]. intros _.
      apply prefix_iff in Hpre as [post ->]. now exists EmptyString, post.
    + destruct (String.index 0 sub s) as [n|].
      * split; [|reflexivity]. intros _.
        destruct (proj1 IH eq_refl) as (pre & post & ->).
        now exists (String c pre), post.
      * split; [discriminate|]. intros (pre & post & H).
        destruct pre as [|x pre].
        -- assert (String.prefix sub (String c s) = true)
             by (apply prefix_iff; exists post; exact H).
           congruence.
        -- change (String c s = String x (pre ++ sub ++ post)%string) in H.
           injection H as _ ->.
           destruct IH as [_ IH].
           specialize (IH (ex_intro _ pre (ex_intro _ post eq_refl))).
           discriminate.
Qed.

(** X6. An error is retryable exactly when it is a [RetryableError] or
    its text, lower-cased, has one of the ten keywords somewhere inside
    it.  So a keyword in any mix of upper and lower case, anywhere in
    the text of an error of any class, makes the error retryable. *)
Theorem is_retryable_error_iff_keyword :
  (forall e : Exn,
      Retry.is_retryable_error e = true
      <-> exn_class e = RetryableError_
          \/ exists keyword pre post,
               In keyword Retry.RETRYABLE_ERROR_KEYWORDS
               /\ Py.lower (exn_str e) = (pre ++ keyword ++ post)%string)
  /\ (forall (class : ExnClass) (pre spelled post keyword : string),
         In keyword Retry.RETRYABLE_ERROR_KEYWORDS ->
         Py.lower spelled = keyword ->
         Retry.is_retryable_error (mkExn class (pre ++ spelled ++ post)) = true).
Proof.
  assert (Hiff : forall e : Exn,
      Retry.is_retryable_error e = true
      <-> exn_class e = RetryableError_
          \/ exists keyword pre post,
               In keyword Retry.RETRYABLE_ERROR_KEYWORDS
               /\ Py.lower (exn_str e) = (pre ++ keyword ++ post)%string).
  { intros e. unfold Retry.is_retryable_error.
    assert (Hkw :
      existsb (fun keyword => Py.contains keyword (Py.lower (exn_str e)))
        Retry.RETRYABLE_ERROR_KEYWORDS = true
      <-> exists keyword pre post,
            In keyword Retry.RETRYABLE_ERROR_KEYWORDS
            /\ Py.lower (exn_str e) = (pre ++ keyword ++ post)%string).
    { rewrite existsb_exists. split.
      - intros (kw & Hin & Hc). apply contains_iff in Hc as (pre & post & Hc).
        eauto.
      - intros (kw & pre & post & Hin & Hc). exists kw. split; [exact Hin|].
        apply contains_iff. eauto. }
    destruct (exn_class e); rewrite ?Hkw; split; auto;
      intros [H|H]; auto; discriminate. }
  split; [exact Hiff|].
  intros class pre spelled post keyword Hin Hlower. apply Hiff. right.
  exists keyword, (Py.lower pre), (Py.lower post). split; [exact Hin|].
  cbn [exn_str]. now rewrite !lower_app, Hlower.
Qed.

Lemma is_retryable_error_iff_keyword_witness :
  Retry.is_retryable_error
    (mkExn Exception_ "google.api: Rate Limit exceeded for project") = true.
Proof.
  apply (proj2 is_retryable_error_iff_keyword Exception_
           "google.api: " "Rate Limit" " exceeded for project" "rate limit").
  - cbn. tauto.
  - reflexivity.
Defined.

(** X7. The error of an exhausted budget carries the text of the last
    error.  So when that text made the last error retryable, the
    exhaustion error is itself retryable: an envelope around the
    exhausted call would retry it again. *)
Theorem exhaustion_error_stays_retryable :
  forall (max_retries : Z) (e : Exn),
    Retry.is_retryable_error (mkExn Exception_ (exn_str e)) = true ->
    Retry.is_retryable_error (Retry.exhausted max_retries (Some e)) = true.
Proof.
  intros max_retries e Hre.
  unfold Retry.is_retryable_error in *. cbn [exn_class exn_str Retry.exhausted] in *.
  apply existsb_exists in Hre as (keyword & Hin & Hc).
  apply existsb_exists. exists keyword. split; [exact Hin|].
  apply contains_iff in Hc as (pre & post & Hc). apply contains_iff.
  cbn [Retry.str_last_error].
  exists (Py.lower ("Maximum retries (" ++ Py.str_int max_retries
                      ++ ") reached. Last error: ") ++ pre)%string, post.
  rewrite <- !string_app_assoc, !lower_app, Hc.
  now rewrite !string_app_assoc.
Qed.

Lemma exhaustion_error_stays_retryable_witness :
  Retry.is_retryable_error
    (Retry.exhausted 5 (Some (mkExn RetryableError_ "API returned empty response")))
  = true.
Proof.
  apply (exhaustion_error_stays_retryable 5
           (mkExn RetryableError_ "API returned empty response")).
  reflexivity.
Defined.

(** ** The remote client *)

(** The envelope returns only what some attempt returned. *)
Lemma retry_loop_returns {T : Type} (func : nat -> Retry.Outcome T)
    (max_retries timeout : Z) (on_retry : option (Z -> Exn -> option Exn))
    (attempts : list nat) :
  forall last_error log v log',
    Retry.retry_loop func max_retries timeout on_retry attempts last_error log
    = (Return v, log') ->
    exists attempt, In attempt attempts /\ func attempt = Retry.Returns v.
Proof.
  induction attempts as [|attempt remaining IH]; intros last_error log v log' Hrun.
  - discriminate.
  - cbn [Retry.retry_loop] in Hrun.
    assert (Hgo : forall e log2,
      match Retry.notify max_retries on_retry attempt e log2 with
      | (None, log3) =>
          Retry.retry_loop func max_retries timeout on_retry remaining (Some e) log3
      | (Some raised, log3) => (Raise raised, log3)
      end = (Return v, log') ->
      exists a, In a (attempt :: remaining) /\ func a = Retry.Returns v).
    { intros e log2 H.
      destruct (Retry.notify max_retries on_retry attempt e log2) as [[raised|] log3];
        [discriminate|].
      destruct (IH _ _ _ _ H) as (a & Hin & Ha). exists a. split; [now right | exact Ha]. }
    destruct (func attempt) as [v0|e|] eqn:Hout;
      cbn [Retry.execute_with_timeout exn_class] in Hrun.
    + injection Hrun as -> _. exists attempt. split; [now left | exact Hout].
    + destruct (exn_class e); [eapply Hgo; exact Hrun | |];
        (destruct (Retry.is_retryable_error e);
         [eapply Hgo; exact Hrun | discriminate]).
    + eapply Hgo; exact Hrun.
Qed.

Lemma retry_invocations_le {T : Type} (func : nat -> Retry.Outcome T)
    (max_retries timeout : Z) (on_retry : option (Z -> Exn -> option Exn)) :
  (Retry.invocations
     (snd (Retry.retry_with_backoff func max_retries timeout on_retry))
   <= Z.to_nat max_retries)%nat.
Proof.
  unfold Retry.retry_with_backoff, Retry.invocations.
  destruct (retry_loop_schedule func max_retries timeout on_retry
              (seq 0 (Z.to_nat max_retries)) None [])
    as (invoked & skipped & Hsplit & Hcalls & _).
  unfold Retry.calls in Hcalls. rewrite Hcalls. cbn [List.filter app].
  rewrite List.length_map.
  apply (f_equal (@length nat)) in Hsplit.
  rewrite List.length_seq, List.length_app in Hsplit. lia.
Qed.

Lemma invocations_app (log1 log2 : list Retry.Event) :
  Retry.invocations (log1 ++ log2)
  = (Retry.invocations log1 + Retry.invocations log2)%nat.
Proof.
  unfold Retry.invocations. now rewrite List.filter_app, List.length_app.
Qed.

(** What [generate] returns is never empty. *)
Lemma generate_returns_text (remote : Client.Remote) (use_model prompt : string)
    (file : option string) (attempt : nat) (text : string) :
  Client.generate remote use_model prompt file attempt = Retry.Returns text ->
  text <> EmptyString.
Proof.
  unfold Client.generate.
  destruct (Client.models_generate remote attempt use_model prompt file)
    as [[t|]|e|]; try discriminate.
  destruct (String.eqb t EmptyString) eqn:Ht; [discriminate|].
  intros H. injection H as <-. now apply String.eqb_neq.
Qed.

Lemma generate_content_returns_text (remote : Client.Remote) (prompt : string)
    (file model : option string) (text : string) (log : list Retry.Event) :
  Client.generate_content remote prompt file model = (Return text, log) ->
  text <> EmptyString.
Proof.
  unfold Client.generate_content, Retry.retry_with_backoff. intros Hrun.
  apply retry_loop_returns in Hrun as (attempt & _ & Hgen).
  exact (generate_returns_text _ _ _ _ _ _ Hgen).
Qed.

(** X8. The client never hands back an empty text: whatever
    [generate_content], [transcribe_audio] or [summarize_text] return
    is a non-empty string, because a response without text is turned
    into a retryable error. *)
Theorem client_never_returns_empty_text :
  forall (remote : Client.Remote) (text : string) (log : list Retry.Event),
    (forall prompt file model,
        Client.generate_content remote prompt file model = (Return text, log) ->
        text <> EmptyString)
    /\ (forall audio_path segment_info,
           Client.transcribe_audio remote audio_path segment_info
           = (Return text, log) ->
           text <> EmptyString)
    /\ (forall transcription context,
           Client.summarize_text remote transcription context
           = (Return text, log) ->
           text <> EmptyString).
Proof.
  intros remote text log. split; [|split].
  - intros prompt file model. apply generate_content_returns_text.
  - intros audio_path segment_info. unfold Client.transcribe_audio.
    destruct (Client.upload_file remote audio_path) as [[audio_file|e] upload_log];
      [|discriminate].
    destruct (Client.generate_content remote _ (Some audio_file) _)
      as [r generate_log] eqn:Hgen.
    intros H. injection H as -> _.
    exact (generate_content_returns_text _ _ _ _ _ _ Hgen).
  - intros transcription context. apply generate_content_returns_text.
Qed.

Lemma client_never_returns_empty_text_witness :
  fst (Client.transcribe_audio Client.helpful_remote "/vault/talk.wav" None)
  = Return "こんにちは"
  /\ "こんにちは" <> EmptyString.
Proof.
  split; [reflexivity|].
  apply (proj1 (proj2 (client_never_returns_empty_text Client.helpful_remote
                         "こんにちは"
                         (snd (Client.transcribe_audio Client.helpful_remote
                                 "/vault/talk.wav" None))))
           "/vault/talk.wav" None).
  reflexivity.
Defined.

(** X9. When the service answers every attempt of the budget with a
    response that has no text or an empty one, [generate_content]
    raises after exactly five invocations, and its error says that the
    budget of 5 is spent on an empty response. *)
Theorem empty_responses_exhaust_budget :
  forall (remote : Client.Remote) (prompt : string) (file model : option string),
    (forall attempt use_model,
        (attempt < 5)%nat ->
        Client.is_empty_response
          (Client.models_generate remote attempt use_model prompt file)) ->
    fst (Client.generate_content remote prompt file model)
    = Raise (mkExn Exception_
               "Maximum retries (5) reached. Last error: API returned empty response")
    /\ Retry.invocations (snd (Client.generate_content remote prompt file model))
       = 5%nat.
Proof.
  intros remote prompt file model Hempty.
  unfold Client.generate_content, Retry.retry_with_backoff.
  set (use_model := match model with
                    | Some m => if String.eqb m EmptyString
                                then Client.SUMMARY_MODEL else m
                    | None => Client.SUMMARY_MODEL
                    end).
  assert (Hgen : forall attempt, (attempt < 5)%nat ->
            Client.generate remote use_model prompt file attempt
            = Retry.Raises Client.empty_response).
  { intros attempt Hlt. unfold Client.generate.
    destruct (Hempty attempt use_model Hlt) as [-> | ->]; reflexivity. }
  destruct (retry_loop_all_fail (Client.generate remote use_model prompt file)
              Retry.MAX_RETRIES Retry.DEFAULT_TIMEOUT None
              (seq 0 (Z.to_nat Retry.MAX_RETRIES)) I) with (last_error := @None Exn)
              (log := @nil Retry.Event) as (log & Hrun & Hcalls).
  { intros attempt Hin. apply in_seq in Hin.
    change (Z.to_nat Retry.MAX_RETRIES) with 5%nat in Hin.
    rewrite Hgen by lia. right. reflexivity. }
  rewrite Hrun. cbn [fst snd]. split.
  - unfold Retry.exhausted, Retry.last_error_after.
    change (rev (seq 0 (Z.to_nat Retry.MAX_RETRIES))) with [4; 3; 2; 1; 0]%nat.
    unfold Retry.observed_error. rewrite Hgen by lia. reflexivity.
  - unfold Retry.invocations. rewrite Hcalls. reflexivity.
Qed.

Lemma empty_responses_exhaust_budget_witness :
  fst (Client.generate_content Client.silent_remote "prompt" None None)
  = Raise (mkExn Exception_
             "Maximum retries (5) reached. Last error: API returned empty response")
  /\ Retry.invocations
       (snd (Client.generate_content Client.silent_remote "prompt" None None))
     = 5%nat.
Proof.
  apply (empty_responses_exhaust_budget Client.silent_remote "prompt" None None).
  intros attempt use_model _. right. reflexivity.
Defined.

(** X10. One [transcribe_audio] makes at most ten remote calls: at
    most five uploads and at most five generations.  When the upload
    does not return, its error is the error of [transcribe_audio], and
    no generation is attempted. *)
Theorem transcribe_audio_call_budget :
  forall (remote : Client.Remote) (audio_path : string)
         (segment_info : option (float * float)),
    (Retry.invocations
       (snd (Client.transcribe_audio remote audio_path segment_info))
     <= 10)%nat
    /\ (forall e,
           fst (Client.upload_file remote audio_path) = Raise e ->
           Client.transcribe_audio remote audio_path segment_info
           = Client.upload_file remote audio_path
           /\ fst (Client.transcribe_audio remote audio_path segment_info)
              = Raise e).
Proof.
  intros remote audio_path segment_info. unfold Client.transcribe_audio.
  pose proof (retry_invocations_le
                (fun attempt => Client.files_upload remote attempt audio_path)
                Retry.MAX_RETRIES Retry.DEFAULT_TIMEOUT None) as Hup.
  fold (Client.upload_file remote audio_path) in Hup.
  destruct (Client.upload_file remote audio_path) as [[audio_file|e0] upload_log].
  - split; [|intros e H; discriminate].
    unfold Client.generate_content.
    match goal with
    | |- context [Retry.retry_with_backoff ?f ?m ?t ?o] =>
        pose proof (retry_invocations_le f m t o) as Hgen;
        destruct (Retry.retry_with_backoff f m t o) as [r generate_log]
    end.
    cbn [snd] in *. rewrite invocations_app.
    change (Z.to_nat Retry.MAX_RETRIES) with 5%nat in *. lia.
  - cbn [snd fst] in *. change (Z.to_nat Retry.MAX_RETRIES) with 5%nat in *.
    split; [lia|]. intros e H. injection H as <-. auto.
Qed.

Lemma transcribe_audio_call_budget_witness :
  Client.transcribe_audio Client.offline_remote "/vault/talk.wav" None
  = Client.upload_file Client.offline_remote "/vault/talk.wav"
  /\ fst (Client.transcribe_audio Client.offline_remote "/vault/talk.wav" None)
     = Raise (mkExn Exception_
                "Maximum retries (5) reached. Last error: 503 Service Unavailable").
Proof.
  apply (proj2 (transcribe_audio_call_budget Client.offline_remote
                  "/vault/talk.wav" None)).
  reflexivity.
Defined.

(** ** The grouper: shape and order of the groups *)

Section GroupShape.
Context {T : Type}.
Variable sub : T -> T -> T.
Variable leb : T -> T -> bool.
Variable max_duration : T.

Local Abbreviation greedy_from := (VAD.greedy_from sub leb max_duration).

Lemma final_end_last (rest : list (timestamp T)) :
  forall (t0 d : timestamp T),
    ts_end (List.last (t0 :: rest) d) = VAD.final_end (ts_end t0) rest.
Proof.
  induction rest as [|t rest IH]; intros t0 d; [reflexivity|].
  change (List.last (t0 :: t :: rest) d) with (List.last (t :: rest) d).
  apply IH.
Qed.

(** The greedy recursion emits at least one group and at most one per
    interval; the first group starts at the current start and the last
    one ends where the last interval ends. *)
Lemma greedy_from_bounds (rest : list (timestamp T)) :
  forall cs ce,
  exists e groups,
    greedy_from cs ce rest = (cs, e) :: groups
    /\ (length groups <= length rest)%nat
    /\ forall d, snd (List.last ((cs, e) :: groups) d) = VAD.final_end ce rest.
Proof.
  induction rest as [|t rest IH]; intros cs ce.
  - exists ce, []. cbn. auto.
  - cbn [VAD.greedy_from VAD.final_end].
    destruct (leb (sub (ts_end t) cs) max_duration).
    + destruct (IH cs (ts_end t)) as (e & groups & -> & Hlen & Hlast).
      exists e, groups. cbn [length]. repeat split; [lia | exact Hlast].
    + destruct (IH (ts_start t) (ts_end t)) as (e & groups & -> & Hlen & Hlast).
      exists ce, ((ts_start t, e) :: groups). cbn [length].
      repeat split; [lia|]. intros d.
      change (List.last ((cs, ce) :: (ts_start t, e) :: groups) d)
        with (List.last ((ts_start t, e) :: groups) d).
      apply Hlast.
Qed.

Hypothesis leb_trans :
  forall a b c, leb a b = true -> leb b c = true -> leb a c = true.

(** Over disjoint intervals in order, the groups are disjoint and in
    order, and the last one ends no earlier than the current end. *)
Lemma greedy_from_in_order (rest : list (timestamp T)) :
  forall cs ce,
    leb cs ce = true ->
    VAD.intervals_follow leb ce rest ->
    VAD.groups_in_order leb (greedy_from cs ce rest).
Proof.
  induction rest as [|t rest IH]; intros cs ce Hcs Hrest.
  - cbn. auto.
  - destruct Hrest as (Hgap & Hspan & Hrest). cbn [VAD.greedy_from].
    destruct (leb (sub (ts_end t) cs) max_duration).
    + apply IH; [|exact Hrest]. eauto.
    + specialize (IH (ts_start t) (ts_end t) Hspan Hrest).
      destruct (greedy_from_bounds rest (ts_start t) (ts_end t))
        as (e & groups & Heq & _ & _).
      rewrite Heq in IH |- *. destruct IH as [Hse Hfollow].
      cbn in Hse, Hfollow |- *. auto.
Qed.

End GroupShape.

(** X11. For a non-empty list of timestamps the grouper emits at least
    one group and at most one per timestamp.  The first group starts
    where the first timestamp starts and the last group ends where the
    last timestamp ends. *)
Theorem group_segments_bounds :
  forall (T : Type) (sub : T -> T -> T) (leb : T -> T -> bool)
         (t0 : timestamp T) (rest : list (timestamp T)) (max_duration : T),
  exists first_end groups,
    VAD._group_segments sub leb (t0 :: rest) max_duration
    = (ts_start t0, first_end) :: groups
    /\ (1 <= length (VAD._group_segments sub leb (t0 :: rest) max_duration)
        <= length (t0 :: rest))%nat
    /\ snd (List.last (VAD._group_segments sub leb (t0 :: rest) max_duration)
              (ts_start t0, first_end))
       = ts_end (List.last (t0 :: rest) t0).
Proof.
  intros T sub leb t0 rest max_duration. rewrite group_segments_greedy.
  cbn [VAD.greedy_merge].
  destruct (greedy_from_bounds sub leb max_duration rest (ts_start t0) (ts_end t0))
    as (e & groups & -> & Hlen & Hlast).
  exists e, groups. split; [reflexivity|]. split; [cbn [length]; lia|].
  rewrite Hlast. symmetry. apply final_end_last.
Qed.

(** X12. When the timestamps are disjoint and in temporal order (each
    ends no earlier than it starts and starts no earlier than the one
    before it ended), so are the emitted groups.  The order on times
    has to be transitive. *)
Theorem groups_keep_temporal_order :
  forall (T : Type) (sub : T -> T -> T) (leb : T -> T -> bool),
    (forall a b c, leb a b = true -> leb b c = true -> leb a c = true) ->
    forall (timestamps : list (timestamp T)) (max_duration : T),
      VAD.disjoint_in_order leb timestamps ->
      VAD.groups_in_order leb
        (VAD._group_segments sub leb timestamps max_duration).
Proof.
  intros T sub leb Htrans timestamps max_duration Hts.
  rewrite group_segments_greedy.
  destruct timestamps as [|t0 rest]; [exact I|].
  destruct Hts as [Hspan Hrest]. cbn [VAD.greedy_merge].
  now apply greedy_from_in_order.
Qed.

Lemma groups_keep_temporal_order_witness :
  VAD.groups_in_order Z.leb
    (VAD._group_segments Z.sub Z.leb
       [mkTimestamp 0 5; mkTimestamp 5 12; mkTimestamp 40 45] 20).
Proof.
  apply (groups_keep_temporal_order Z Z.sub Z.leb).
  - intros a b c Hab Hbc. apply Z.leb_le. apply Z.leb_le in Hab, Hbc. lia.
  - cbn. repeat split.
Defined.

(** ** Segment files *)

(** The loop of [_create_audio_segments] never removes a file, and
    every temporary file it has created is there when it stops,
    whether it returns or raises. *)
Lemma create_segments_loop_files (env : Env) (audio : string)
    (segments : list (float * float)) :
  forall i temp_files w outcome w',
    VAD.create_segments_loop env audio i segments temp_files w = (outcome, w') ->
    (forall q, is_Some (fs w !! q) -> is_Some (fs w' !! q))
    /\ (tmp_count w <= tmp_count w' <= tmp_count w + length segments)%nat
    /\ vad_model w' = vad_model w
    /\ forall j, (j < tmp_count w' - tmp_count w)%nat ->
                 is_Some (fs w' !! tmp_name env (tmp_count w + j)
                                     (VAD.segment_suffix (i + j))).
Proof.
  assert (Hstay : forall i (w : World) (n : nat),
             (forall q, is_Some (fs w !! q) -> is_Some (fs w !! q))
             /\ (tmp_count w <= tmp_count w <= tmp_count w + n)%nat
             /\ vad_model w = vad_model w
             /\ forall j, (j < tmp_count w - tmp_count w)%nat ->
                          is_Some (fs w !! tmp_name env (tmp_count w + j)
                                              (VAD.segment_suffix (i + j)))).
  { intros i w n. split; [auto|]. split; [lia|]. split; [reflexivity|].
    intros j Hj. lia. }
  induction segments as [|[start end_] rest IH];
    intros i temp_files w outcome w' Hrun.
  - cbn in Hrun. injection Hrun as _ <-. apply Hstay.
  - cbn [VAD.create_segments_loop] in Hrun. unfold bind at 1, lift at 1 in Hrun.
    destruct (Py.int_of_float (start * 1000)%float) as [start_ms|e];
      [|injection Hrun as _ <-; apply Hstay].
    unfold bind at 1, lift at 1 in Hrun.
    destruct (Py.int_of_float (end_ * 1000)%float) as [end_ms|e];
      [|injection Hrun as _ <-; apply Hstay].
    unfold bind at 1, NamedTemporaryFile at 1 in Hrun.
    fold (VAD.segment_suffix i) in Hrun.
    set (name := tmp_name env (tmp_count w) (VAD.segment_suffix i)) in *.
    unfold bind at 1, lift at 1 in Hrun.
    destruct (export_wav env (slice env audio start_ms end_ms)) as [bytes|e].
    + unfold bind at 1, write_file at 1, set_fs in Hrun.
      cbn [fs tmp_count vad_model] in Hrun.
      apply IH in Hrun as (Hkeep & Hcount & Hmodel & Hnew).
      cbn [snd fs tmp_count vad_model length] in *.
      split; [|split; [lia|split; [exact Hmodel|]]].
      * intros q Hq. apply Hkeep.
        destruct (decide (name = q)) as [->|Hne];
          [rewrite lookup_insert_eq; eauto|].
        rewrite !lookup_insert_ne by exact Hne. exact Hq.
      * intros j Hj. destruct j as [|j].
        -- rewrite !Nat.add_0_r. apply Hkeep. fold name.
           rewrite lookup_insert_eq. eauto.
        -- replace (tmp_count w + S j)%nat with (S (tmp_count w) + j)%nat by lia.
           replace (i + S j)%nat with (S i + j)%nat by lia.
           apply Hnew. lia.
    + injection Hrun as _ <-. cbn [snd fs tmp_count vad_model length].
      split; [|split; [lia|split; [reflexivity|]]].
      * intros q Hq. destruct (decide (name = q)) as [->|Hne];
          [rewrite lookup_insert_eq; eauto|].
        now rewrite lookup_insert_ne.
      * intros j Hj. assert (j = 0%nat) as -> by lia.
        rewrite !Nat.add_0_r. fold name. rewrite lookup_insert_eq. eauto.
Qed.

(** When the loop returns, it has appended one segment per group, with
    the times of the group, at the path of the temporary file it
    created for it. *)
Lemma create_segments_loop_result (env : Env) (audio : string)
    (segments : list (float * float)) :
  forall i temp_files w result w',
    VAD.create_segments_loop env audio i segments temp_files w
    = (Return result, w') ->
    exists new,
      result = temp_files ++ new
      /\ map VAD.segment_times new = segments
      /\ tmp_count w' = (tmp_count w + length segments)%nat
      /\ forall j segment,
           new !! j = Some segment ->
           snd segment
           = tmp_name env (tmp_count w + j) (VAD.segment_suffix (i + j)).
Proof.
  induction segments as [|[start end_] rest IH]; intros i temp_files w result w' Hrun.
  - cbn in Hrun. injection Hrun as <- <-. exists []. rewrite app_nil_r.
    repeat split; auto. intros j segment H. destruct j; discriminate.
  - cbn [VAD.create_segments_loop] in Hrun. unfold bind at 1, lift at 1 in Hrun.
    destruct (Py.int_of_float (start * 1000)%float) as [start_ms|e];
      [|discriminate].
    unfold bind at 1, lift at 1 in Hrun.
    destruct (Py.int_of_float (end_ * 1000)%float) as [end_ms|e];
      [|discriminate].
    unfold bind at 1, NamedTemporaryFile at 1 in Hrun.
    fold (VAD.segment_suffix i) in Hrun.
    unfold bind at 1, lift at 1 in Hrun.
    destruct (export_wav env (slice env audio start_ms end_ms)) as [bytes|e];
      [|discriminate].
    unfold bind at 1, write_file at 1, set_fs in Hrun.
    cbn [fs tmp_count vad_model] in Hrun.
    apply IH in Hrun as (new & -> & Htimes & Hcount & Hpaths).
    cbn [tmp_count] in Hcount, Hpaths.
    exists ((start, end_, tmp_name env (tmp_count w) (VAD.segment_suffix i)) :: new).
    repeat split.
    + now rewrite <- app_assoc.
    + cbn [map]. now rewrite Htimes.
    + cbn [length]. lia.
    + intros j segment Hj. destruct j as [|j].
      * cbn in Hj. injection Hj as <-. now rewrite !Nat.add_0_r.
      * change (new !! j = Some segment) in Hj.
        rewrite (Hpaths j segment Hj). f_equal; [lia | f_equal; lia].
Qed.

(** X13. When [_create_audio_segments] returns, its list has one
    segment per group, in order, with the start and end of the group
    unchanged; segment [j] is at the path of the [j]-th temporary file
    created, whose name ends in [_segment_j.wav], and that file
    exists. *)
Theorem create_audio_segments_result :
  forall (env : Env) (audio_path : string) (segments : list (float * float))
         (w w' : World) (result : list VAD.Segment),
    VAD._create_audio_segments env audio_path segments w = (Return result, w') ->
    map VAD.segment_times result = segments
    /\ length result = length segments
    /\ tmp_count w' = (tmp_count w + length segments)%nat
    /\ forall j segment,
         result !! j = Some segment ->
         snd segment = tmp_name env (tmp_count w + j) (VAD.segment_suffix j)
         /\ is_Some (fs w' !! snd segment).
Proof.
  intros env audio_path segments w w' result Hrun.
  unfold VAD._create_audio_segments, bind, lift in Hrun.
  destruct (from_file env audio_path) as [audio|e]; [|discriminate].
  destruct (create_segments_loop_files env audio segments 0 [] w _ _ Hrun)
    as (_ & _ & _ & Hexist).
  apply create_segments_loop_result in Hrun as (new & -> & Htimes & Hcount & Hpaths).
  cbn [app]. repeat split; try assumption.
  - rewrite <- Htimes. now rewrite List.length_map.
  - now apply Hpaths.
  - rewrite (Hpaths j segment H). apply (Hexist j).
    apply lookup_lt_Some in H.
    rewrite <- Htimes, List.length_map in Hcount.
    unfold VAD.Segment in *. lia.
Qed.

Lemma create_audio_segments_result_witness :
  map VAD.segment_times
    (match fst (VAD._create_audio_segments Service.sample_env "/vault/talk.wav"
                  [(0, 100); (700, 800)]%float Service.sample_world) with
     | Return result => result
     | Raise _ => []
     end)
  = [(0, 100); (700, 800)]%float.
Proof.
  destruct (VAD._create_audio_segments Service.sample_env "/vault/talk.wav"
              [(0, 100); (700, 800)]%float Service.sample_world)
    as [[result|e] w'] eqn:Hrun.
  - apply (create_audio_segments_result Service.sample_env "/vault/talk.wav"
             _ Service.sample_world w' result Hrun).
  - vm_compute in Hrun. discriminate.
Defined.

(** X14. [_create_audio_segments] removes no file, and the temporary
    files it has created are all still there when it stops.  So when
    it raises part-way (a time that is not finite, an export that
    fails), the segment files written so far are left on disk. *)
Theorem create_audio_segments_leaves_files :
  forall (env : Env) (audio_path : string) (segments : list (float * float))
         (w w' : World) (outcome : Result (list VAD.Segment)),
    VAD._create_audio_segments env audio_path segments w = (outcome, w') ->
    (forall q, is_Some (fs w !! q) -> is_Some (fs w' !! q))
    /\ (tmp_count w <= tmp_count w' <= tmp_count w + length segments)%nat
    /\ forall j,
         (j < tmp_count w' - tmp_count w)%nat ->
         is_Some (fs w' !! tmp_name env (tmp_count w + j) (VAD.segment_suffix j)).
Proof.
  intros env audio_path segments w w' outcome Hrun.
  unfold VAD._create_audio_segments, bind, lift in Hrun.
  destruct (from_file env audio_path) as [audio|e].
  - destruct (create_segments_loop_files env audio segments 0 [] w _ _ Hrun)
      as (Hkeep & Hcount & _ & Hnew).
    split; [exact Hkeep|]. split; [exact Hcount|]. exact Hnew.
  - injection Hrun as _ <-. split; [auto|]. split; [lia|]. intros j Hj. lia.
Qed.

(** A second group whose start is not finite: the conversion to
    milliseconds raises, and the file of the first group stays
    behind. *)
Lemma create_audio_segments_leaves_files_witness :
  fst (VAD._create_audio_segments Service.sample_env "/vault/talk.wav"
         [(0, 100); (infinity, 800)]%float Service.sample_world)
  = Raise (mkExn Exception_ "cannot convert float infinity to integer")
  /\ is_Some
       (fs (snd (VAD._create_audio_segments Service.sample_env "/vault/talk.wav"
                   [(0, 100); (infinity, 800)]%float Service.sample_world))
        !! tmp_name Service.sample_env
             (tmp_count Service.sample_world + 0) (VAD.segment_suffix 0)).
Proof.
  split; [vm_compute; reflexivity|].
  destruct (VAD._create_audio_segments Service.sample_env "/vault/talk.wav"
              [(0, 100); (infinity, 800)]%float Service.sample_world)
    as [outcome w'] eqn:Hrun.
  apply (create_audio_segments_leaves_files _ _ _ _ _ _ Hrun).
  vm_compute in Hrun. injection Hrun as _ <-. cbn. lia.
Defined.

(** ** The temporary WAV copy *)

(** Whatever [try: body finally: cleanup] returns was returned by
    [body]. *)
Lemma try_finally_returns {A} (body : M A) (cleanup : M unit)
    (w w' : World) (a : A) :
  try_finally body cleanup w = (Return a, w') ->
  exists w1, body w = (Return a, w1).
Proof.
  unfold try_finally. destruct (body w) as [r w1].
  destruct (cleanup w1) as [[[]|e] w2]; intros H; [|discriminate].
  injection H as -> _. now exists w1.
Qed.

(** The [finally] clause of [split_audio] leaves no file at the path
    of the temporary WAV copy. *)
Lemma wav_cleanup_removes {A} (body : M A) (p : string) (w w' : World)
    (outcome : Result A) :
  p <> EmptyString ->
  try_finally body
    (present <- path_exists p ;;
     if negb (String.eqb p EmptyString) && present then os_remove p
     else ret tt) w = (outcome, w') ->
  fs w' !! p = None.
Proof.
  intros Hname. unfold try_finally. destruct (body w) as [r w1].
  unfold bind, path_exists, os_remove, ret.
  apply String.eqb_neq in Hname. rewrite Hname. cbn [negb andb].
  destruct (fs w1 !! p) as [content|] eqn:Hp.
  - rewrite bool_decide_eq_true_2 by eauto. rewrite Hp.
    intros H. injection H as _ <-. apply lookup_delete_eq.
  - rewrite bool_decide_eq_false_2 by (intros [x Hx]; discriminate).
    intros H. injection H as _ <-. exact Hp.
Qed.

(** X15. For a source that is not a [.wav] file, [split_audio] first
    writes a WAV copy to a temporary file.  When the export of the copy
    returns, the temporary file is gone when [split_audio] stops,
    whether it returns or raises.  When the export raises, the
    temporary file created for it is left behind: it was created
    before the [try] block. *)
Theorem split_audio_temporary_wav :
  forall (env : Env) (audio_path : string) (max_duration : float) (w : World)
         (audio : string),
    Py.endswith (Py.lower audio_path) ".wav" = false ->
    (vad_model w = false -> load_silero_vad env = Return tt) ->
    from_file env audio_path = Return audio ->
    tmp_name env (tmp_count w) ".wav" <> EmptyString ->
    match export_wav env audio with
    | Return _ =>
        fs (snd (VAD.split_audio env audio_path max_duration w))
        !! tmp_name env (tmp_count w) ".wav" = None
    | Raise e =>
        fst (VAD.split_audio env audio_path max_duration w) = Raise e
        /\ is_Some
             (fs (snd (VAD.split_audio env audio_path max_duration w))
              !! tmp_name env (tmp_count w) ".wav")
    end.
Proof.
  intros env audio_path max_duration w audio Hext Hload Hfrom Hname.
  destruct (VAD.split_audio env audio_path max_duration w) as [outcome w']
    eqn:Hrun.
  cbn [fst snd].
  unfold VAD.split_audio in Hrun. rewrite Hext in Hrun. cbn [negb] in Hrun.
  unfold bind at 1, VAD._ensure_model in Hrun.
  assert (Hmodel : exists w0,
    (if vad_model w then (Return tt, w)
     else match load_silero_vad env with
          | Return _ => (Return tt, mkWorld (fs w) (tmp_count w) true)
          | Raise e => (Raise e, w)
          end) = (Return tt, w0)
    /\ fs w0 = fs w /\ tmp_count w0 = tmp_count w).
  { destruct (vad_model w) eqn:Hm; [now exists w|].
    rewrite (Hload eq_refl). now eexists. }
  destruct Hmodel as (w0 & Hensure & Hfs0 & Hcount0).
  rewrite Hensure in Hrun.
  unfold bind at 1 in Hrun. unfold bind at 1, lift at 1 in Hrun.
  rewrite Hfrom in Hrun.
  unfold bind at 1, NamedTemporaryFile at 1 in Hrun. rewrite Hcount0 in Hrun.
  set (name := tmp_name env (tmp_count w) ".wav") in *.
  unfold bind at 1, lift at 1 in Hrun.
  destruct (export_wav env audio) as [bytes|e].
  - unfold bind at 1, write_file at 1, ret at 1 in Hrun.
    exact (wav_cleanup_removes _ _ _ _ _ Hname Hrun).
  - injection Hrun as <- <-. cbn [fs]. split; [reflexivity|].
    rewrite lookup_insert_eq. eauto.
Qed.

Lemma split_audio_temporary_wav_witness :
  fs (snd (VAD.split_audio Service.sample_env "/vault/talk.m4a"
             VAD.MAX_SEGMENT_DURATION Service.sample_world))
  !! "/tmp/tmp0.wav" = None.
Proof.
  apply (split_audio_temporary_wav Service.sample_env "/vault/talk.m4a"
           VAD.MAX_SEGMENT_DURATION Service.sample_world "pcm").
  - reflexivity.
  - reflexivity.
  - reflexivity.
  - discriminate.
Defined.

(** ** The files of a segmented transcription *)

(** After the loop no segment file is left. *)
Lemma transcribe_segments_removes (env : Env) (segments : list VAD.Segment) :
  forall i transcriptions w p,
    In p (map Service.segment_path segments) ->
    fs (snd (Service.transcribe_segments env i segments transcriptions w)) !! p
    = None.
Proof.
  induction segments as [|segment rest IH]; intros i transcriptions w p Hp.
  - destruct Hp.
  - cbn [Service.transcribe_segments]. unfold bind at 1.
    destruct (transcribe_segment_run env i segment w) as (w1 & -> & Hfs1).
    destruct (in_dec string_dec p (map Service.segment_path rest)) as [Hin|Hout].
    + now apply IH.
    + destruct (transcribe_segments_run env rest (S i)
                  (transcriptions ++ [Service.segment_block env i segment]) w1)
        as (w2 & -> & Hframe).
      cbn [snd]. rewrite (Hframe p Hout), Hfs1.
      destruct Hp as [<-|Hp]; [apply lookup_delete_eq | contradiction].
Qed.

(** X16. When the split returns, the segmented transcription returns
    too, and afterwards none of the segment files exists: each one is
    removed in the [finally] clause of its iteration, whether its call
    returned or raised.  No path other than those of the segments is
    created, changed or removed by the loop. *)
Theorem segment_files_are_removed :
  forall (env : Env) (audio_path : string) (w w1 : World)
         (segments : list VAD.Segment),
    VAD.split_audio env audio_path VAD.MAX_SEGMENT_DURATION w
    = (Return segments, w1) ->
    exists text w2,
      Service._transcribe_with_vad env audio_path w = (Return text, w2)
      /\ (forall segment,
             In segment segments ->
             fs w2 !! Service.segment_path segment = None)
      /\ (forall p,
             ~ In p (map Service.segment_path segments) ->
             fs w2 !! p = fs w1 !! p).
Proof.
  intros env audio_path w w1 segments Hsplit.
  pose proof (transcribe_segments_removes env segments 0 [] w1) as Hgone.
  destruct (transcribe_segments_run env segments 0 [] w1) as (w2 & Hrun & Hframe).
  rewrite Hrun in Hgone. cbn [snd] in Hgone.
  exists (Py.join Py.blank_line (Service.segment_blocks env 0 segments)), w2.
  split; [|split].
  - unfold Service._transcribe_with_vad, bind. rewrite Hsplit, Hrun.
    reflexivity.
  - intros segment Hin. apply Hgone. now apply in_map.
  - exact Hframe.
Qed.

Lemma segment_files_are_removed_witness :
  exists text w2,
    Service._transcribe_with_vad Service.sample_env "/vault/talk.wav"
      Service.sample_world = (Return text, w2)
    /\ fs w2 !! "/tmp/tmp1_segment_1.wav" = None
    /\ fs w2 !! "/vault/talk.wav" = Some "RIFF".
Proof.
  destruct (segment_files_are_removed Service.sample_env "/vault/talk.wav"
              Service.sample_world
              (snd (VAD.split_audio Service.sample_env "/vault/talk.wav"
                      VAD.MAX_SEGMENT_DURATION Service.sample_world))
              [ (0, 100, "/tmp/tmp0_segment_0.wav");
                (700, 800, "/tmp/tmp1_segment_1.wav");
                (1500, 1600, "/tmp/tmp2_segment_2.wav") ]%float)
    as (text & w2 & Hrun & Hgone & Hframe).
  - reflexivity.
  - exists text, w2. split; [exact Hrun|]. split.
    + apply (Hgone (700, 800, "/tmp/tmp1_segment_1.wav")%float).
      cbn. auto.
    + rewrite Hframe; [reflexivity|].
      cbn. intros [H|[H|[H|[]]]]; discriminate.
Defined.

(** ** The text of a transcription is never empty *)

Lemma failure_placeholder_not_empty (i : nat) (e : Exn) :
  Service.failure_placeholder i e <> EmptyString.
Proof.
  unfold Service.failure_placeholder.
  match goal with
  | |- (String ?c ?s ++ ?t)%string <> _ =>
      change (String c (s ++ t)%string <> EmptyString)
  end.
  discriminate.
Qed.

Lemma join_not_empty (sep x : string) (parts : list string) :
  x <> EmptyString -> Py.join sep (x :: parts) <> EmptyString.
Proof.
  intros Hx. unfold Py.join. cbn [String.concat].
  destruct parts as [|y parts]; [exact Hx|].
  destruct x as [|c x]; [contradiction|].
  change (String c (x ++ sep ++ String.concat sep (y :: parts))%string
          <> EmptyString).
  discriminate.
Qed.

(** The body of the [try] block of [split_audio] never returns an
    empty list. *)
Lemma split_audio_returns_segments (env : Env) (audio_path : string)
    (max_duration : float) (w w1 : World) (segments : list VAD.Segment) :
  VAD.split_audio env audio_path max_duration w = (Return segments, w1) ->
  segments <> [].
Proof.
  intros Hrun. unfold VAD.split_audio in Hrun.
  unfold bind at 1 in Hrun.
  destruct (VAD._ensure_model env w) as [[[]|e] w0]; [|discriminate].
  unfold bind at 1 in Hrun.
  match type of Hrun with
  | match ?paths w0 with _ => _ end = _ =>
      destruct (paths w0) as [[[wav_path temp_wav_path]|e] w2]; [|discriminate]
  end.
  apply try_finally_returns in Hrun as (w3 & Hbody).
  unfold bind at 1, lift at 1 in Hbody.
  destruct (read_audio env wav_path) as [wav|e]; [|discriminate].
  unfold bind at 1, lift at 1 in Hbody.
  destruct (get_speech_timestamps env wav) as [[|t0 rest]|e]; [| |discriminate].
  - unfold bind, lift, ret in Hbody.
    destruct (get_audio_duration env audio_path); [|discriminate].
    injection Hbody as <- _. discriminate.
  - unfold VAD._create_audio_segments, bind, lift in Hbody.
    destruct (from_file env audio_path) as [audio|e]; [|discriminate].
    apply create_segments_loop_result in Hbody as (new & -> & Htimes & _).
    unfold VAD.group_segments_float in Htimes.
    rewrite group_segments_greedy in Htimes. cbn [VAD.greedy_merge] in Htimes.
    destruct (greedy_from_bounds PrimFloat.sub PrimFloat.leb max_duration rest
                (ts_start t0) (ts_end t0))
      as (first_end & groups & Hgroups & _).
    rewrite Hgroups in Htimes. destruct new; discriminate.
Qed.

(** X17. When the remote client never returns an empty text, neither
    does [transcribe_file], on either path: on the segmented path the
    split never returns an empty list of segments, and the block of a
    segment is the text of its call or a placeholder. *)
Theorem transcription_is_not_empty :
  forall (env : Env) (audio_path : string) (use_vad : bool)
         (vad_threshold_seconds : float) (w w' : World) (text : string),
    (forall path segment_info t,
        transcribe_audio env path segment_info = Return t ->
        t <> EmptyString) ->
    Service.transcribe_file env audio_path use_vad vad_threshold_seconds w
    = (Return text, w') ->
    text <> EmptyString.
Proof.
  intros env audio_path use_vad vad_threshold_seconds w w' text Hclient Hrun.
  unfold Service.transcribe_file, bind at 1, lift at 1 in Hrun.
  destruct (get_audio_duration env audio_path) as [duration|e]; [|discriminate].
  destruct (use_vad && (vad_threshold_seconds <? duration)%float).
  - unfold Service._transcribe_with_vad, bind at 1 in Hrun.
    destruct (VAD.split_audio env audio_path VAD.MAX_SEGMENT_DURATION w)
      as [[segments|e] w1] eqn:Hsplit; [|discriminate].
    apply split_audio_returns_segments in Hsplit.
    destruct segments as [|segment rest]; [contradiction|].
    unfold bind at 1 in Hrun.
    destruct (transcribe_segments_run env (segment :: rest) 0 [] w1)
      as (w2 & Hloop & _).
    rewrite Hloop in Hrun. injection Hrun as <- _.
    cbn [app Service.segment_blocks]. apply join_not_empty.
    unfold Service.segment_block, Service.segment_call.
    destruct segment as [[start end_] path].
    destruct (transcribe_audio env path (Some (start, end_))) as [t|e] eqn:Hcall.
    + exact (Hclient _ _ _ Hcall).
    + apply failure_placeholder_not_empty.
  - unfold Service._transcribe_direct, lift in Hrun.
    injection Hrun as Hcall _. exact (Hclient _ _ _ Hcall).
Qed.

Lemma transcription_is_not_empty_witness :
  fst (Service.transcribe_file Service.sample_env "/vault/talk.wav" true 300
         Service.sample_world)
  = Return
      (Py.join Py.blank_line
         [ "speech from 0";
           "[セグメント 2 の文字起こしに失敗: Maximum retries (5) reached. Last error: 503 UNAVAILABLE]";
           "speech from 1500" ])
  /\ Py.join Py.blank_line
       [ "speech from 0";
         "[セグメント 2 の文字起こしに失敗: Maximum retries (5) reached. Last error: 503 UNAVAILABLE]";
         "speech from 1500" ] <> EmptyString.
Proof.
  split; [vm_compute; reflexivity|].
  apply (transcription_is_not_empty Service.sample_env "/vault/talk.wav" true
           300%float Service.sample_world
           (snd (Service.transcribe_file Service.sample_env "/vault/talk.wav"
                   true 300 Service.sample_world))).
  - intros path [[start end_]|] t; cbn [transcribe_audio Service.sample_env].
    + destruct (start =? 700)%float; [discriminate|].
      intros H. injection H as <-.
      match goal with
      | |- (String ?c ?s ++ ?x)%string <> _ =>
          change (String c (s ++ x)%string <> EmptyString)
      end.
      discriminate.
    + intros H. injection H as <-. discriminate.
  - vm_compute. reflexivity.
Defined.

(** ** The ledger: what its operations keep *)

Section LedgerInvariant.
Variable md5_hexdigest : string -> string.
Variable disk : gmap string string.

Local Abbreviation add_processed_file :=
  (Database.add_processed_file md5_hexdigest disk).
Local Abbreviation add_failed_file :=
  (Database.add_failed_file md5_hexdigest disk).

Lemma save_well_formed (io : Database.SaveIO) (now : string)
    (l : Database.Ledger) :
  Database.well_formed (Database.data l) ->
  Database.well_formed (Database.data (snd (Database.save io now l))).
Proof.
  unfold Database.well_formed.
  destruct (save_data io now l) as [-> ->]. auto.
Qed.

Lemma insert_known_status (file_path : string) (entry : Database.Entry)
    (entries : gmap string Database.Entry) :
  Database.known_status entry ->
  (forall p e, entries !! p = Some e -> Database.known_status e) ->
  forall p e, <[file_path := entry]> entries !! p = Some e ->
              Database.known_status e.
Proof.
  intros Hentry Hall p e. destruct (decide (file_path = p)) as [->|Hne].
  - rewrite lookup_insert_eq. intros H. injection H as <-. exact Hentry.
  - rewrite lookup_insert_ne by exact Hne. apply Hall.
Qed.

Lemma add_processed_file_well_formed (now : nat -> string)
    (io : Database.SaveIO) (file_path markdown_path : string)
    (summary_path : option string) (duration : option float)
    (file_size : option Z) (l : Database.Ledger) :
  Database.well_formed (Database.data l) ->
  Database.well_formed
    (Database.data
       (snd (add_processed_file now io file_path markdown_path summary_path
               duration file_size l))).
Proof.
  intros Hwf. unfold Database.add_processed_file.
  destruct (Database.get_file_hash md5_hexdigest disk file_path) as [h|e];
    [|exact Hwf].
  apply save_well_formed. destruct Hwf as (Hp & Hf & Hst).
  unfold Database.well_formed. cbn [Database.data Database.statistics Database.files].
  split; [|split].
  - destruct (Database.has_status Database.FAILED (Database.data l) file_path);
      cbn [negb];
      destruct duration as [x|]; cbn [Database.float_truthy];
      try destruct (negb (x =? 0)%float);
      destruct file_size as [n|]; cbn [Database.int_truthy];
      try destruct (negb (n =? 0)); cbn; lia.
  - destruct (Database.has_status Database.FAILED (Database.data l) file_path);
      cbn [negb];
      destruct duration as [x|]; cbn [Database.float_truthy];
      try destruct (negb (x =? 0)%float);
      destruct file_size as [n|]; cbn [Database.int_truthy];
      try destruct (negb (n =? 0)); cbn; lia.
  - apply insert_known_status; [left; reflexivity | exact Hst].
Qed.

Lemma add_failed_file_well_formed (now : nat -> string)
    (io : Database.SaveIO) (file_path error_text : string)
    (file_size : option Z) (l : Database.Ledger) :
  Database.well_formed (Database.data l) ->
  Database.well_formed
    (Database.data (add_failed_file now io file_path error_text file_size l)).
Proof.
  intros Hwf. unfold Database.add_failed_file.
  apply save_well_formed. destruct Hwf as (Hp & Hf & Hst).
  unfold Database.well_formed. cbn [Database.data Database.statistics Database.files].
  split; [|split].
  - destruct (Database.has_status Database.COMPLETED (Database.data l) file_path);
      cbn; lia.
  - destruct (Database.has_status Database.COMPLETED (Database.data l) file_path);
      cbn; lia.
  - apply insert_known_status; [right; reflexivity | exact Hst].
Qed.

Lemma remove_processed_file_well_formed (now : string) (io : Database.SaveIO)
    (file_path : string) (l : Database.Ledger) :
  Database.well_formed (Database.data l) ->
  Database.well_formed
    (Database.data (snd (Database.remove_processed_file now io file_path l))).
Proof.
  intros Hwf. unfold Database.remove_processed_file.
  destruct (Database.files (Database.data l) !! file_path) as [entry|] eqn:Hentry;
    [|exact Hwf].
  apply save_well_formed. destruct Hwf as (Hp & Hf & Hst).
  unfold Database.well_formed. cbn [Database.data Database.statistics Database.files].
  split; [|split].
  - destruct (bool_decide (Database.status entry = Some (Database.value Database.COMPLETED)));
      [|destruct (bool_decide (Database.status entry = Some (Database.value Database.FAILED)))];
      try (cbn; lia).
    destruct (Database.entry_duration entry) as [x|];
      [destruct (Database.float_truthy (Some x))|];
      (destruct (Database.entry_size entry) as [n|];
       [destruct (Database.int_truthy (Some n))|]); cbn; lia.
  - destruct (bool_decide (Database.status entry = Some (Database.value Database.COMPLETED)));
      [|destruct (bool_decide (Database.status entry = Some (Database.value Database.FAILED)))];
      try (cbn; lia).
    destruct (Database.entry_duration entry) as [x|];
      [destruct (Database.float_truthy (Some x))|];
      (destruct (Database.entry_size entry) as [n|];
       [destruct (Database.int_truthy (Some n))|]); cbn; lia.
  - intros p e Hp'. destruct (decide (file_path = p)) as [->|Hne].
    + rewrite lookup_delete_eq in Hp'. discriminate.
    + rewrite lookup_delete_ne in Hp' by exact Hne. eauto.
Qed.

End LedgerInvariant.

(** X18. The empty schema has counters of successes and failures that
    are not negative and no entry, and [add_processed_file],
    [add_failed_file] and [remove_processed_file] keep, whatever the
    file system does and whether they return or raise: the two counters
    are never negative, and every entry is completed or failed. *)
Theorem ledger_stays_well_formed :
  (forall clock, Database.well_formed (Database._initialize_schema clock))
  /\ forall (md5_hexdigest : string -> string) (disk : gmap string string)
            (l : Database.Ledger),
       Database.well_formed (Database.data l) ->
       (forall now io file_path markdown_path summary_path duration file_size,
           Database.well_formed
             (Database.data
                (snd (Database.add_processed_file md5_hexdigest disk now io
                        file_path markdown_path summary_path duration
                        file_size l))))
       /\ (forall now io file_path error_text file_size,
              Database.well_formed
                (Database.data
                   (Database.add_failed_file md5_hexdigest disk now io
                      file_path error_text file_size l)))
       /\ (forall now io file_path,
              Database.well_formed
                (Database.data
                   (snd (Database.remove_processed_file now io file_path l)))).
Proof.
  split.
  - intros clock. unfold Database.well_formed. cbn.
    split; [lia|]. split; [lia|]. intros p e H.
    rewrite lookup_empty in H. discriminate.
  - intros md5_hexdigest disk l Hwf. split; [|split]; intros.
    + now apply add_processed_file_well_formed.
    + now apply add_failed_file_well_formed.
    + now apply remove_processed_file_well_formed.
Qed.

Lemma ledger_stays_well_formed_witness :
  Database.well_formed (Database.data Database.after_success).
Proof.
  apply (proj1 (proj2 ledger_stays_well_formed Database.sample_digest
                  Database.sample_disk Database.after_failure
                  (proj1 (proj2 (proj2 ledger_stays_well_formed
                                   Database.sample_digest Database.sample_disk
                                   Database.new_ledger
                                   (proj1 ledger_stays_well_formed
                                      Database.sample_clock)))
                     Database.sample_clock Database.SaveSucceeds
                     "/vault/talk.wav" "network down" None))
           Database.sample_clock Database.SaveSucceeds "/vault/talk.wav"
           "/vault/talk_文字起こし.md" None None None).
Defined.

(** ** The ledger: the status breakdown *)

Lemma filter_status_split (items : list (string * Database.Entry)) :
  Forall (fun item => Database.known_status (snd item)) items ->
  (length (List.filter
             (fun item => Database.status_matches (Some Database.COMPLETED) (snd item))
             items)
   + length (List.filter
               (fun item => Database.status_matches (Some Database.FAILED) (snd item))
               items))%nat
  = length items
  /\ forall s,
       s <> Database.COMPLETED -> s <> Database.FAILED ->
       List.filter (fun item => Database.status_matches (Some s) (snd item)) items
       = [].
Proof.
  induction 1 as [|[p e] items Hitem _ [IHsum IHnone]]; [split; reflexivity|].
  cbn [snd] in Hitem. split.
  - cbn [List.filter snd Database.status_matches].
    destruct Hitem as [Hs|Hs]; rewrite Hs.
    + rewrite bool_decide_eq_true_2 by reflexivity.
      rewrite bool_decide_eq_false_2 by discriminate.
      cbn [length]. unfold Database.status_matches in IHsum. lia.
    + rewrite bool_decide_eq_false_2 by discriminate.
      rewrite bool_decide_eq_true_2 by reflexivity.
      cbn [length]. unfold Database.status_matches in IHsum. lia.
  - intros s Hc Hf. cbn [List.filter snd Database.status_matches].
    rewrite bool_decide_eq_false_2.
    + now apply IHnone.
    + destruct Hitem as [Hs|Hs]; rewrite Hs; destruct s;
        try discriminate; contradiction.
Qed.

(** X19. In a ledger whose entries are all completed or failed, which
    is every ledger the operations build from the empty schema, the
    status breakdown of [get_summary] has two live counts only: those
    of pending, processing and skipped are 0, and completed and failed
    add up to the number of entries.  [get_all_files] without a filter
    lists every entry. *)
Theorem status_breakdown_two_counts :
  forall d : Database.Data,
    Database.well_formed d ->
    Database.status_count Database.PENDING d = 0%nat
    /\ Database.status_count Database.PROCESSING d = 0%nat
    /\ Database.status_count Database.SKIPPED d = 0%nat
    /\ (Database.status_count Database.COMPLETED d
        + Database.status_count Database.FAILED d)%nat
       = Database.total_files d
    /\ length (Database.get_all_files None d) = Database.total_files d.
Proof.
  intros d (_ & _ & Hst).
  assert (Hall : Forall (fun item => Database.known_status (snd item))
                   (map_to_list (Database.files d))).
  { apply List.Forall_forall. intros [p e] Hin. cbn [snd].
    apply (Hst p). apply elem_of_map_to_list. now apply list_elem_of_In. }
  destruct (filter_status_split _ Hall) as [Hsum Hnone].
  unfold Database.status_count, Database.get_all_files, Database.total_files.
  rewrite (Hnone Database.PENDING); [|discriminate..].
  rewrite (Hnone Database.PROCESSING); [|discriminate..].
  rewrite (Hnone Database.SKIPPED); [|discriminate..].
  split; [reflexivity|]. split; [reflexivity|]. split; [reflexivity|].
  split; [exact Hsum|].
  cbn [Database.status_matches]. clear Hall Hsum Hnone Hst.
  induction (map_to_list (Database.files d)) as [|x xs IH]; [reflexivity|].
  cbn [List.filter length]. now rewrite IH.
Qed.

Lemma status_breakdown_two_counts_witness :
  Database.status_count Database.SKIPPED (Database.data Database.after_failure)
  = 0%nat
  /\ (Database.status_count Database.COMPLETED
        (Database.data Database.after_failure)
      + Database.status_count Database.FAILED
          (Database.data Database.after_failure))%nat
     = Database.total_files (Database.data Database.after_failure).
Proof.
  assert (Hwf : Database.well_formed (Database.data Database.after_failure)).
  { apply add_failed_file_well_formed.
    unfold Database.well_formed. cbn.
    split; [lia|]. split; [lia|]. intros p e H.
    rewrite lookup_empty in H. discriminate. }
  destruct (status_breakdown_two_counts _ Hwf) as (_ & _ & Hs & Hsum & _).
  split; [exact Hs | exact Hsum].
Defined.

(** ** The ledger: memory and store *)

(** X20. [add_processed_file] puts the entry into the document in
    memory before it saves.  When the file can be hashed and the save
    raises, the error propagates, yet the entry is in memory:
    [get_processed_info] returns it and [is_processed] answers [True]
    from then on, while the store holds what it held before, or, when
    the failure came after the file was opened, nothing that can be
    read. *)
Theorem add_processed_file_updates_memory_first :
  forall (md5_hexdigest : string -> string) (disk : gmap string string)
         (now : nat -> string) (io : Database.SaveIO)
         (file_path markdown_path : string) (summary_path : option string)
         (duration : option float) (file_size : option Z)
         (l : Database.Ledger) (content : string) (e : Exn),
    disk !! file_path = Some content ->
    io = Database.MkdirFails e \/ io = Database.OpenFails e
    \/ io = Database.DumpFails e ->
    fst (Database.add_processed_file md5_hexdigest disk now io file_path
           markdown_path summary_path duration file_size l) = Raise e
    /\ Database.get_processed_info file_path
         (Database.data
            (snd (Database.add_processed_file md5_hexdigest disk now io
                    file_path markdown_path summary_path duration file_size l)))
       = Some (Database.mkEntry (Some (md5_hexdigest content))
                 (Some "completed") (Some (now 0%nat)) (Some (now 1%nat))
                 (Some (Database.mkOutputs (Some markdown_path) summary_path))
                 (Some (Database.mkMetadata duration file_size)) None)
    /\ Database.is_processed md5_hexdigest disk file_path
         (Database.data
            (snd (Database.add_processed_file md5_hexdigest disk now io
                    file_path markdown_path summary_path duration file_size l)))
       = true
    /\ Database.store
         (snd (Database.add_processed_file md5_hexdigest disk now io
                 file_path markdown_path summary_path duration file_size l))
       = match io with
         | Database.DumpFails _ => Some Database.Unreadable
         | _ => Database.store l
         end.
Proof.
  intros md5_hexdigest disk now io file_path markdown_path summary_path
    duration file_size l content e Hfile Hio.
  assert (Hinfo : Database.get_processed_info file_path
         (Database.data
            (snd (Database.add_processed_file md5_hexdigest disk now io
                    file_path markdown_path summary_path duration file_size l)))
       = Some (Database.mkEntry (Some (md5_hexdigest content))
                 (Some "completed") (Some (now 0%nat)) (Some (now 1%nat))
                 (Some (Database.mkOutputs (Some markdown_path) summary_path))
                 (Some (Database.mkMetadata duration file_size)) None)).
  { unfold Database.get_processed_info, Database.add_processed_file,
      Database.get_file_hash.
    rewrite Hfile.
    match goal with
    | |- context [Database.save ?io0 ?t ?l0] =>
        destruct (save_data io0 t l0) as [-> _]
    end.
    cbn [Database.data Database.files]. now rewrite lookup_insert_eq. }
  split; [|split; [exact Hinfo|split]].
  - unfold Database.add_processed_file, Database.get_file_hash. rewrite Hfile.
    destruct Hio as [->|[->| ->]]; reflexivity.
  - apply is_processed_iff. unfold Database.get_processed_info in Hinfo.
    eexists _, content. split; [exact Hinfo|]. repeat split. exact Hfile.
  - unfold Database.add_processed_file, Database.get_file_hash. rewrite Hfile.
    destruct Hio as [->|[->| ->]]; reflexivity.
Qed.

Lemma add_processed_file_updates_memory_first_witness :
  fst (Database.add_processed_file Database.sample_digest Database.sample_disk
         Database.sample_clock (Database.DumpFails Database.disk_full)
         "/vault/talk.wav" "/vault/talk_文字起こし.md" None None None
         Database.new_ledger) = Raise Database.disk_full
  /\ Database.is_processed Database.sample_digest Database.sample_disk
       "/vault/talk.wav"
       (Database.data
          (snd (Database.add_processed_file Database.sample_digest
                  Database.sample_disk Database.sample_clock
                  (Database.DumpFails Database.disk_full)
                  "/vault/talk.wav" "/vault/talk_文字起こし.md" None None None
                  Database.new_ledger))) = true.
Proof.
  destruct (add_processed_file_updates_memory_first Database.sample_digest
              Database.sample_disk Database.sample_clock
              (Database.DumpFails Database.disk_full)
              "/vault/talk.wav" "/vault/talk_文字起こし.md" None None None
              Database.new_ledger "RIFF" Database.disk_full)
    as (Hraise & _ & Hprocessed & _).
  - reflexivity.
  - right. right. reflexivity.
  - split; [exact Hraise | exact Hprocessed].
Defined.

(** ** The ledger: adding, removing, counting *)

Section LedgerCounting.
Variable md5_hexdigest : string -> string.
Variable disk : gmap string string.

(** The document [add_processed_file] leaves in memory, by its entries
    and its statistics, when the file can be hashed. *)
Lemma add_processed_file_data (now : nat -> string) (io : Database.SaveIO)
    (file_path markdown_path : string) (summary_path : option string)
    (duration : option float) (file_size : option Z)
    (l : Database.Ledger) (content : string) :
  disk !! file_path = Some content ->
  let after :=
    Database.data
      (snd (Database.add_processed_file md5_hexdigest disk now io file_path
              markdown_path summary_path duration file_size l)) in
  Database.files after
  = <[file_path :=
        Database.mkEntry (Some (md5_hexdigest content)) (Some "completed")
          (Some (now 0%nat)) (Some (now 1%nat))
          (Some (Database.mkOutputs (Some markdown_path) summary_path))
          (Some (Database.mkMetadata duration file_size)) None]>
      (Database.files (Database.data l))
  /\ Database.total_size_bytes (Database.statistics after)
     = match file_size with
       | Some n => Database.total_size_bytes (Database.statistics (Database.data l)) + n
       | None => Database.total_size_bytes (Database.statistics (Database.data l))
       end.
Proof.
  intros Hfile after. subst after.
  unfold Database.add_processed_file, Database.get_file_hash. rewrite Hfile.
  match goal with
  | |- context [Database.save ?io0 ?t ?l0] =>
      destruct (save_data io0 t l0) as [-> ->]
  end.
  cbn [Database.data Database.files Database.statistics].
  split; [reflexivity|].
  destruct (Database.has_status Database.FAILED (Database.data l) file_path);
    cbn [negb];
    destruct duration as [x|]; cbn [Database.float_truthy];
    try destruct (negb (x =? 0)%float);
    destruct file_size as [n|]; cbn [Database.int_truthy];
    try (destruct (n =? 0) eqn:Hn; [apply Z.eqb_eq in Hn; subst n|]);
    cbn; lia.
Qed.

(** The entries and the integer counters [remove_processed_file]
    leaves, for a completed entry. *)
Lemma remove_completed_data (now : string) (io : Database.SaveIO)
    (file_path : string) (l : Database.Ledger) (entry : Database.Entry) :
  Database.files (Database.data l) !! file_path = Some entry ->
  Database.status entry = Some "completed" ->
  let after :=
    Database.data (snd (Database.remove_processed_file now io file_path l)) in
  Database.files after = delete file_path (Database.files (Database.data l))
  /\ Database.total_processed (Database.statistics after)
     = Z.max 0 (Database.total_processed (Database.statistics (Database.data l)) - 1)
  /\ Database.total_failed (Database.statistics after)
     = Database.total_failed (Database.statistics (Database.data l))
  /\ Database.total_size_bytes (Database.statistics after)
     = match Database.entry_size entry with
       | Some n =>
           if n =? 0
           then Database.total_size_bytes (Database.statistics (Database.data l))
           else Z.max 0 (Database.total_size_bytes
                           (Database.statistics (Database.data l)) - n)
       | None => Database.total_size_bytes (Database.statistics (Database.data l))
       end.
Proof.
  intros Hentry Hstatus after. subst after.
  unfold Database.remove_processed_file. rewrite Hentry.
  match goal with
  | |- context [Database.save ?io0 ?t ?l0] =>
      destruct (save_data io0 t l0) as [-> ->]
  end.
  cbn [Database.data Database.files Database.statistics].
  split; [reflexivity|].
  rewrite (bool_decide_eq_true_2 _ Hstatus).
  destruct (Database.entry_duration entry) as [x|];
    [destruct (Database.float_truthy (Some x))|];
    (destruct (Database.entry_size entry) as [n|];
     [cbn [Database.int_truthy]; destruct (n =? 0)|]);
    repeat split.
Qed.

Lemma filter_length_permutation {A} (f : A -> bool) (xs ys : list A) :
  xs ≡ₚ ys -> length (List.filter f xs) = length (List.filter f ys).
Proof.
  induction 1 as [|x xs ys _ IH|x y xs|xs ys zs _ IH1 _ IH2].
  - reflexivity.
  - cbn [List.filter]. destruct (f x); cbn [length]; now rewrite IH.
  - cbn [List.filter]. destruct (f x), (f y); reflexivity.
  - now rewrite IH1.
Qed.

(** Counting the entries that pass a test, around one path. *)
Lemma count_insert (f : string * Database.Entry -> bool) (file_path : string)
    (entry : Database.Entry) (entries : gmap string Database.Entry) :
  length (List.filter f (map_to_list (<[file_path := entry]> entries)))
  = ((if f (file_path, entry) then 1 else 0)
     + length (List.filter f (map_to_list (delete file_path entries))))%nat.
Proof.
  rewrite <- (insert_delete_eq entries file_path entry).
  rewrite (filter_length_permutation f _ _
             (map_to_list_insert (delete file_path entries) file_path entry
                (lookup_delete_eq entries file_path))).
  cbn [List.filter]. destruct (f (file_path, entry)); reflexivity.
Qed.

Lemma count_lookup (f : string * Database.Entry -> bool) (file_path : string)
    (entry : Database.Entry) (entries : gmap string Database.Entry) :
  entries !! file_path = Some entry ->
  length (List.filter f (map_to_list entries))
  = ((if f (file_path, entry) then 1 else 0)
     + length (List.filter f (map_to_list (delete file_path entries))))%nat.
Proof.
  intros Hentry. rewrite <- (insert_delete_id entries file_path entry Hentry) at 1.
  rewrite (filter_length_permutation f _ _
             (map_to_list_insert (delete file_path entries) file_path entry
                (lookup_delete_eq entries file_path))).
  cbn [List.filter]. destruct (f (file_path, entry)); reflexivity.
Qed.

Lemma length_insert (file_path : string) (entry : Database.Entry)
    (entries : gmap string Database.Entry) :
  length (map_to_list (<[file_path := entry]> entries))
  = S (length (map_to_list (delete file_path entries))).
Proof.
  rewrite <- (insert_delete_eq entries file_path entry).
  rewrite (Permutation_length
             (map_to_list_insert (delete file_path entries) file_path entry
                (lookup_delete_eq entries file_path))).
  reflexivity.
Qed.

Lemma length_lookup (file_path : string) (entry : Database.Entry)
    (entries : gmap string Database.Entry) :
  entries !! file_path = Some entry ->
  length (map_to_list entries)
  = S (length (map_to_list (delete file_path entries))).
Proof.
  intros Hentry. rewrite <- (insert_delete_id entries file_path entry Hentry) at 1.
  rewrite (Permutation_length
             (map_to_list_insert (delete file_path entries) file_path entry
                (lookup_delete_eq entries file_path))).
  reflexivity.
Qed.

End LedgerCounting.

(** X21. Adding a file that has no entry and removing it again gives
    back the entries and the integer counters as they were: the
    counters of successes and of failures and the total of the sizes,
    when the first and the last were not negative.  The saves in
    between may succeed or fail. *)
Theorem add_then_remove_restores :
  forall (md5_hexdigest : string -> string) (disk : gmap string string)
         (now : nat -> string) (later : string) (io io' : Database.SaveIO)
         (file_path markdown_path : string) (summary_path : option string)
         (duration : option float) (file_size : option Z)
         (l : Database.Ledger) (content : string),
    disk !! file_path = Some content ->
    Database.files (Database.data l) !! file_path = None ->
    0 <= Database.total_processed (Database.statistics (Database.data l)) ->
    0 <= Database.total_size_bytes (Database.statistics (Database.data l)) ->
    let restored :=
      Database.data
        (snd (Database.remove_processed_file later io' file_path
                (snd (Database.add_processed_file md5_hexdigest disk now io
                        file_path markdown_path summary_path duration
                        file_size l)))) in
    Database.files restored = Database.files (Database.data l)
    /\ Database.total_processed (Database.statistics restored)
       = Database.total_processed (Database.statistics (Database.data l))
    /\ Database.total_failed (Database.statistics restored)
       = Database.total_failed (Database.statistics (Database.data l))
    /\ Database.total_size_bytes (Database.statistics restored)
       = Database.total_size_bytes (Database.statistics (Database.data l)).
Proof.
  intros md5_hexdigest disk now later io io' file_path markdown_path
    summary_path duration file_size l content Hfile Hfresh Hprocessed Hsize
    restored.
  subst restored.
  destruct (add_processed_file_data md5_hexdigest disk now io file_path
              markdown_path summary_path duration file_size l content Hfile)
    as [Hfiles Hbytes].
  pose proof (add_processed_file_counters md5_hexdigest disk now io file_path
                markdown_path summary_path duration file_size l content Hfile)
    as Hcounters.
  cbv zeta in Hcounters.
  unfold Database.has_status in Hcounters. rewrite Hfresh in Hcounters.
  destruct Hcounters as [Hfailed Hcount].
  match goal with
  | |- context [Database.remove_processed_file later io' file_path ?l1] =>
      destruct (remove_completed_data later io' file_path l1
                  (Database.mkEntry (Some (md5_hexdigest content))
                     (Some "completed") (Some (now 0%nat)) (Some (now 1%nat))
                     (Some (Database.mkOutputs (Some markdown_path) summary_path))
                     (Some (Database.mkMetadata duration file_size)) None))
        as (Hfiles' & Hprocessed' & Hfailed' & Hbytes')
  end.
  - rewrite Hfiles. apply lookup_insert_eq.
  - reflexivity.
  - rewrite Hfiles', Hprocessed', Hfailed', Hbytes', Hfiles, Hcount, Hfailed,
      Hbytes.
    split; [now apply delete_insert_id|]. split; [lia|]. split; [reflexivity|].
    cbn [Database.entry_size Database.metadata Database.file_size_bytes].
    destruct file_size as [n|]; [|reflexivity].
    destruct (n =? 0) eqn:Hn; [apply Z.eqb_eq in Hn|]; lia.
Qed.

Lemma add_then_remove_restores_witness :
  Database.files
    (Database.data
       (snd (Database.remove_processed_file "2024-01-03T00:00:00"
               Database.SaveSucceeds "/vault/talk.wav"
               (snd (Database.add_processed_file Database.sample_digest
                       Database.sample_disk Database.sample_clock
                       Database.SaveSucceeds "/vault/talk.wav"
                       "/vault/talk_文字起こし.md" None (Some 60%float)
                       (Some 1000) Database.new_ledger)))))
  = Database.files (Database.data Database.new_ledger).
Proof.
  apply (add_then_remove_restores Database.sample_digest Database.sample_disk
           Database.sample_clock "2024-01-03T00:00:00" Database.SaveSucceeds
           Database.SaveSucceeds "/vault/talk.wav" "/vault/talk_文字起こし.md"
           None (Some 60%float) (Some 1000) Database.new_ledger "RIFF").
  - reflexivity.
  - reflexivity.
  - cbn. lia.
  - cbn. lia.
Defined.

(** X22. The counter of successes counts calls, not entries.  For a
    file without an entry, [add_processed_file] raises the counter, the
    number of entries and the number of completed entries by one each.
    For a file whose entry is already completed (a recording that
    changed after it was processed) it raises the counter by one again,
    while the number of entries and of completed entries stays. *)
Theorem add_processed_file_counts_calls :
  forall (md5_hexdigest : string -> string) (disk : gmap string string)
         (now : nat -> string) (io : Database.SaveIO)
         (file_path markdown_path : string) (summary_path : option string)
         (duration : option float) (file_size : option Z)
         (l : Database.Ledger) (content : string),
    disk !! file_path = Some content ->
    let after :=
      Database.data
        (snd (Database.add_processed_file md5_hexdigest disk now io file_path
                markdown_path summary_path duration file_size l)) in
    Database.total_processed (Database.statistics after)
    = (if Database.has_status Database.FAILED (Database.data l) file_path
       then Database.total_processed (Database.statistics (Database.data l))
       else Database.total_processed (Database.statistics (Database.data l)) + 1)
    /\ (Database.files (Database.data l) !! file_path = None ->
        Database.total_files after = S (Database.total_files (Database.data l))
        /\ Database.status_count Database.COMPLETED after
           = S (Database.status_count Database.COMPLETED (Database.data l)))
    /\ (Database.has_status Database.COMPLETED (Database.data l) file_path = true ->
        Database.total_processed (Database.statistics after)
        = Database.total_processed (Database.statistics (Database.data l)) + 1
        /\ Database.total_files after = Database.total_files (Database.data l)
        /\ Database.status_count Database.COMPLETED after
           = Database.status_count Database.COMPLETED (Database.data l)).
Proof.
  intros md5_hexdigest disk now io file_path markdown_path summary_path
    duration file_size l content Hfile after.
  subst after.
  destruct (add_processed_file_data md5_hexdigest disk now io file_path
              markdown_path summary_path duration file_size l content Hfile)
    as [Hfiles _].
  pose proof (add_processed_file_counters md5_hexdigest disk now io file_path
                markdown_path summary_path duration file_size l content Hfile)
    as Hcounters.
  cbv zeta in Hcounters.
  unfold Database.total_files, Database.status_count, Database.get_all_files.
  rewrite Hfiles. split; [|split].
  - destruct (Database.has_status Database.FAILED (Database.data l) file_path);
      tauto.
  - intros Hfresh.
    rewrite length_insert, count_insert. rewrite (delete_id _ _ Hfresh).
    cbn [snd Database.status_matches Database.status].
    rewrite bool_decide_eq_true_2 by reflexivity. split; reflexivity.
  - intros Hdone. unfold Database.has_status in Hdone, Hcounters.
    destruct (Database.files (Database.data l) !! file_path) as [old|] eqn:Hold;
      [|discriminate].
    apply bool_decide_eq_true in Hdone.
    rewrite bool_decide_eq_false_2 in Hcounters
      by (rewrite Hdone; discriminate).
    split; [tauto|].
    rewrite length_insert, count_insert.
    rewrite (length_lookup file_path old _ Hold).
    rewrite (count_lookup _ file_path old _ Hold).
    cbn [snd Database.status_matches Database.status].
    rewrite Hdone. rewrite !bool_decide_eq_true_2 by reflexivity.
    split; reflexivity.
Qed.

Lemma add_processed_file_counts_calls_witness :
  Database.total_processed
    (Database.statistics (Database.data Database.after_second_success)) = 2
  /\ Database.total_files (Database.data Database.after_second_success)
     = Database.total_files (Database.data Database.saved_ledger)
  /\ Database.total_files (Database.data Database.saved_ledger) = 1%nat.
Proof.
  destruct (add_processed_file_counts_calls Database.sample_digest
              Database.changed_disk Database.sample_clock Database.SaveSucceeds
              "/vault/talk.wav" "/vault/talk_文字起こし.md" None
              (Some 60%float) (Some 1000) Database.saved_ledger "RIFF2")
    as (_ & _ & Hagain).
  - reflexivity.
  - destruct Hagain as (Hcount & Hfiles & _); [reflexivity|].
    split; [exact Hcount|]. split; [exact Hfiles|]. vm_compute. reflexivity.
Defined.

(** ** The ledger: orphaned entries *)

Section Cleanup.
Variable path_exists : string -> bool.
Variable str_path : string -> string.
Variable now : string -> string.
Variable io : string -> Database.SaveIO.

Local Abbreviation cleanup_loop :=
  (Database.cleanup_loop path_exists str_path now io).

Lemma remove_processed_file_files (t : string) (save_io : Database.SaveIO)
    (file_path : string) (l : Database.Ledger) :
  Database.files
    (Database.data (snd (Database.remove_processed_file t save_io file_path l)))
  = delete file_path (Database.files (Database.data l)).
Proof.
  unfold Database.remove_processed_file.
  destruct (Database.files (Database.data l) !! file_path) as [entry|] eqn:Hentry.
  - match goal with
    | |- context [Database.save ?io0 ?t0 ?l0] =>
        destruct (save_data io0 t0 l0) as [-> _]
    end.
    reflexivity.
  - cbn [snd]. symmetry. now apply delete_id.
Qed.

Lemma remove_processed_file_returns (t : string) (file_path : string)
    (l : Database.Ledger) :
  fst (Database.remove_processed_file t Database.SaveSucceeds file_path l)
  = Return tt.
Proof.
  unfold Database.remove_processed_file.
  destruct (Database.files (Database.data l) !! file_path); reflexivity.
Qed.

Lemma cleanup_loop_run (paths : list string) :
  (forall p, io p = Database.SaveSucceeds) ->
  (forall p, In p paths -> str_path p = p) ->
  forall removed_count l,
  exists l',
    cleanup_loop paths removed_count l
    = (Return (removed_count
               + length (List.filter (fun p => negb (path_exists p)) paths))%nat,
       l')
    /\ (forall p, In p paths -> path_exists p = false ->
                  Database.files (Database.data l') !! p = None)
    /\ (forall p, path_exists p = true \/ ~ In p paths ->
                  Database.files (Database.data l') !! p
                  = Database.files (Database.data l) !! p).
Proof.
  intros Hio. induction paths as [|file_path rest IH];
    intros Hnormal removed_count l.
  - exists l. cbn. rewrite Nat.add_0_r. split; [reflexivity|].
    split; [intros p []|reflexivity].
  - assert (Hrest : forall p, In p rest -> str_path p = p)
      by (intros p Hp; apply Hnormal; now right).
    specialize (IH Hrest).
    cbn [Database.cleanup_loop List.filter].
    destruct (path_exists file_path) eqn:Hexists; cbn [negb].
    + destruct (IH removed_count l) as (l' & Hrun & Hgone & Hkept).
      exists l'. split; [exact Hrun|]. split.
      * intros p [<-|Hin] Hp; [congruence | now apply Hgone].
      * intros p Hp. apply Hkept. cbn in Hp. tauto.
    + rewrite Hio, (Hnormal file_path) by now left.
      pose proof (remove_processed_file_returns (now file_path) file_path l)
        as Hret.
      pose proof (remove_processed_file_files (now file_path)
                    Database.SaveSucceeds file_path l) as Hfiles.
      destruct (Database.remove_processed_file (now file_path)
                  Database.SaveSucceeds file_path l) as [r l1].
      cbn [fst snd] in Hret, Hfiles. subst r.
      destruct (IH (S removed_count) l1) as (l' & Hrun & Hgone & Hkept).
      exists l'. split; [|split].
      * rewrite Hrun. cbn [length]. do 2 f_equal. lia.
      * intros p Hin Hp.
        destruct (in_dec string_dec p rest) as [Hin'|Hout];
          [now apply Hgone|].
        rewrite Hkept by now right. rewrite Hfiles.
        destruct Hin as [<-|Hin]; [apply lookup_delete_eq | contradiction].
      * intros p Hp. rewrite Hkept by (cbn in Hp; tauto). rewrite Hfiles.
        apply lookup_delete_ne. intros <-. destruct Hp as [Hp|Hp].
        -- congruence.
        -- apply Hp. now left.
Qed.

(** Nothing is removed, and nothing saved, when every path exists. *)
Lemma cleanup_loop_nothing (paths : list string) :
  (forall p, In p paths -> path_exists p = true) ->
  forall removed_count l,
    cleanup_loop paths removed_count l = (Return removed_count, l).
Proof.
  induction paths as [|file_path rest IH]; intros Hall removed_count l;
    [reflexivity|].
  cbn [Database.cleanup_loop]. rewrite (Hall file_path) by now left.
  cbn [negb]. apply IH. intros p Hp. apply Hall. now right.
Qed.

Lemma filter_keys_length (items : list (string * Database.Entry)) :
  length (List.filter (fun p => negb (path_exists p)) (map fst items))
  = length (List.filter (fun item => negb (path_exists (fst item))) items).
Proof.
  induction items as [|[p e] items IH]; [reflexivity|].
  cbn [map fst List.filter]. destruct (negb (path_exists p)); cbn [length];
    now rewrite IH.
Qed.

Lemma key_of_ledger (p : string) (d : Database.Data) :
  In p (map fst (map_to_list (Database.files d)))
  <-> is_Some (Database.files d !! p).
Proof.
  rewrite in_map_iff. split.
  - intros ([q e] & <- & Hin). exists e.
    apply elem_of_map_to_list. now apply list_elem_of_In.
  - intros [e He]. exists (p, e). split; [reflexivity|].
    apply list_elem_of_In. now apply elem_of_map_to_list.
Qed.

End Cleanup.

(** X23. Let the keys of the ledger be normal: [str(Path(key))] is the
    key, as for every key the operations insert.  When its saves
    succeed, [cleanup_orphaned_entries] returns the number of entries
    whose path does not exist; afterwards the ledger holds exactly the
    entries whose path exists, each as it was, and a second run, the
    file system being the same, returns 0 and changes nothing,
    whatever its saves would do.  A key that is not normal is not
    covered by this: a ledger whose one entry is an orphan under such
    a key is counted, the answer is 1, and the entry stays. *)
Theorem cleanup_removes_orphans_only :
  forall (path_exists : string -> bool) (str_path : string -> string)
         (now : string -> string) (io io' : string -> Database.SaveIO)
         (l : Database.Ledger),
    ((forall p, io p = Database.SaveSucceeds) ->
     Database.normal_keys str_path (Database.data l) ->
     exists l',
       Database.cleanup_orphaned_entries path_exists str_path now io l
       = (Return
            (length
               (List.filter (fun item => negb (path_exists (fst item)))
                  (map_to_list (Database.files (Database.data l))))),
          l')
       /\ (forall p,
              Database.get_processed_info p (Database.data l')
              = if path_exists p
                then Database.get_processed_info p (Database.data l)
                else None)
       /\ Database.cleanup_orphaned_entries path_exists str_path now io' l'
          = (Return 0%nat, l'))
    /\ (forall key entry,
           Database.files (Database.data l) = {[ key := entry ]} ->
           path_exists key = false ->
           str_path key <> key ->
           Database.cleanup_orphaned_entries path_exists str_path now io l
           = (Return 1%nat, l)).
Proof.
  intros path_exists str_path now io io' l. split.
  - intros Hio Hnormal.
    unfold Database.cleanup_orphaned_entries.
    assert (Hkeys : forall p,
               In p (map fst (map_to_list (Database.files (Database.data l)))) ->
               str_path p = p).
    { intros p Hin. apply Hnormal. now apply key_of_ledger. }
    destruct (cleanup_loop_run path_exists str_path now io
                (map fst (map_to_list (Database.files (Database.data l))))
                Hio Hkeys 0 l)
      as (l' & Hrun & Hgone & Hkept).
    exists l'.
    assert (Hinfo : forall p,
               Database.get_processed_info p (Database.data l')
               = if path_exists p
                 then Database.get_processed_info p (Database.data l)
                 else None).
    { intros p. unfold Database.get_processed_info.
      destruct (path_exists p) eqn:Hp; [apply Hkept; now left|].
      destruct (Database.files (Database.data l) !! p) as [e|] eqn:He.
      - apply Hgone; [|exact Hp]. apply key_of_ledger. rewrite He. eauto.
      - rewrite Hkept; [exact He|]. right. intros Hin.
        apply key_of_ledger in Hin. rewrite He in Hin.
        destruct Hin; discriminate. }
    split; [|split; [exact Hinfo|]].
    + rewrite Hrun, filter_keys_length. reflexivity.
    + apply cleanup_loop_nothing. intros p Hin.
      apply key_of_ledger in Hin. destruct Hin as [e He].
      specialize (Hinfo p). unfold Database.get_processed_info in Hinfo.
      rewrite He in Hinfo. destruct (path_exists p); [reflexivity|discriminate].
  - intros key entry Hfiles Hgone Hother.
    unfold Database.cleanup_orphaned_entries. rewrite Hfiles.
    rewrite map_to_list_singleton.
    cbn [map fst Database.cleanup_loop]. rewrite Hgone. cbn [negb].
    unfold Database.remove_processed_file. rewrite Hfiles.
    rewrite lookup_singleton_ne by (intros H; now apply Hother).
    reflexivity.
Qed.

Lemma cleanup_removes_orphans_only_witness :
  (exists l',
      Database.cleanup_orphaned_entries (fun _ => false) (fun p => p)
        (fun _ => "2024-01-04T00:00:00")
        (fun _ => Database.SaveSucceeds) Database.saved_ledger
      = (Return 1%nat, l')
      /\ Database.get_processed_info "/vault/talk.wav" (Database.data l') = None)
  /\ Database.cleanup_orphaned_entries (fun _ => false)
       (fun p => String.substring 2 (String.length p) p)
       (fun _ => "2024-01-04T00:00:00")
       (fun _ => Database.SaveSucceeds) Database.unnormalised_ledger
     = (Return 1%nat, Database.unnormalised_ledger).
Proof.
  split.
  - destruct (proj1 (cleanup_removes_orphans_only (fun _ => false) (fun p => p)
                       (fun _ => "2024-01-04T00:00:00")
                       (fun _ => Database.SaveSucceeds)
                       (fun _ => Database.SaveSucceeds)
                       Database.saved_ledger))
      as (l' & Hrun & Hinfo & _).
    + reflexivity.
    + intros p _. reflexivity.
    + exists l'. split; [|exact (Hinfo "/vault/talk.wav")].
      rewrite Hrun. f_equal.
  - apply (proj2 (cleanup_removes_orphans_only (fun _ => false)
                    (fun p => String.substring 2 (String.length p) p)
                    (fun _ => "2024-01-04T00:00:00")
                    (fun _ => Database.SaveSucceeds)
                    (fun _ => Database.SaveSucceeds)
                    Database.unnormalised_ledger)
             "///vault/talk.wav" Database.sample_entry).
    + reflexivity.
    + reflexivity.
    + discriminate.
Defined.

(** ** The ledger: what is saved is what is loaded *)

Lemma load_to_json (clock : nat -> string) (d : Database.Data) :
  Database.load clock (Some (Database.Document (Database.to_json d)))
  = Database.to_json d.
Proof. reflexivity. Qed.

(** X24. The document a save wrote is the document the next load
    returns, not the empty schema.  After every operation that saved
    with success the store holds the document in memory: after a
    [save], an [add_processed_file] or an [add_failed_file] whose save
    succeeded, and after a [remove_processed_file] that returned, when
    the store held the document before. *)
Theorem saved_document_is_loaded :
  forall (md5_hexdigest : string -> string) (disk : gmap string string)
         (l : Database.Ledger),
    (forall now, Database.in_sync (snd (Database.save Database.SaveSucceeds now l)))
    /\ (forall clock,
           Database.in_sync l ->
           Database.load clock (Database.store l)
           = Database.to_json (Database.data l))
    /\ (forall now io file_path markdown_path summary_path duration file_size l',
           Database.add_processed_file md5_hexdigest disk now io file_path
             markdown_path summary_path duration file_size l = (Return tt, l') ->
           Database.in_sync l')
    /\ (forall now file_path error_text file_size,
           Database.in_sync
             (Database.add_failed_file md5_hexdigest disk now
                Database.SaveSucceeds file_path error_text file_size l))
    /\ (forall now io file_path l',
           Database.in_sync l ->
           Database.remove_processed_file now io file_path l = (Return tt, l') ->
           Database.in_sync l').
Proof.
  intros md5_hexdigest disk l. split; [|split; [|split; [|split]]].
  - intros now. reflexivity.
  - intros clock Hsync. rewrite Hsync. apply load_to_json.
  - intros now io file_path markdown_path summary_path duration file_size l' Hadd.
    unfold Database.add_processed_file in Hadd.
    destruct (Database.get_file_hash md5_hexdigest disk file_path);
      [|discriminate].
    destruct io; try discriminate. injection Hadd as <-. reflexivity.
  - intros now file_path error_text file_size. reflexivity.
  - intros now io file_path l' Hsync Hremove.
    unfold Database.remove_processed_file in Hremove.
    destruct (Database.files (Database.data l) !! file_path).
    + destruct io; try discriminate. injection Hremove as <-. reflexivity.
    + injection Hremove as <-. exact Hsync.
Qed.

Lemma saved_document_is_loaded_witness :
  Database.load Database.sample_clock (Database.store Database.saved_ledger)
  = Database.to_json (Database.data Database.saved_ledger).
Proof.
  apply (proj1 (proj2 (saved_document_is_loaded Database.sample_digest
                         Database.sample_disk Database.saved_ledger))).
  reflexivity.
Defined.

(** ** The summary of a transcription *)

Lemma take_len (s : string) :
  forall n, Summary.len (Summary.take n s) = Nat.min n (Summary.len s).
Proof.
  induction s as [|c s IH]; intros n; cbn [Summary.take Summary.len].
  - now rewrite Nat.min_0_r.
  - destruct (Summary.is_continuation c) eqn:Hc.
    + cbn [Summary.len]. rewrite Hc. apply IH.
    + destruct n as [|n]; [reflexivity|].
      cbn [Summary.len]. rewrite Hc, IH. reflexivity.
Qed.

Lemma take_all (s : string) :
  forall n, (Summary.len s <= n)%nat -> Summary.take n s = s.
Proof.
  induction s as [|c s IH]; intros n Hn; cbn [Summary.take Summary.len] in *;
    [reflexivity|].
  destruct (Summary.is_continuation c).
  - now rewrite IH.
  - destruct n as [|n]; [lia|]. rewrite IH by lia. reflexivity.
Qed.

Lemma take_prefix (s : string) :
  forall n, exists rest, s = (Summary.take n s ++ rest)%string.
Proof.
  induction s as [|c s IH]; intros n; cbn [Summary.take].
  - now exists EmptyString.
  - destruct (Summary.is_continuation c).
    + destruct (IH n) as [rest Hrest]. exists rest.
      change (String c s = String c (Summary.take n s ++ rest)%string).
      now rewrite <- Hrest.
    + destruct n as [|n]; [now exists (String c s)|].
      destruct (IH n) as [rest Hrest]. exists rest.
      change (String c s = String c (Summary.take n s ++ rest)%string).
      now rewrite <- Hrest.
Qed.

Lemma preview_cases (limit : nat) (transcription : string) :
  ((Summary.len transcription <= limit)%nat ->
   (if (limit <? Summary.len transcription)%nat
    then (Summary.take limit transcription ++ Summary.truncation_notice)%string
    else Summary.take limit transcription) = transcription)
  /\ ((limit < Summary.len transcription)%nat ->
      (if (limit <? Summary.len transcription)%nat
       then (Summary.take limit transcription ++ Summary.truncation_notice)%string
       else Summary.take limit transcription)
      = (Summary.take limit transcription ++ Summary.truncation_notice)%string
      /\ Summary.len (Summary.take limit transcription) = limit
      /\ exists rest,
           transcription = (Summary.take limit transcription ++ rest)%string).
Proof.
  split.
  - intros Hshort.
    destruct (Nat.ltb_spec limit (Summary.len transcription)) as [Hlt|_];
      [lia|].
    now apply take_all.
  - intros Hlong.
    destruct (Nat.ltb_spec limit (Summary.len transcription)) as [_|Hle];
      [|lia].
    split; [reflexivity|]. split; [|apply take_prefix].
    rewrite take_len. lia.
Qed.

Lemma generate_summary_not_empty (remote : Client.Remote)
    (transcription : string) (audio_path : option string) (summary : string)
    (log : list Retry.Event) :
  Summary.generate_summary remote transcription audio_path = (Some summary, log) ->
  summary <> EmptyString.
Proof.
  unfold Summary.generate_summary, Client.summarize_text.
  destruct (Client.generate_content remote _ _ _) as [[text|e] log'] eqn:Hrun;
    [|discriminate].
  intros H. injection H as <- _.
  revert Hrun. apply generate_content_returns_text.
Qed.

(** X25. [generate_summary] hands the summarizer the transcription as
    it is when it has at most 15000 characters, and otherwise its
    first 15000 characters, exactly, followed by the notice that the
    rest is left out.  It returns a summary or [None], and a summary it
    returns is never empty. *)
Theorem summary_preview_is_bounded :
  forall transcription : string,
    ((Summary.len transcription <= Summary.MAX_TRANSCRIPTION_PREVIEW_LENGTH)%nat ->
     Summary.preview transcription = transcription)
    /\ ((Summary.MAX_TRANSCRIPTION_PREVIEW_LENGTH < Summary.len transcription)%nat ->
        Summary.preview transcription
        = (Summary.take Summary.MAX_TRANSCRIPTION_PREVIEW_LENGTH transcription
           ++ Summary.truncation_notice)%string
        /\ Summary.len
             (Summary.take Summary.MAX_TRANSCRIPTION_PREVIEW_LENGTH transcription)
           = Summary.MAX_TRANSCRIPTION_PREVIEW_LENGTH
        /\ exists rest,
             transcription
             = (Summary.take Summary.MAX_TRANSCRIPTION_PREVIEW_LENGTH transcription
                ++ rest)%string)
    /\ forall remote audio_path summary log,
         Summary.generate_summary remote transcription audio_path
         = (Some summary, log) ->
         summary <> EmptyString.
Proof.
  intros transcription.
  pose proof (preview_cases Summary.MAX_TRANSCRIPTION_PREVIEW_LENGTH transcription)
    as [Hshort Hlong].
  split; [exact Hshort|]. split; [exact Hlong|].
  intros remote audio_path summary log.
  apply generate_summary_not_empty.
Qed.

Lemma summary_preview_is_bounded_witness :
  Summary.preview "こんにちは" = "こんにちは"
  /\ Summary.len
       (Summary.take Summary.MAX_TRANSCRIPTION_PREVIEW_LENGTH
          (Summary.hiragana (S Summary.MAX_TRANSCRIPTION_PREVIEW_LENGTH)))
     = Summary.MAX_TRANSCRIPTION_PREVIEW_LENGTH.
Proof.
  split.
  - apply (proj1 (summary_preview_is_bounded "こんにちは")).
    apply Nat.leb_le. vm_compute. reflexivity.
  - assert (Hlong : (Summary.MAX_TRANSCRIPTION_PREVIEW_LENGTH
                     < Summary.len
                         (Summary.hiragana
                            (S Summary.MAX_TRANSCRIPTION_PREVIEW_LENGTH)))%nat).
    { apply Nat.ltb_lt. vm_compute. reflexivity. }
    destruct (proj1 (proj2 (summary_preview_is_bounded
                              (Summary.hiragana
                                 (S Summary.MAX_TRANSCRIPTION_PREVIEW_LENGTH))))
                Hlong) as (_ & Hlen & _).
    exact Hlen.
Defined.

(** ** The handler *)

(** The three ways [process_audio_file] runs: the file is skipped; the
    steps before the ledger raise or give an empty transcription; the
    ledger is updated. *)
Lemma process_audio_file_cases (deps : Handler.Deps) (audio_path : string)
    (w : World) (l : Database.Ledger) :
  (Database.is_processed (Handler.md5_hexdigest deps) (fs w) audio_path
     (Database.data l) = true
   /\ Handler.process_audio_file deps audio_path w l = (true, w, l))
  \/ (Database.is_processed (Handler.md5_hexdigest deps) (fs w) audio_path
        (Database.data l) = false
      /\ (fst (Handler.prepare deps audio_path w) = Return None
          \/ exists e, fst (Handler.prepare deps audio_path w) = Raise e)
      /\ Handler.process_audio_file deps audio_path w l
         = (false, snd (Handler.prepare deps audio_path w), l))
  \/ (Database.is_processed (Handler.md5_hexdigest deps) (fs w) audio_path
        (Database.data l) = false
      /\ exists w1 markdown_path summary duration file_size,
           Handler.prepare deps audio_path w
           = (Return (Some (markdown_path, summary, duration, file_size)), w1)
           /\ Handler.process_audio_file deps audio_path w l
              = (match
                   fst (Database.add_processed_file (Handler.md5_hexdigest deps)
                          (fs w1) (Handler.now deps) (Handler.db_io deps)
                          audio_path markdown_path summary duration file_size l)
                 with
                 | Return _ => true
                 | Raise _ => false
                 end,
                 w1,
                 snd (Database.add_processed_file (Handler.md5_hexdigest deps)
                        (fs w1) (Handler.now deps) (Handler.db_io deps)
                        audio_path markdown_path summary duration file_size l))).
Proof.
  unfold Handler.process_audio_file, Handler.process_steps.
  destruct (Database.is_processed (Handler.md5_hexdigest deps) (fs w)
              audio_path (Database.data l)) eqn:Hdone.
  - left. split; reflexivity.
  - right.
    destruct (Handler.prepare deps audio_path w)
      as [[[[[[markdown_path summary] duration] file_size]|]|e] w1] eqn:Hprep.
    + right. split; [reflexivity|].
      exists w1, markdown_path, summary, duration, file_size.
      split; [reflexivity|].
      destruct (Database.add_processed_file _ _ _ _ _ _ _ _ _ _) as [[[]|e] l'];
        reflexivity.
    + left. split; [reflexivity|]. split; [left|]; reflexivity.
    + left. split; [reflexivity|]. split; [right; now exists e|reflexivity].
Qed.

(** The entry [add_processed_file] writes makes the file processed. *)
Lemma add_processed_file_is_processed (md5_hexdigest : string -> string)
    (disk : gmap string string) (now : nat -> string) (io : Database.SaveIO)
    (file_path markdown_path : string) (summary_path : option string)
    (duration : option float) (file_size : option Z) (l : Database.Ledger)
    (content : string) :
  disk !! file_path = Some content ->
  Database.is_processed md5_hexdigest disk file_path
    (Database.data
       (snd (Database.add_processed_file md5_hexdigest disk now io file_path
               markdown_path summary_path duration file_size l))) = true.
Proof.
  intros Hfile. apply is_processed_iff.
  destruct (add_processed_file_data md5_hexdigest disk now io file_path
              markdown_path summary_path duration file_size l content Hfile)
    as [Hfiles _].
  eexists _, content. rewrite Hfiles, lookup_insert_eq.
  repeat split. exact Hfile.
Qed.

Lemma add_processed_file_unreadable (md5_hexdigest : string -> string)
    (disk : gmap string string) (now : nat -> string) (io : Database.SaveIO)
    (file_path markdown_path : string) (summary_path : option string)
    (duration : option float) (file_size : option Z) (l : Database.Ledger) :
  disk !! file_path = None ->
  exists e,
    Database.add_processed_file md5_hexdigest disk now io file_path
      markdown_path summary_path duration file_size l = (Raise e, l).
Proof.
  intros Hfile. unfold Database.add_processed_file, Database.get_file_hash.
  rewrite Hfile. eauto.
Qed.

(** X26. [process_audio_file] is idempotent on success: when it has
    answered [True], a second call on the state it left answers [True]
    again and changes nothing, neither a file nor the ledger; no
    transcription is requested. *)
Theorem process_audio_file_is_idempotent :
  forall (deps deps' : Handler.Deps) (audio_path : string) (w w' : World)
         (l l' : Database.Ledger),
    Handler.md5_hexdigest deps' = Handler.md5_hexdigest deps ->
    Handler.process_audio_file deps audio_path w l = (true, w', l') ->
    Database.is_processed (Handler.md5_hexdigest deps) (fs w') audio_path
      (Database.data l') = true
    /\ Handler.process_audio_file deps' audio_path w' l' = (true, w', l').
Proof.
  intros deps deps' audio_path w w' l l' Hmd5 Hrun.
  assert (Hdone :
            Database.is_processed (Handler.md5_hexdigest deps) (fs w')
              audio_path (Database.data l') = true).
  { destruct (process_audio_file_cases deps audio_path w l)
      as [[Hskip Hsame]|[(_ & _ & Hstop)|(_ & w1 & mp & sp & d & sz & _ & Hadd)]];
      rewrite Hrun in *.
    - injection Hsame as <- <-. exact Hskip.
    - discriminate.
    - injection Hadd as Hanswer -> ->.
      destruct (fs w1 !! audio_path) as [content|] eqn:Hfile.
      + now apply (add_processed_file_is_processed _ _ _ _ _ _ _ _ _ _ content).
      + destruct (add_processed_file_unreadable (Handler.md5_hexdigest deps)
                    (fs w1) (Handler.now deps) (Handler.db_io deps) audio_path
                    mp sp d sz l Hfile) as [e He].
        rewrite He in Hanswer. discriminate. }
  split; [exact Hdone|].
  unfold Handler.process_audio_file, Handler.process_steps.
  rewrite Hmd5, Hdone. reflexivity.
Qed.

Lemma process_audio_file_is_idempotent_witness :
  fst (fst (Handler.process_audio_file
              (Handler.sample_deps Service.sample_env Database.SaveSucceeds)
              "/vault/talk.wav" Service.sample_world Database.new_ledger))
  = true
  /\ Handler.process_audio_file
       (Handler.sample_deps Service.sample_env Database.SaveSucceeds)
       "/vault/talk.wav"
       (snd (fst (Handler.process_audio_file
                    (Handler.sample_deps Service.sample_env Database.SaveSucceeds)
                    "/vault/talk.wav" Service.sample_world Database.new_ledger)))
       (snd (Handler.process_audio_file
               (Handler.sample_deps Service.sample_env Database.SaveSucceeds)
               "/vault/talk.wav" Service.sample_world Database.new_ledger))
     = Handler.process_audio_file
         (Handler.sample_deps Service.sample_env Database.SaveSucceeds)
         "/vault/talk.wav" Service.sample_world Database.new_ledger.
Proof.
  destruct (Handler.process_audio_file
              (Handler.sample_deps Service.sample_env Database.SaveSucceeds)
              "/vault/talk.wav" Service.sample_world Database.new_ledger)
    as [[answer w'] l'] eqn:Hrun.
  cbn [fst snd].
  assert (Hanswer : answer = true).
  { apply (f_equal (fun run => fst (fst run))) in Hrun.
    vm_compute in Hrun. congruence. }
  subst answer. split; [reflexivity|].
  apply (process_audio_file_is_idempotent
           (Handler.sample_deps Service.sample_env Database.SaveSucceeds)
           (Handler.sample_deps Service.sample_env Database.SaveSucceeds)
           "/vault/talk.wav" Service.sample_world w' Database.new_ledger l'
           eq_refl Hrun).
Defined.

(** The entries [add_processed_file] leaves. *)
Lemma add_processed_file_entries (md5_hexdigest : string -> string)
    (disk : gmap string string) (now : nat -> string) (io : Database.SaveIO)
    (file_path markdown_path : string) (summary_path : option string)
    (duration : option float) (file_size : option Z) (l : Database.Ledger) :
  Database.files
    (Database.data
       (snd (Database.add_processed_file md5_hexdigest disk now io file_path
               markdown_path summary_path duration file_size l)))
  = Database.files (Database.data l)
  \/ exists entry,
       Database.status entry = Some "completed"
       /\ Database.files
            (Database.data
               (snd (Database.add_processed_file md5_hexdigest disk now io
                       file_path markdown_path summary_path duration
                       file_size l)))
          = <[file_path := entry]> (Database.files (Database.data l)).
Proof.
  destruct (disk !! file_path) as [content|] eqn:Hfile.
  - right.
    destruct (add_processed_file_data md5_hexdigest disk now io file_path
                markdown_path summary_path duration file_size l content Hfile)
      as [Hfiles _].
    eexists. split; [|exact Hfiles]. reflexivity.
  - left.
    destruct (add_processed_file_unreadable md5_hexdigest disk now io file_path
                markdown_path summary_path duration file_size l Hfile)
      as [e ->].
    reflexivity.
Qed.

(** X27. [process_audio_file] never records a failure.  Whatever its
    collaborators do, it leaves every entry of the ledger as it was,
    except that it may put a completed entry at the path of its file:
    an entry that is failed afterwards was there before, and when the
    answer is [False] because a step before the ledger failed, the
    ledger is as it was. *)
Theorem process_audio_file_records_no_failure :
  forall (deps : Handler.Deps) (audio_path : string) (w : World)
         (l : Database.Ledger),
    let after :=
      Database.data (snd (Handler.process_audio_file deps audio_path w l)) in
    (forall file_path,
        file_path <> audio_path ->
        Database.get_processed_info file_path after
        = Database.get_processed_info file_path (Database.data l))
    /\ (Database.get_processed_info audio_path after
        = Database.get_processed_info audio_path (Database.data l)
        \/ exists entry,
             Database.get_processed_info audio_path after = Some entry
             /\ Database.status entry = Some "completed")
    /\ (forall file_path entry,
           Database.get_processed_info file_path after = Some entry ->
           Database.status entry = Some "failed" ->
           Database.get_processed_info file_path (Database.data l) = Some entry)
    /\ (Database.is_processed (Handler.md5_hexdigest deps) (fs w) audio_path
          (Database.data l) = false ->
        (forall arguments,
            fst (Handler.prepare deps audio_path w) <> Return (Some arguments)) ->
        Handler.process_audio_file deps audio_path w l
        = (false, snd (Handler.prepare deps audio_path w), l)).
Proof.
  intros deps audio_path w l after. subst after.
  unfold Database.get_processed_info.
  assert (Hfiles :
            Database.files
              (Database.data (snd (Handler.process_audio_file deps audio_path w l)))
            = Database.files (Database.data l)
            \/ exists entry,
                 Database.status entry = Some "completed"
                 /\ Database.files
                      (Database.data
                         (snd (Handler.process_audio_file deps audio_path w l)))
                    = <[audio_path := entry]> (Database.files (Database.data l))).
  { destruct (process_audio_file_cases deps audio_path w l)
      as [[_ ->]|[(_ & _ & ->)|(_ & w1 & mp & sp & d & sz & _ & ->)]];
      [now left | now left |].
    cbn [snd]. apply add_processed_file_entries. }
  split; [|split; [|split]].
  - intros file_path Hother. destruct Hfiles as [->|(entry & _ & ->)];
      [reflexivity|].
    now apply lookup_insert_ne.
  - destruct Hfiles as [->|(entry & Hstatus & ->)]; [now left|].
    right. exists entry. now rewrite lookup_insert_eq.
  - intros file_path entry Hentry Hfailed.
    destruct Hfiles as [Hsame|(written & Hstatus & Hput)].
    + now rewrite <- Hsame.
    + rewrite Hput in Hentry.
      destruct (decide (audio_path = file_path)) as [->|Hother].
      * rewrite lookup_insert_eq in Hentry. injection Hentry as <-.
        rewrite Hstatus in Hfailed. discriminate.
      * now rewrite lookup_insert_ne in Hentry.
  - intros Hnot Hstop.
    destruct (process_audio_file_cases deps audio_path w l)
      as [[Hdone _]|[(_ & _ & Hrun)|(_ & w1 & mp & sp & d & sz & Hprep & _)]].
    + rewrite Hdone in Hnot. discriminate.
    + exact Hrun.
    + exfalso. apply (Hstop (mp, sp, d, sz)). now rewrite Hprep.
Qed.

Lemma process_audio_file_records_no_failure_witness :
  Handler.process_audio_file
    (Handler.sample_deps Handler.undecodable_env Database.SaveSucceeds)
    "/vault/talk.wav" Service.sample_world Database.new_ledger
  = (false,
     snd (Handler.prepare
            (Handler.sample_deps Handler.undecodable_env Database.SaveSucceeds)
            "/vault/talk.wav" Service.sample_world),
     Database.new_ledger).
Proof.
  apply (proj2 (proj2 (proj2 (process_audio_file_records_no_failure
                                (Handler.sample_deps Handler.undecodable_env
                                   Database.SaveSucceeds)
                                "/vault/talk.wav" Service.sample_world
                                Database.new_ledger)))).
  - reflexivity.
  - intros arguments H. vm_compute in H. discriminate.
Defined.

(** ** The handler and a recording without speech *)

Lemma keeps_absent_bind {A B} (file_path : string) (m : M A) (k : A -> M B) :
  Handler.keeps_absent file_path m ->
  (forall a, Handler.keeps_absent file_path (k a)) ->
  Handler.keeps_absent file_path (bind m k).
Proof.
  intros Hm Hk w Hw. unfold bind. specialize (Hm w Hw).
  destruct (m w) as [[a|e] w1]; cbn [snd] in *; [now apply Hk | exact Hm].
Qed.

Lemma keeps_absent_ret {A} (file_path : string) (a : A) :
  Handler.keeps_absent file_path (ret a).
Proof. intros w Hw. exact Hw. Qed.

Lemma keeps_absent_lift {A} (file_path : string) (r : Result A) :
  Handler.keeps_absent file_path (lift r).
Proof. intros w Hw. exact Hw. Qed.

Lemma keeps_absent_try_except {A} (file_path : string) (m : M A)
    (handler : Exn -> M A) :
  Handler.keeps_absent file_path m ->
  (forall e, Handler.keeps_absent file_path (handler e)) ->
  Handler.keeps_absent file_path (try_except m handler).
Proof.
  intros Hm Hh w Hw. unfold try_except. specialize (Hm w Hw).
  destruct (m w) as [[a|e] w1]; cbn [snd] in *; [exact Hm | now apply Hh].
Qed.

Lemma file_metadata_keeps_absent (deps : Handler.Deps)
    (audio_path file_path : string) :
  Handler.keeps_absent file_path (Handler.file_metadata deps audio_path).
Proof.
  unfold Handler.file_metadata.
  apply keeps_absent_try_except; [|intros e; apply keeps_absent_ret].
  apply keeps_absent_bind; [apply keeps_absent_lift|]. intros duration.
  apply keeps_absent_bind; [|intros size; apply keeps_absent_ret].
  intros w Hw. unfold Handler.st_size.
  destruct (fs w !! audio_path); exact Hw.
Qed.

(** The transcription of a recording in which no speech is found
    returns, and the recording is gone. *)
Lemma silent_transcription_removes_file (env : Env) (audio_path : string)
    (w : World) (wav : string) (duration : float) :
  (vad_model w = false -> load_silero_vad env = Return tt) ->
  (Py.endswith (Py.lower audio_path) ".wav" = false ->
   exists audio bytes,
     from_file env audio_path = Return audio
     /\ export_wav env audio = Return bytes) ->
  read_audio env
    (if Py.endswith (Py.lower audio_path) ".wav" then audio_path
     else tmp_name env (tmp_count w) ".wav") = Return wav ->
  get_speech_timestamps env wav = Return [] ->
  get_audio_duration env audio_path = Return duration ->
  (600 <? duration)%float = true ->
  exists text w2,
    Service.transcribe_file env audio_path true 600 w = (Return text, w2)
    /\ fs w2 !! audio_path = None.
Proof.
  intros Hload Hconv Hread Hvad Hdur Hlong.
  destruct (split_audio_no_speech env audio_path VAD.MAX_SEGMENT_DURATION w
              wav duration Hload Hconv Hread Hvad Hdur) as (w1 & Hsplit & _).
  destruct (transcribe_segment_run env 0 (0%float, duration, audio_path) w1)
    as (w2 & Hseg & Hfs2).
  cbn [Service.segment_path snd] in Hfs2.
  exists (Py.join Py.blank_line
            [Service.segment_block env 0 (0%float, duration, audio_path)]), w2.
  split.
  - unfold Service.transcribe_file, bind at 1, lift at 1. rewrite Hdur, Hlong.
    cbn [andb].
    unfold Service._transcribe_with_vad, bind at 1. rewrite Hsplit.
    cbn [Service.transcribe_segments]. unfold bind, ret. rewrite Hseg.
    reflexivity.
  - rewrite Hfs2. apply lookup_delete_eq.
Qed.

(** X28. A recording longer than ten minutes in which the detector
    finds no speech is lost: the segmented transcription removes the
    recording itself, so that the ledger cannot hash it any more.
    [process_audio_file] answers [False], the recording no longer
    exists, and the ledger is as it was, without an entry for it.  The
    notes must not be written at the path of the recording. *)
Theorem silent_recording_is_lost :
  forall (deps : Handler.Deps) (audio_path : string) (w : World)
         (l : Database.Ledger) (wav : string) (duration : float),
    Database.is_processed (Handler.md5_hexdigest deps) (fs w) audio_path
      (Database.data l) = false ->
    (vad_model w = false -> load_silero_vad (Handler.env deps) = Return tt) ->
    (Py.endswith (Py.lower audio_path) ".wav" = false ->
     exists audio bytes,
       from_file (Handler.env deps) audio_path = Return audio
       /\ export_wav (Handler.env deps) audio = Return bytes) ->
    read_audio (Handler.env deps)
      (if Py.endswith (Py.lower audio_path) ".wav" then audio_path
       else tmp_name (Handler.env deps) (tmp_count w) ".wav") = Return wav ->
    get_speech_timestamps (Handler.env deps) wav = Return [] ->
    get_audio_duration (Handler.env deps) audio_path = Return duration ->
    (600 <? duration)%float = true ->
    (forall transcription,
        Handler.keeps_absent audio_path
          (Handler.create_transcription_note deps audio_path transcription)) ->
    (forall transcription summary,
        Handler.keeps_absent audio_path
          (Handler.create_summary_note deps audio_path transcription summary)) ->
    (forall content,
        Handler.keeps_absent audio_path
          (Handler.save_note deps content
             (Handler.transcription_path deps audio_path))
        /\ Handler.keeps_absent audio_path
             (Handler.save_note deps content
                (Handler.summary_path deps audio_path))) ->
    exists w',
      Handler.process_audio_file deps audio_path w l = (false, w', l)
      /\ fs w' !! audio_path = None.
Proof.
  intros deps audio_path w l wav duration Hnot Hload Hconv Hread Hvad Hdur
    Hlong Hnote Hsummary Hsave.
  destruct (silent_transcription_removes_file (Handler.env deps) audio_path w
              wav duration Hload Hconv Hread Hvad Hdur Hlong)
    as (text & w2 & Hrun & Hgone).
  assert (Habsent : fs (snd (Handler.prepare deps audio_path w)) !! audio_path
                    = None).
  { unfold Handler.prepare, bind at 1. rewrite Hrun.
    destruct (String.eqb text EmptyString); [exact Hgone|].
    clear Hrun. revert w2 Hgone.
    change (Handler.keeps_absent audio_path
              (transcription_content <-
                 Handler.create_transcription_note deps audio_path text ;;
               Handler.save_note deps transcription_content
                 (Handler.transcription_path deps audio_path) ;;;
               summary <- Handler.write_summary deps audio_path text ;;
               metadata <- Handler.file_metadata deps audio_path ;;
               ret (Some (Handler.transcription_path deps audio_path, summary,
                          fst metadata, snd metadata)))).
    apply keeps_absent_bind; [apply Hnote|]. intros content.
    apply keeps_absent_bind; [apply Hsave|]. intros _.
    apply keeps_absent_bind.
    - unfold Handler.write_summary.
      destruct (Handler.create_summary deps); [|apply keeps_absent_ret].
      destruct (Handler.generate_summary deps text audio_path) as [summary|];
        [|apply keeps_absent_ret].
      destruct (String.eqb summary EmptyString); [apply keeps_absent_ret|].
      apply keeps_absent_bind; [apply Hsummary|]. intros summary_content.
      apply keeps_absent_bind; [apply Hsave|]. intros _.
      apply keeps_absent_ret.
    - intros summary.
      apply keeps_absent_bind; [apply file_metadata_keeps_absent|].
      intros metadata. apply keeps_absent_ret. }
  destruct (process_audio_file_cases deps audio_path w l)
    as [[Hdone _]|[(_ & _ & Hstop)|(_ & w1 & mp & sp & d & sz & Hprep & Hadd)]].
  - rewrite Hdone in Hnot. discriminate.
  - eexists. split; [exact Hstop | exact Habsent].
  - rewrite Hprep in Habsent. cbn [snd] in Habsent.
    destruct (add_processed_file_unreadable (Handler.md5_hexdigest deps)
                (fs w1) (Handler.now deps) (Handler.db_io deps) audio_path
                mp sp d sz l Habsent) as [e He].
    rewrite He in Hadd. exists w1. split; [exact Hadd | exact Habsent].
Qed.

Lemma silent_recording_is_lost_witness :
  exists w',
    Handler.process_audio_file
      (Handler.sample_deps Handler.long_silent_env Database.SaveSucceeds)
      "/vault/talk.wav" Service.sample_world Database.new_ledger
    = (false, w', Database.new_ledger)
    /\ fs Service.sample_world !! "/vault/talk.wav" = Some "RIFF"
    /\ fs w' !! "/vault/talk.wav" = None.
Proof.
  destruct (silent_recording_is_lost
              (Handler.sample_deps Handler.long_silent_env Database.SaveSucceeds)
              "/vault/talk.wav" Service.sample_world Database.new_ledger
              "samples" 1200%float) as (w' & Hrun & Hgone).
  - reflexivity.
  - reflexivity.
  - intros H. vm_compute in H. discriminate.
  - reflexivity.
  - reflexivity.
  - reflexivity.
  - reflexivity.
  - intros transcription. apply keeps_absent_ret.
  - intros transcription summary. apply keeps_absent_ret.
  - intros content. split; intros w Hw; cbn;
      (rewrite lookup_insert_ne; [exact Hw|]);
      intros H; vm_compute in H; discriminate.
  - exists w'. split; [exact Hrun|]. split; [reflexivity | exact Hgone].
Defined.

(** ** The handler and a ledger that cannot be saved *)

(** X29. When everything succeeds but the save of the ledger,
    [process_audio_file] answers [False], although the notes are
    written and the entry is in memory.  A second call, the recording
    being unchanged, then answers [True] at once, without a
    transcription; the store does not hold the entry. *)
Theorem unsaved_entry_makes_next_call_skip :
  forall (deps deps' : Handler.Deps) (audio_path : string) (w w1 : World)
         (l : Database.Ledger) (markdown_path : string)
         (summary : option string) (duration : option float)
         (file_size : option Z) (content : string) (e : Exn),
    Handler.md5_hexdigest deps' = Handler.md5_hexdigest deps ->
    Database.is_processed (Handler.md5_hexdigest deps) (fs w) audio_path
      (Database.data l) = false ->
    Handler.prepare deps audio_path w
    = (Return (Some (markdown_path, summary, duration, file_size)), w1) ->
    fs w1 !! audio_path = Some content ->
    Handler.db_io deps = Database.MkdirFails e
    \/ Handler.db_io deps = Database.OpenFails e
    \/ Handler.db_io deps = Database.DumpFails e ->
    exists l',
      Handler.process_audio_file deps audio_path w l = (false, w1, l')
      /\ Handler.process_audio_file deps' audio_path w1 l' = (true, w1, l')
      /\ Database.store l'
         = match Handler.db_io deps with
           | Database.DumpFails _ => Some Database.Unreadable
           | _ => Database.store l
           end.
Proof.
  intros deps deps' audio_path w w1 l markdown_path summary duration file_size
    content e Hmd5 Hnot Hprep Hfile Hio.
  destruct (process_audio_file_cases deps audio_path w l)
    as [[Hdone _]|[(_ & Hstop & _)|(_ & w1' & mp & sp & d & sz & Hprep' & Hrun)]].
  - rewrite Hdone in Hnot. discriminate.
  - rewrite Hprep in Hstop. destruct Hstop as [H|[e' H]]; discriminate.
  - rewrite Hprep in Hprep'. injection Hprep' as <- <- <- <- <-.
    pose proof (add_processed_file_is_processed (Handler.md5_hexdigest deps)
                  (fs w1) (Handler.now deps) (Handler.db_io deps) audio_path
                  markdown_path summary duration file_size l content Hfile)
      as Hdone.
    eexists. split; [|split].
    + rewrite Hrun. f_equal. f_equal.
      unfold Database.add_processed_file, Database.get_file_hash.
      rewrite Hfile. destruct Hio as [->|[->| ->]]; reflexivity.
    + unfold Handler.process_audio_file, Handler.process_steps.
      rewrite Hmd5, Hdone. reflexivity.
    + unfold Database.add_processed_file, Database.get_file_hash.
      rewrite Hfile. destruct Hio as [->|[->| ->]]; reflexivity.
Qed.

Lemma unsaved_entry_makes_next_call_skip_witness :
  exists l',
    Handler.process_audio_file
      (Handler.sample_deps Service.sample_env
         (Database.DumpFails Database.disk_full))
      "/vault/talk.wav" Service.sample_world Database.new_ledger
    = (false,
       snd (Handler.prepare
              (Handler.sample_deps Service.sample_env
                 (Database.DumpFails Database.disk_full))
              "/vault/talk.wav" Service.sample_world),
       l')
    /\ Database.store l' = Some Database.Unreadable.
Proof.
  destruct (unsaved_entry_makes_next_call_skip
              (Handler.sample_deps Service.sample_env
                 (Database.DumpFails Database.disk_full))
              (Handler.sample_deps Service.sample_env Database.SaveSucceeds)
              "/vault/talk.wav" Service.sample_world
              (snd (Handler.prepare
                      (Handler.sample_deps Service.sample_env
                         (Database.DumpFails Database.disk_full))
                      "/vault/talk.wav" Service.sample_world))
              Database.new_ledger
              "/vault/talk.wav_文字起こし.md" None (Some 600%float) (Some 4)
              "RIFF" Database.disk_full)
    as (l' & Hrun & _ & Hstore).
  - reflexivity.
  - reflexivity.
  - vm_compute. reflexivity.
  - vm_compute. reflexivity.
  - right. right. reflexivity.
  - exists l'. split; [exact Hrun | exact Hstore].
Defined.

(** ** Processing a file again *)

(** X30. [reprocess_file] forgets the earlier record before it tries
    again.  When the save of the removal raises, that error escapes
    [reprocess_file], which is the one entry point of the handler that
    can raise, and the entry is gone from memory.  When the removal
    returns, the check of the ledger cannot skip the file; so when the
    new attempt fails before the ledger is updated, the answer is
    [False] and the ledger no longer has an entry for the file. *)
Theorem reprocess_file_forgets_first :
  forall (deps : Handler.Deps) (later : string) (io : Database.SaveIO)
         (audio_path : string) (w : World) (l : Database.Ledger),
    (forall e entry,
        Database.get_processed_info audio_path (Database.data l) = Some entry ->
        io = Database.MkdirFails e \/ io = Database.OpenFails e
        \/ io = Database.DumpFails e ->
        exists l1,
          Handler.reprocess_file deps later io audio_path w l = (Raise e, w, l1)
          /\ Database.get_processed_info audio_path (Database.data l1) = None)
    /\ (fst (Database.remove_processed_file later io audio_path l) = Return tt ->
        (forall arguments,
            fst (Handler.prepare deps audio_path w) <> Return (Some arguments)) ->
        exists l1,
          Handler.reprocess_file deps later io audio_path w l
          = (Return false, snd (Handler.prepare deps audio_path w), l1)
          /\ Database.get_processed_info audio_path (Database.data l1) = None).
Proof.
  intros deps later io audio_path w l.
  pose proof (remove_processed_file_files later io audio_path l) as Hfiles.
  assert (Hgone : Database.get_processed_info audio_path
                    (Database.data
                       (snd (Database.remove_processed_file later io
                               audio_path l))) = None).
  { unfold Database.get_processed_info. rewrite Hfiles.
    apply lookup_delete_eq. }
  split.
  - intros e entry Hentry Hio. unfold Handler.reprocess_file.
    assert (Hraise : fst (Database.remove_processed_file later io audio_path l)
                     = Raise e).
    { unfold Database.remove_processed_file.
      unfold Database.get_processed_info in Hentry. rewrite Hentry.
      destruct Hio as [->|[->| ->]]; reflexivity. }
    destruct (Database.remove_processed_file later io audio_path l)
      as [r l1]. cbn [fst snd] in *. subst r. now exists l1.
  - intros Hreturn Hstop. unfold Handler.reprocess_file.
    destruct (Database.remove_processed_file later io audio_path l)
      as [r l1]. cbn [fst snd] in *. subst r.
    exists l1. split; [|exact Hgone].
    destruct (process_audio_file_cases deps audio_path w l1)
      as [[Hdone _]|[(_ & _ & ->)|(_ & w1 & mp & sp & d & sz & Hprep & _)]].
    + apply is_processed_iff in Hdone as (entry & content & Hentry & _).
      unfold Database.get_processed_info in Hgone. rewrite Hgone in Hentry.
      discriminate.
    + reflexivity.
    + exfalso. apply (Hstop (mp, sp, d, sz)). now rewrite Hprep.
Qed.

Lemma reprocess_file_forgets_first_witness :
  Database.get_processed_info "/vault/talk.wav"
    (Database.data Database.saved_ledger) = Some Database.sample_entry
  /\ exists l1,
       Handler.reprocess_file
         (Handler.sample_deps Handler.undecodable_env Database.SaveSucceeds)
         "2024-01-05T00:00:00" Database.SaveSucceeds "/vault/talk.wav"
         Service.sample_world Database.saved_ledger
       = (Return false,
          snd (Handler.prepare
                 (Handler.sample_deps Handler.undecodable_env
                    Database.SaveSucceeds)
                 "/vault/talk.wav" Service.sample_world),
          l1)
       /\ Database.get_processed_info "/vault/talk.wav" (Database.data l1)
          = None.
Proof.
  split; [reflexivity|].
  apply (proj2 (reprocess_file_forgets_first
                  (Handler.sample_deps Handler.undecodable_env
                     Database.SaveSucceeds)
                  "2024-01-05T00:00:00" Database.SaveSucceeds "/vault/talk.wav"
                  Service.sample_world Database.saved_ledger)).
  - reflexivity.
  - intros arguments H. vm_compute in H. discriminate.
Defined.
